(** * The NLCG driver of nlcglib (src/nlcglib.cpp)

    A shallow embedding of [print_info], of the two conjugate-gradient
    drivers [nlcg] and [nlcg_us], of the exported entry points and of
    [nlcg_check_gradient], followed by the properties of their control flow.

    - [double] is IEEE 754 binary64, that is Rocq's primitive [float]; the
      comparisons of the source are the primitive comparisons (false on NaN).
      [feenableexcept] (lines 57 and 286) arms SIGFPE: a run in which an
      armed floating-point exception is raised is killed by the signal and
      has no outcome in terms of the driver; the development describes the
      runs in which none is raised.  [ordered], [quiet_div] and [quiet_add]
      say of a comparison, a division and an addition of the driver that it
      raises none.
    - [int] is a 32-bit signed integer, modelled on [Z]; the two places where
      the source can leave the defined behaviour of [int] ([maxiter+1] at
      [INT_MAX], [i % restart] at [restart = 0]) end a run in [Undefined].
    - The physics model, the tensor library, the gradient kernels, the
      geodesic and the line search are declared in headers outside
      nlcglib.cpp; they are the fields of [Collaborators], total functions on
      values (the line search alone may throw), and every definition below
      is parametric in them.
    - The locals of the driver that live across iterations form the record
      [state]; the calls the driver makes on the energy model and the lines
      it writes to the log whose text is fixed, with the progress record of
      [print_info] and the line that carries gamma, are recorded in program
      order in [trace].  Timers and the remaining formatted log lines are
      left out, among them the lines of the set-up that print the parameters
      (lines 72-92 and 304-324; they look [smear] up in a map that has an
      entry for each of the two enumerators this file names). *)

From Stdlib Require Import ZArith Bool String List Lia PrimFloat.
Import ListNotations.

Open Scope string_scope.
Open Scope Z_scope.

(** ** Plain data of nlcglib.hpp *)

(** The enumerators nlcglib.cpp names: the keys of its map [smear_name]
    (lines 62-64 and 294-296). *)
Inductive smearing_type : Type := FERMI_DIRAC | GAUSSIAN_SPLINE.

(** Kokkos memory / execution spaces, the template arguments of the drivers. *)
Inductive space : Type := HostSpace | CudaSpace.

Record nlcg_info : Type := mk_info {
  F : float;          (* free energy *)
  S : float;          (* entropy *)
  tolerance : float;
  iter : Z
}.

(** The exceptions the driver throws or catches. *)
Inductive exception : Type :=
| runtime_error (what : string)
| DescentError.

(** [line_search ls; ls.t_trial = 0.2; ls.tau = tau;] *)
Record line_search : Type := { t_trial : float; tau : float }.

(** [GradEta grad_eta(T, kappa);] *)
Record GradEta : Type := { ge_T : float; ge_kappa : float }.

Definition INT_MAX : Z := 2147483647.

(** [copy] makes a deep copy; on values it is the identity. *)
Definition copy {A : Type} (x : A) : A := x.

(** ** The collaborators *)

Record Collaborators : Type := {
  (* carriers *)
  energy : Type;          (* an EnergyBase as seen through FreeEnergy *)
  wfun : Type;            (* X, HX, g_X, delta_x, Z_x, S*X *)
  subsp : Type;           (* eta, Hij, g_eta, delta_eta, Z_eta, Xll *)
  band_energies : Type;   (* ek *)
  occupations : Type;     (* fn *)
  rotation : Type;        (* u *)
  weights : Type;         (* wk *)
  communicator : Type;    (* commk *)
  Smearing : Type;
  gkvec_ekin : Type;
  PreconditionerTeter : Type;
  OverlapBase : Type;
  UltrasoftPrecondBase : Type;
  Overlap : Type;
  USPreconditioner : Type;

  (* nlcglib.hpp: what [nlcg_info info;] holds *)
  default_info : nlcg_info;

  (* free_energy.hpp *)
  FreeEnergy : space -> space -> float -> energy -> smearing_type -> energy;
  compute : energy -> energy;
  compute_X_fn : wfun -> occupations -> energy -> energy;
  get_F : energy -> float;
  ks_energy : energy -> float;
  get_entropy : energy -> float;
  get_ek : energy -> band_energies;
  get_fn : energy -> occupations;
  get_wk : energy -> weights;
  wk_commk : weights -> communicator;        (* wk.commk() *)
  get_smearing : energy -> Smearing;
  get_X : energy -> wfun;
  get_HX : energy -> wfun;
  get_gkvec_ekin : energy -> gkvec_ekin;
  occupancy : energy -> float;

  (* smearing.hpp, preconditioner.hpp, overlap.hpp, ultrasoft_precond.hpp *)
  smearing_fn : Smearing -> band_energies -> occupations;
  mkPreconditionerTeter : gkvec_ekin -> PreconditionerTeter;
  mkOverlap : OverlapBase -> Overlap;
  mkUSPreconditioner : UltrasoftPrecondBase -> USPreconditioner;
  tapply_op : Overlap -> wfun -> wfun;

  (* la/, mvp2.hpp, pseudo_hamiltonian/grad_eta.hpp *)
  make_diag : band_energies -> subsp;
  inner_ : wfun -> wfun -> weights -> subsp;
  zeros_like : subsp -> subsp;
  linspace : float -> float -> Z -> list float;
  g_eta_of : GradEta -> subsp -> weights -> band_energies -> occupations ->
             float -> subsp;
  delta_eta_of : GradEta -> subsp -> band_energies -> weights -> subsp;
  lagrange_multipliers : wfun -> wfun -> wfun -> PreconditionerTeter -> subsp;
  lagrange_multipliers_us : wfun -> wfun -> wfun -> USPreconditioner -> subsp;
  gradX : wfun -> wfun -> occupations -> subsp -> weights -> wfun;
  precondGradX : wfun -> wfun -> PreconditionerTeter -> subsp -> wfun;
  precondGradX_us : wfun -> wfun -> USPreconditioner -> subsp -> wfun;
  compute_slope : wfun -> wfun -> subsp -> subsp -> communicator ->
                  float * float;
  compute_slope_single : wfun -> wfun -> subsp -> subsp -> communicator ->
                         float;
  rotateX : wfun -> rotation -> wfun;
  rotateEta : subsp -> rotation -> subsp;
  conjugatex : wfun -> wfun -> wfun -> float -> wfun;
  conjugatex_us : wfun -> wfun -> wfun -> wfun -> float -> wfun;
  conjugateeta : subsp -> subsp -> float -> subsp;

  (* geodesic.hpp: moves the energy model to the point at step t *)
  geodesic : energy -> wfun -> subsp -> wfun -> subsp -> float ->
             (band_energies * rotation) * energy;
  geodesic_us : energy -> wfun -> subsp -> wfun -> subsp -> Overlap -> float ->
                (band_energies * rotation) * energy;

  (* linesearch/linesearch.hpp: [ls(G, free_energy, slope, force_restart)].
     The search drives the energy model through the geodesic it is given and
     either returns (ek, u) or throws.  The call site passes the flag as an
     lvalue, so a by-reference parameter may write to it: the search returns
     the value the flag has after the call (a by-value search returns its
     argument). *)
  ls_call : line_search ->
            (energy -> float -> (band_energies * rotation) * energy) ->
            energy -> float -> bool ->
            ((band_energies * rotation) + exception) * energy * bool;

  (* utils/format.hpp: format("%.5g", x) *)
  format_g5 : float -> string
}.

(** ** Outcomes and the trace *)

(** How a call of a driver ends. *)
Inductive exit : Type :=
| Return (r : nlcg_info)
| Throw (e : exception)
| Undefined.

Inductive event : Type :=
| KokkosInitialize
| KokkosFinalize
| Compute                       (* free_energy.compute(...) *)
| LogIteration (i : Z)          (* "Iteration " << i *)
| LineSearch (i : Z)            (* the call ls(...) of iteration i *)
| Gradients (i : Z)             (* lines 166-179: fields and gradients refetched *)
| Geodesic (t : float)          (* Ft(t) in the catch block of nlcg_us *)
| Log (msg : string)
| LogGamma (gamma : float)       (* "\t CG gamma = " << gamma *)
| Printed (step : Z) (free_energy slope_x slope_eta entropy ks : float).

Definition msg_ascending := "ascending slope detected. Abort!".
Definition msg_increasing := "Error: increasing slope !!!, <.,.> = ".
Definition msg_no_descent := "no descent direction could be found, abort!".
Definition msg_cuda := "recompile nlcglib with CUDA.".
Definition log_restart := "CG restart".
Definition log_force := ">> slope > 0, force restart.".
Definition log_success := "NLCG SUCCESS".
Definition log_warning :=
  "WARNING: No descent direction found, nlcg didn't reach final tolerance".
Definition log_bt_failed := "--- bt search failed, print energies along Z_X ---".

(** ** Floating-point tests of the source

    The quiet comparisons; [ordered] below says of the operands that the
    source's test raises no armed exception. *)

(** [x >= 0] *)
Definition ge0 (x : float) : bool := (0 <=? x)%float.
(** [x > 0] *)
Definition gt0 (x : float) : bool := (0 <? x)%float.
(** [std::abs(x) < tol] *)
Definition abs_lt (x tol : float) : bool := (abs x <? tol)%float.

(** ** The armed floating-point exceptions

    [feenableexcept(FE_ALL_EXCEPT & ~FE_INEXACT & ~FE_UNDERFLOW)] (lines 57
    and 286) arms FE_INVALID, FE_DIVBYZERO and FE_OVERFLOW.  A NaN operand
    is counted as raising FE_INVALID in every operation (it may be a
    signalling one). *)

(** [x < y], [x > y], [x >= y] raise none: FE_INVALID is raised on a NaN. *)
Definition ordered (x y : float) : bool := negb (is_nan x || is_nan y).

(** [x / y] raises none: FE_INVALID is raised at 0/0 and inf/inf,
    FE_DIVBYZERO at a finite x over 0, FE_OVERFLOW at an infinite quotient of
    finite operands. *)
Definition quiet_div (x y : float) : bool :=
  negb (is_nan x || is_nan y
        || (is_zero y && is_finite x)
        || (is_infinity x && is_infinity y)
        || (is_finite x && is_finite y && is_infinity (x / y))).

(** [x + y] raises none: FE_INVALID is raised at inf + (-inf), FE_OVERFLOW at
    an infinite sum of finite operands. *)
Definition quiet_add (x y : float) : bool :=
  negb (is_nan x || is_nan y || is_nan (x + y)
        || (is_finite x && is_finite y && is_infinity (x + y))).

(** [i % restart == 0]: C++ truncates towards zero; a zero divisor is
    undefined behaviour ([None]). *)
Definition rem_is_0 (i restart : Z) : option bool :=
  if restart =? 0 then None else Some (Z.rem i restart =? 0).

(** A statement either falls through with a value or leaves the function. *)
Inductive flow (A : Type) : Type :=
| Next (a : A)
| Exit (e : exit).
Arguments Next {A} a.
Arguments Exit {A} e.

Section Driver.

Context {C : Collaborators}.

(** ** The locals that live across iterations *)

Record state : Type := mk_state {
  free_energy : energy C;
  Hx : wfun C;
  X : wfun C;
  eta : subsp C;
  Z_x : wfun C;
  Z_eta : subsp C;
  slope_x_eta : float * float;
  slope : float;
  fr : float;
  force_restart : bool;
  info : nlcg_info;
  trace : list event
}.

Definition set_free_energy (v : energy C) (s : state) : state :=
  mk_state v (Hx s) (X s) (eta s) (Z_x s) (Z_eta s) (slope_x_eta s) (slope s)
           (fr s) (force_restart s) (info s) (trace s).
Definition set_fields (hx x : wfun C) (e : subsp C) (s : state) : state :=
  mk_state (free_energy s) hx x e (Z_x s) (Z_eta s) (slope_x_eta s) (slope s)
           (fr s) (force_restart s) (info s) (trace s).
Definition set_Z (zx : wfun C) (ze : subsp C) (s : state) : state :=
  mk_state (free_energy s) (Hx s) (X s) (eta s) zx ze (slope_x_eta s) (slope s)
           (fr s) (force_restart s) (info s) (trace s).
Definition set_slope (sxe : float * float) (sl : float) (s : state) : state :=
  mk_state (free_energy s) (Hx s) (X s) (eta s) (Z_x s) (Z_eta s) sxe sl
           (fr s) (force_restart s) (info s) (trace s).
Definition set_fr (v : float) (s : state) : state :=
  mk_state (free_energy s) (Hx s) (X s) (eta s) (Z_x s) (Z_eta s)
           (slope_x_eta s) (slope s) v (force_restart s) (info s) (trace s).
Definition set_force_restart (v : bool) (s : state) : state :=
  mk_state (free_energy s) (Hx s) (X s) (eta s) (Z_x s) (Z_eta s)
           (slope_x_eta s) (slope s) (fr s) v (info s) (trace s).
Definition set_info (v : nlcg_info) (s : state) : state :=
  mk_state (free_energy s) (Hx s) (X s) (eta s) (Z_x s) (Z_eta s)
           (slope_x_eta s) (slope s) (fr s) (force_restart s) v (trace s).
Definition emit (e : event) (s : state) : state :=
  mk_state (free_energy s) (Hx s) (X s) (eta s) (Z_x s) (Z_eta s)
           (slope_x_eta s) (slope s) (fr s) (force_restart s) (info s)
           (trace s ++ [e]).

(** ** Statements: state passing with early exit

    A statement either falls through with a value or leaves the function
    ([return], [throw], undefined behaviour); in both cases the locals are
    the ones at that point. *)

Definition stmt (A : Type) : Type := state -> flow A * state.

Definition ret {A : Type} (a : A) : stmt A := fun s => (Next a, s).
Definition leave {A : Type} (e : exit) : stmt A := fun s => (Exit e, s).
Definition bind {A B : Type} (m : stmt A) (k : A -> stmt B) : stmt B :=
  fun s => match m s with
           | (Next a, s') => k a s'
           | (Exit e, s') => (Exit e, s')
           end.
Definition update (f : state -> state) : stmt unit := fun s => (Next tt, f s).
Definition read {A : Type} (f : state -> A) : stmt A := fun s => (Next (f s), s).

(** [try { body } catch (DescentError&) { handler }] *)
Definition try_catch_DescentError {A : Type} (body handler : stmt A) : stmt A :=
  fun s => match body s with
           | (Exit (Throw DescentError), s') => handler s'
           | r => r
           end.

End Driver.

Arguments state C : clear implicits.

Declare Scope stmt_scope.
Delimit Scope stmt_scope with stmt.
Notation "x <- m ;; k" := (bind m (fun x => k))
  (at level 61, m at next level, right associativity) : stmt_scope.
Notation "m ;; k" := (bind m (fun _ => k))
  (at level 61, right associativity) : stmt_scope.

(** ** Statements the two drivers share

    [nlcg] (lines 53-233) and [nlcg_us] (lines 282-480) are two copies of one
    loop; the statements that are the same text in both are defined once. *)

Section Shared.

Context {C : Collaborators}.
Local Open Scope stmt_scope.

(** [free_energy.compute()] (lines 70, 302, 490) and
    [free_energy.compute(X, fn)] (lines 101, 333, 507): the energy model the
    call leaves, and the call on the trace. *)
Definition traced_compute (fe : energy C) (tr : list event)
    : energy C * list event :=
  (compute C fe, (tr ++ [Compute])%list).

Definition traced_compute_X_fn (X0 : wfun C) (fn : occupations C)
    (fe : energy C) (tr : list event) : energy C * list event :=
  (compute_X_fn C X0 fn fe, (tr ++ [Compute])%list).

(** The locals that are set before the loop and only read inside it. *)
Record frame : Type := {
  tol : float;
  restart : Z;
  ls : line_search;
  wk : weights C;
  commk : communicator C;
  grad_eta : GradEta
}.

(** The locals of the [try] block that later statements read. *)
Record fresh : Type := {
  fni : occupations C;
  g_X : wfun C;
  g_eta : subsp C;
  delta_x : wfun C;
  delta_eta : subsp C
}.

(** [print_info] (lines 33-50): one progress record on the log, and the
    summary built from the same numbers. *)
Definition print_info (free_energy ks_energy entropy slope_x slope_eta : float)
    (step : Z) : stmt (C:=C) nlcg_info :=
  update (emit (Printed step free_energy slope_x slope_eta entropy ks_energy)) ;;
  ret (mk_info free_energy entropy (slope_x + slope_eta)%float step).

(** [info = print_info(free_energy.get_F(), free_energy.ks_energy(),
    free_energy.get_entropy(), std::get<0>(slope_x_eta),
    std::get<1>(slope_x_eta), i);] (lines 145, 220, 377, 455) *)
Definition report (i : Z) : stmt (C:=C) unit :=
  fe <- read free_energy ;;
  sxe <- read slope_x_eta ;;
  inf <- print_info (get_F C fe) (ks_energy C fe) (get_entropy C fe)
                    (fst sxe) (snd sxe) i ;;
  update (set_info inf).

(** [return info;] *)
Definition return_info {A : Type} : stmt (C:=C) A :=
  inf <- read info ;; leave (Return inf).

(** Lines 145-151 and 377-385: the branch taken on convergence. *)
Definition converged (i : Z) : stmt (C:=C) unit :=
  report i ;;
  update (emit (Log log_success)) ;;
  return_info.

(** The call [ls(G, free_energy, slope, force_restart)] (lines 156-160 and
    390-394), for the geodesic [G] of the variant.  The energy model and the
    flag are the ones the search leaves behind, also when it throws. *)
Definition search_along
    (G : state C -> energy C -> float ->
         (band_energies C * rotation C) * energy C)
    (fm : frame) (i : Z) : stmt (C:=C) (band_energies C * rotation C) :=
  fun s =>
    match ls_call C (ls fm) (G s) (free_energy s) (slope s) (force_restart s)
    with
    | (r, fe', flag') =>
        let s' := set_force_restart flag'
                    (set_free_energy fe' (emit (LineSearch i) s)) in
        match r with
        | inl ek_ul => (Next ek_ul, s')
        | inr e => (Exit (Throw e), s')
        end
    end.

(** [i % restart == 0 || force_restart] (lines 193, 210, 428, 445) *)
Definition restart_due (fm : frame) (i : Z) : stmt (C:=C) bool :=
  fun s =>
    match rem_is_0 i (restart fm) with
    | None => (Exit Undefined, s)
    | Some b => (Next (b || force_restart s), s)
    end.

(** [if (!(i % restart == 0 && !force_restart)) logger << "\t CG gamma = "
    << gamma] (lines 191, 426) *)
Definition log_gamma (fm : frame) (i : Z) (gamma : float) : stmt (C:=C) unit :=
  fun s =>
    match rem_is_0 i (restart fm) with
    | None => (Exit Undefined, s)
    | Some b =>
        if negb (b && negb (force_restart s))
        then (Next tt, emit (LogGamma gamma) s)
        else (Next tt, s)
    end.

(** Lines 181-204 and 416-439: transport the previous direction, test the
    conjugation scalar, and set the new direction.  [conj_x delta_x Z_Xp X
    gamma] is the call that recombines the X block: [conjugatex] in [nlcg],
    [conjugatex_us] with the S*X of the iteration in [nlcg_us].  [gamma] is
    the IEEE quotient; [quiet_div fr_new fr_old] says that the division
    (lines 189, 424) raises no armed exception. *)
Definition conjugate_with
    (conj_x : wfun C -> wfun C -> wfun C -> float -> wfun C)
    (fm : frame) (i : Z) (u : rotation C) (f : fresh) : stmt (C:=C) unit :=
  Z_x0 <- read Z_x ;;
  Z_eta0 <- read Z_eta ;;
  let Z_Xp := rotateX C Z_x0 u in
  let Z_etap := rotateEta C Z_eta0 u in
  let fr_new :=
    compute_slope_single C (g_X f) (delta_x f) (g_eta f) (delta_eta f)
                         (commk fm) in
  if gt0 fr_new then
    leave (Throw (runtime_error (msg_increasing ++ format_g5 C fr_new)))
  else
    fr_old <- read fr ;;
    let gamma := (fr_new / fr_old)%float in
    update (set_fr fr_new) ;;
    log_gamma fm i gamma ;;
    due <- restart_due fm i ;;
    if due : bool then
      update (emit (Log log_restart)) ;;
      update (set_Z (copy (delta_x f)) (copy (delta_eta f)))
    else
      X0 <- read X ;;
      update (set_Z (conj_x (delta_x f) Z_Xp X0 gamma)
                    (conjugateeta C (delta_eta f) Z_etap gamma)).

(** [slope_x_eta = compute_slope(g_X, Z_x, g_eta, Z_eta, commk);
     slope = std::get<0>(slope_x_eta) + std::get<1>(slope_x_eta);] *)
Definition update_slope (fm : frame) (f : fresh) : stmt (C:=C) unit :=
  update (fun s =>
    let sxe := compute_slope C (g_X f) (Z_x s) (g_eta f) (Z_eta s) (commk fm) in
    set_slope sxe (fst sxe + snd sxe)%float s).

(** Lines 206-218 and 441-453: the slope along the new direction, and what is
    done when it does not descend. *)
Definition descent_check (fm : frame) (i : Z) (f : fresh) : stmt (C:=C) unit :=
  update_slope fm f ;;
  sl <- read slope ;;
  if ge0 sl then
    due <- restart_due fm i ;;
    if due : bool then
      leave (Throw (runtime_error msg_no_descent))
    else
      update (emit (Log log_force)) ;;
      update (set_Z (copy (delta_x f)) (copy (delta_eta f))) ;;
      update_slope fm f
  else ret tt.

(** Lines 140-229 and 372-476: the body of the [for] loop at index [i], for
    the [try] block and the handler of the variant. *)
Definition iteration_with (try_block handler : stmt (C:=C) unit)
    (fm : frame) (i : Z) : stmt (C:=C) unit :=
  update (emit (LogIteration i)) ;;
  sl <- read slope ;;
  if abs_lt sl (tol fm) then converged i
  else try_catch_DescentError try_block handler.

(** [for (int i = 1; i < maxiter+1; ++i) body]: the body runs for
    i = 1, ..., maxiter, that is [Z.to_nat maxiter] times, unless it leaves. *)
Fixpoint loop (body : Z -> stmt (C:=C) unit) (n : nat) (i : Z)
    : stmt (C:=C) unit :=
  match n with
  | O => ret tt
  | Datatypes.S n' => body i ;; loop body n' (i + 1)
  end.

(** Lines 139-232 and 371-479: the loop and the final [return info;]. *)
Definition for_loop (body : Z -> stmt (C:=C) unit) (maxiter : Z)
    : stmt (C:=C) unit :=
  (if maxiter =? INT_MAX then leave Undefined
   else loop body (Z.to_nat maxiter) 1) ;;
  return_info.

(** What a statement that always leaves hands to the caller: how the call
    ends, the energy model and the trace. *)
Definition outcome (r : flow unit * state C) : exit * energy C * list event :=
  (match fst r with
   | Exit e => e
   | Next _ => Return (info (snd r))
   end,
   free_energy (snd r), trace (snd r)).

End Shared.

Arguments frame C : clear implicits.
Arguments fresh C : clear implicits.

(** ** The standard driver: [nlcg] (lines 53-233) *)

Section Nlcg.

Context {C : Collaborators}.
Local Open Scope stmt_scope.

(** The closure handed to the line search (line 157). *)
Definition G_nlcg (s : state C) (ef : energy C) (t : float)
    : (band_energies C * rotation C) * energy C :=
  geodesic C ef (X s) (eta s) (Z_x s) (Z_eta s) t.

Definition search : frame C -> Z -> stmt (band_energies C * rotation C) :=
  search_along G_nlcg.

(** Lines 166-179: refetch the fields at the accepted point and recompute
    gradients and steepest directions. *)
Definition refresh (fm : frame C) (Prec : PreconditionerTeter C) (i : Z)
    (ek : band_energies C) : stmt (C:=C) (fresh C) :=
  fun s =>
    let fe := free_energy s in
    let Hx' := get_HX C fe in
    let X' := copy (get_X C fe) in
    let fni := get_fn C fe in
    let eta' := make_diag C ek in
    let Hij := inner_ C X' Hx' (wk fm) in
    let g_eta := g_eta_of C (grad_eta fm) Hij (wk fm) ek fni (occupancy C fe) in
    let delta_eta := delta_eta_of C (grad_eta fm) Hij ek (wk fm) in
    let Xll := lagrange_multipliers C X' X' Hx' Prec in
    let g_X := gradX C X' Hx' fni Xll (wk fm) in
    let delta_x := precondGradX C X' Hx' Prec Xll in
    (Next {| fni := fni; g_X := g_X; g_eta := g_eta;
             delta_x := delta_x; delta_eta := delta_eta |},
     emit (Gradients i) (set_fields Hx' X' eta' s)).

Definition conjugate : frame C -> Z -> rotation C -> fresh C -> stmt unit :=
  conjugate_with (conjugatex C).

(** Lines 156-225: the body of the [try] block. *)
Definition try_body (fm : frame C) (Prec : PreconditionerTeter C) (i : Z)
    : stmt (C:=C) unit :=
  ek_ul <- search fm i ;;
  f <- refresh fm Prec i (fst ek_ul) ;;
  conjugate fm i (snd ek_ul) f ;;
  descent_check fm i f ;;
  report i.

(** Lines 226-229: the handler. *)
Definition on_DescentError : stmt (C:=C) unit :=
  update (emit (Log log_warning)) ;;
  return_info.

Definition iteration (fm : frame C) (Prec : PreconditionerTeter C) (i : Z)
    : stmt (C:=C) unit :=
  iteration_with (try_body fm Prec i) on_DescentError fm i.

(** Lines 58-138 without the test of line 126: the values of the locals when
    the loop is entered, and the two [compute] calls on the trace.  ([fr] is
    declared after the test; its initializer only reads values computed
    before it.) *)
Definition nlcg_init (memspace xspace : space) (energy_base : energy C)
    (smear : smearing_type) (T tol kappa tau : float) (restart : Z)
    : frame C * PreconditionerTeter C * state C :=
  let info := default_info C in
  let free_energy := FreeEnergy C memspace xspace T energy_base smear in
  let computed := traced_compute free_energy [] in
  let free_energy := fst computed in
  let ek := get_ek C free_energy in
  let wk := get_wk C free_energy in
  let commk := wk_commk C wk in
  let smearing := get_smearing C free_energy in
  let fn := smearing_fn C smearing ek in
  let X0 := get_X C free_energy in
  let computed := traced_compute_X_fn X0 fn free_energy (snd computed) in
  let free_energy := fst computed in
  let Hx := get_HX C free_energy in
  let X := copy (get_X C free_energy) in
  let Prec := mkPreconditionerTeter C (get_gkvec_ekin C free_energy) in
  let grad_eta := {| ge_T := T; ge_kappa := kappa |} in
  let eta := make_diag C ek in
  let Hij := inner_ C X Hx wk in
  let g_eta := g_eta_of C grad_eta Hij wk ek fn (occupancy C free_energy) in
  let delta_eta := delta_eta_of C grad_eta Hij ek wk in
  let Xll := lagrange_multipliers C X X Hx Prec in
  let g_X := gradX C X Hx fn Xll wk in
  let delta_x := precondGradX C X Hx Prec Xll in
  let Z_x := copy delta_x in
  let Z_eta := copy delta_eta in
  let slope_x_eta := compute_slope C g_X Z_x g_eta Z_eta commk in
  let slope := (fst slope_x_eta + snd slope_x_eta)%float in
  let fr := compute_slope_single C g_X delta_x g_eta delta_eta commk in
  let ls := {| t_trial := 0x1.999999999999ap-3; tau := tau |} in
  let force_restart := false in
  ({| tol := tol; restart := restart; ls := ls; wk := wk; commk := commk;
      grad_eta := grad_eta |},
   Prec,
   mk_state free_energy Hx X eta Z_x Z_eta slope_x_eta slope fr force_restart
            info (snd computed)).

(** [nlcg<memspace, xspace>(energy_base, smear, T, maxiter, tol, kappa, tau,
    restart)]: how the call ends, the energy model and the trace it leaves. *)
Definition nlcg (memspace xspace : space) (energy_base : energy C)
    (smear : smearing_type) (T : float) (maxiter : Z) (tol kappa tau : float)
    (restart : Z) : exit * energy C * list event :=
  let '(fm, Prec, s0) :=
    nlcg_init memspace xspace energy_base smear T tol kappa tau restart in
  if ge0 (slope s0) then
    (Throw (runtime_error msg_ascending), free_energy s0, trace s0)
  else outcome (for_loop (iteration fm Prec) maxiter s0).

End Nlcg.

(** ** The ultrasoft driver: [nlcg_us] (lines 282-480) *)

Section NlcgUs.

Context {C : Collaborators}.
Local Open Scope stmt_scope.

(** The closure handed to the line search (line 391). *)
Definition G_us (S_ : Overlap C) (s : state C) (ef : energy C) (t : float)
    : (band_energies C * rotation C) * energy C :=
  geodesic_us C ef (X s) (eta s) (Z_x s) (Z_eta s) S_ t.

Definition search_us (S_ : Overlap C)
    : frame C -> Z -> stmt (band_energies C * rotation C) :=
  search_along (G_us S_).

(** Lines 399-414; the S*X of the iteration is returned next to the
    gradients. *)
Definition refresh_us (fm : frame C) (S_ : Overlap C) (P : USPreconditioner C)
    (i : Z) (ek : band_energies C) : stmt (C:=C) (fresh C * wfun C) :=
  fun s =>
    let fe := free_energy s in
    let Hx' := get_HX C fe in
    let X' := copy (get_X C fe) in
    let fni := get_fn C fe in
    let eta' := make_diag C ek in
    let Hij := inner_ C X' Hx' (wk fm) in
    let g_eta := g_eta_of C (grad_eta fm) Hij (wk fm) ek fni (occupancy C fe) in
    let delta_eta := delta_eta_of C (grad_eta fm) Hij ek (wk fm) in
    let SX := tapply_op C S_ X' in
    let Xll := lagrange_multipliers_us C X' SX Hx' P in
    let g_X := gradX C SX Hx' fni Xll (wk fm) in
    let delta_x := precondGradX_us C SX Hx' P Xll in
    (Next ({| fni := fni; g_X := g_X; g_eta := g_eta;
              delta_x := delta_x; delta_eta := delta_eta |}, SX),
     emit (Gradients i) (set_fields Hx' X' eta' s)).

Definition conjugate_us (SX : wfun C)
    : frame C -> Z -> rotation C -> fresh C -> stmt unit :=
  conjugate_with (fun delta_x Z_Xp X gamma =>
                    conjugatex_us C delta_x Z_Xp X SX gamma).

(** Lines 390-460: the body of the [try] block. *)
Definition try_body_us (fm : frame C) (S_ : Overlap C) (P : USPreconditioner C)
    (i : Z) : stmt (C:=C) unit :=
  ek_ul <- search_us S_ fm i ;;
  f_SX <- refresh_us fm S_ P i (fst ek_ul) ;;
  conjugate_us (snd f_SX) fm i (snd ek_ul) (fst f_SX) ;;
  descent_check fm i (fst f_SX) ;;
  report i.

(** [Ft(t)] (lines 463-465, 468): the energy model is moved along Z_x alone. *)
Definition Ft (S_ : Overlap C) (t : float) : stmt (C:=C) unit :=
  update (fun s =>
    let r := geodesic_us C (free_energy s) (X s) (eta s) (Z_x s)
                         (zeros_like C (Z_eta s)) S_ t in
    set_free_energy (snd r) (emit (Geodesic t) s)).

(** [for (double t : linspace(0, 0.5, 10)) { Ft(t); ... }] *)
Fixpoint scan (S_ : Overlap C) (ts : list float) : stmt (C:=C) unit :=
  match ts with
  | [] => ret tt
  | t :: ts' => Ft S_ t ;; scan S_ ts'
  end.

(** Lines 461-476: the handler. *)
Definition on_DescentError_us (S_ : Overlap C) : stmt (C:=C) unit :=
  update (emit (Log log_bt_failed)) ;;
  scan S_ (linspace C 0 0x1p-1 10) ;;
  update (emit (Log log_warning)) ;;
  return_info.

Definition iteration_us (fm : frame C) (S_ : Overlap C)
    (P : USPreconditioner C) (i : Z) : stmt (C:=C) unit :=
  iteration_with (try_body_us fm S_ P i) (on_DescentError_us S_) fm i.

(** Lines 287-370 without the test of line 358. *)
Definition nlcg_us_init (memspace xspace : space) (energy_base : energy C)
    (us_precond_base : UltrasoftPrecondBase C) (overlap_base : OverlapBase C)
    (smear : smearing_type) (T tol kappa tau : float) (restart : Z)
    : frame C * Overlap C * USPreconditioner C * state C :=
  let info := default_info C in
  let S_ := mkOverlap C overlap_base in
  let P := mkUSPreconditioner C us_precond_base in
  let free_energy := FreeEnergy C memspace xspace T energy_base smear in
  let computed := traced_compute free_energy [] in
  let free_energy := fst computed in
  let ek := get_ek C free_energy in
  let wk := get_wk C free_energy in
  let commk := wk_commk C wk in
  let smearing := get_smearing C free_energy in
  let fn := smearing_fn C smearing ek in
  let X0 := get_X C free_energy in
  let computed := traced_compute_X_fn X0 fn free_energy (snd computed) in
  let free_energy := fst computed in
  let Hx := get_HX C free_energy in
  let X := copy (get_X C free_energy) in
  let grad_eta := {| ge_T := T; ge_kappa := kappa |} in
  let eta := make_diag C ek in
  let Hij := inner_ C X Hx wk in
  let g_eta := g_eta_of C grad_eta Hij wk ek fn (occupancy C free_energy) in
  let delta_eta := delta_eta_of C grad_eta Hij ek wk in
  let SX := tapply_op C S_ X in
  let Xll := lagrange_multipliers_us C X SX Hx P in
  let g_X := gradX C SX Hx fn Xll wk in
  let delta_x := precondGradX_us C SX Hx P Xll in
  let Z_x := copy delta_x in
  let Z_eta := copy delta_eta in
  let slope_x_eta := compute_slope C g_X Z_x g_eta Z_eta commk in
  let slope := (fst slope_x_eta + snd slope_x_eta)%float in
  let fr := compute_slope_single C g_X delta_x g_eta delta_eta commk in
  let ls := {| t_trial := 0x1.999999999999ap-3; tau := tau |} in
  let force_restart := false in
  ({| tol := tol; restart := restart; ls := ls; wk := wk; commk := commk;
      grad_eta := grad_eta |},
   S_, P,
   mk_state free_energy Hx X eta Z_x Z_eta slope_x_eta slope fr force_restart
            info (snd computed)).

Definition nlcg_us (memspace xspace : space) (energy_base : energy C)
    (us_precond_base : UltrasoftPrecondBase C) (overlap_base : OverlapBase C)
    (smear : smearing_type) (T : float) (maxiter : Z) (tol kappa tau : float)
    (restart : Z) : exit * energy C * list event :=
  let '(fm, S_, P, s0) :=
    nlcg_us_init memspace xspace energy_base us_precond_base overlap_base
                 smear T tol kappa tau restart in
  if ge0 (slope s0) then
    (Throw (runtime_error msg_ascending), free_energy s0, trace s0)
  else outcome (for_loop (iteration_us fm S_ P) maxiter s0).

End NlcgUs.

(** ** The exported entry points (lines 592-765) *)

Section EntryPoints.

Context {C : Collaborators}.

(** Whether the library is compiled with [__NLCGLIB__CUDA] defined. *)
Variable NLCGLIB_CUDA : bool.

(** [Kokkos::initialize(); auto info = run; Kokkos::finalize(); return info;]:
    an exception of [run] leaves before [finalize]. *)
Definition in_kokkos (run : exit * energy C * list event)
    : exit * energy C * list event :=
  match run with
  | (Return info, e, tr) =>
      (Return info, e, KokkosInitialize :: tr ++ [KokkosFinalize])
  | (x, e, tr) => (x, e, KokkosInitialize :: tr)
  end.

(** [#ifdef __NLCGLIB__CUDA ... #else throw std::runtime_error(...) #endif] *)
Definition ifdef_cuda (energy_base : energy C)
    (run : exit * energy C * list event) : exit * energy C * list event :=
  if NLCGLIB_CUDA then in_kokkos run
  else (Throw (runtime_error msg_cuda), energy_base, []).

Definition nlcg_mvp2_cpu (energy_base : energy C) (smearing : smearing_type)
    (temp tol kappa tau : float) (maxiter restart : Z) :=
  in_kokkos (nlcg HostSpace HostSpace energy_base smearing temp maxiter tol
                  kappa tau restart).

Definition nlcg_mvp2_device (energy_base : energy C) (smearing : smearing_type)
    (temp tol kappa tau : float) (maxiter restart : Z) :=
  ifdef_cuda energy_base
    (nlcg CudaSpace CudaSpace energy_base smearing temp maxiter tol kappa tau
          restart).

Definition nlcg_mvp2_device_cpu (energy_base : energy C)
    (smearing : smearing_type) (temp tol kappa tau : float)
    (maxiter restart : Z) :=
  ifdef_cuda energy_base
    (nlcg CudaSpace HostSpace energy_base smearing temp maxiter tol kappa tau
          restart).

Definition nlcg_mvp2_cpu_device (energy_base : energy C)
    (smearing : smearing_type) (temp tol kappa tau : float)
    (maxiter restart : Z) :=
  ifdef_cuda energy_base
    (nlcg HostSpace CudaSpace energy_base smearing temp maxiter tol kappa tau
          restart).

Definition nlcg_us_device (energy_base : energy C)
    (us_precond_base : UltrasoftPrecondBase C) (overlap_base : OverlapBase C)
    (smear : smearing_type) (T tol kappa tau : float) (maxiter restart : Z) :=
  ifdef_cuda energy_base
    (nlcg_us CudaSpace CudaSpace energy_base us_precond_base overlap_base smear
             T maxiter tol kappa tau restart).

Definition nlcg_us_cpu (energy_base : energy C)
    (us_precond_base : UltrasoftPrecondBase C) (overlap_base : OverlapBase C)
    (smear : smearing_type) (T tol kappa tau : float) (maxiter restart : Z) :=
  in_kokkos
    (nlcg_us HostSpace HostSpace energy_base us_precond_base overlap_base smear
             T maxiter tol kappa tau restart).

Definition nlcg_us_device_cpu (energy_base : energy C)
    (us_precond_base : UltrasoftPrecondBase C) (overlap_base : OverlapBase C)
    (smearing : smearing_type) (temp tol kappa tau : float)
    (maxiter restart : Z) :=
  ifdef_cuda energy_base
    (nlcg_us CudaSpace HostSpace energy_base us_precond_base overlap_base
             smearing temp maxiter tol kappa tau restart).

Definition nlcg_us_cpu_device (energy_base : energy C)
    (us_precond_base : UltrasoftPrecondBase C) (overlap_base : OverlapBase C)
    (smearing : smearing_type) (temp tol kappa tau : float)
    (maxiter restart : Z) :=
  ifdef_cuda energy_base
    (nlcg_us HostSpace CudaSpace energy_base us_precond_base overlap_base
             smearing temp maxiter tol kappa tau restart).

End EntryPoints.

(** ** Runs of the loop *)

Section Runs.

Context {C : Collaborators}.

(** The conjugation scalar of the iteration (lines 185 and 420). *)
Definition fr_new_of (fm : frame C) (f : fresh C) : float :=
  compute_slope_single C (g_X f) (delta_x f) (g_eta f) (delta_eta f) (commk fm).

(** The slope pair along a direction (lines 206, 216, 441, 451). *)
Definition slope_along (fm : frame C) (f : fresh C) (zx : wfun C)
    (ze : subsp C) : float * float :=
  compute_slope C (g_X f) zx (g_eta f) ze (commk fm).

(** Computing the slope along a direction (the sum of lines 207, 217, 442,
    452, and the test [slope >= 0] that follows) raises no armed
    floating-point exception. *)
Definition quiet_slope (fm : frame C) (f : fresh C) (zx : wfun C)
    (ze : subsp C) : bool :=
  let sxe := slope_along fm f zx ze in
  quiet_add (fst sxe) (snd sxe) && ordered (fst sxe + snd sxe) 0.

(** The loop started with locals [s0] gets to the top of iteration [i] with
    locals [s]: the iterations 1, ..., i-1 have all fallen through. *)
Definition reaches (body : Z -> stmt (C:=C) unit) (maxiter : Z) (s0 : state C)
    (i : Z) (s : state C) : Prop :=
  1 <= i <= maxiter /\ maxiter < INT_MAX /\
  loop body (Z.to_nat (i - 1)) 1 s0 = (Next tt, s).

(** The summary [print_info] builds at step [i] from the locals [s]. *)
Definition summary_of (i : Z) (s : state C) : nlcg_info :=
  mk_info (get_F C (free_energy s)) (get_entropy C (free_energy s))
          (fst (slope_x_eta s) + snd (slope_x_eta s))%float i.

(** The progress record [print_info] writes at step [i] from the locals [s]. *)
Definition printed_of (i : Z) (s : state C) : event :=
  Printed i (get_F C (free_energy s)) (fst (slope_x_eta s))
          (snd (slope_x_eta s)) (get_entropy C (free_energy s))
          (ks_energy C (free_energy s)).

(** The line of the log that carries gamma (lines 191 and 426). *)
Definition gamma_line (periodic flag : bool) (gamma : float) : list event :=
  if negb (periodic && negb flag) then [LogGamma gamma] else [].

(** The indices of the iterations a trace records, in order. *)
Fixpoint iterations_of (tr : list event) : list Z :=
  match tr with
  | [] => []
  | LogIteration i :: tr' => i :: iterations_of tr'
  | _ :: tr' => iterations_of tr'
  end.

(** A statement that writes no "Iteration" line: whatever it appends to the
    trace records no iteration. *)
Definition quiet {A : Type} (m : stmt (C:=C) A) : Prop :=
  forall s r s', m s = (r, s') ->
    exists l, trace s' = (trace s ++ l)%list /\ iterations_of l = [].

End Runs.

(** ** A scripted energy model

    A one-dimensional instance of the collaborators on which the drivers can
    be run: the energy model holds the pair (gradient, steepest direction) of
    the current point and the script of the points the next geodesic moves
    will find ([None]: a move that is not accepted); it also notes the flag
    every line search is called with. *)

Module Toy.

Record model : Type := {
  point : float * float;
  ok : bool;
  script : list (option (float * float));
  flags_seen : list bool      (* the flag each line search was called with *)
}.

Definition move (e : model) : model :=
  match script e with
  | Some p :: rest =>
      {| point := p; ok := true; script := rest; flags_seen := flags_seen e |}
  | None :: rest =>
      {| point := point e; ok := false; script := rest;
         flags_seen := flags_seen e |}
  | [] =>
      {| point := point e; ok := false; script := [];
         flags_seen := flags_seen e |}
  end.

Definition saw (flag : bool) (e : model) : model :=
  {| point := point e; ok := ok e; script := script e;
     flags_seen := flags_seen e ++ [flag] |}.

Fixpoint float_of_nat (n : nat) : float :=
  match n with
  | O => 0%float
  | Datatypes.S m => (float_of_nat m + 1)%float
  end.

Definition evenly_spaced (a b : float) (n : Z) : list float :=
  let N := Z.to_nat n in
  map (fun k => (a + float_of_nat k * ((b - a) / float_of_nat (N - 1)))%float)
      (seq 0 N).

(** One trial step: the move is accepted or the search gives up; the flag is
    taken by value. *)
Definition one_trial (l : line_search)
    (G : model -> float -> (float * unit) * model) (e : model) (slope : float)
    (flag : bool) : ((float * unit) + exception) * model * bool :=
  let r := G (saw flag e) (t_trial l) in
  if ok (snd r) then (inl (fst r), snd r, flag)
  else (inr DescentError, snd r, flag).

Definition collaborators : Collaborators := {|
  energy := model;
  wfun := float;
  subsp := float;
  band_energies := float;
  occupations := Z;
  rotation := unit;
  weights := unit;
  communicator := unit;
  Smearing := unit;
  gkvec_ekin := unit;
  PreconditionerTeter := unit;
  OverlapBase := unit;
  UltrasoftPrecondBase := unit;
  Overlap := unit;
  USPreconditioner := unit;
  default_info := mk_info 0 0 0 0;
  FreeEnergy := fun _ _ _ e _ => e;
  compute := fun e => e;
  compute_X_fn := fun _ _ e => e;
  get_F := fun e => (fst (point e) * fst (point e))%float;
  ks_energy := fun e => (fst (point e) * fst (point e))%float;
  get_entropy := fun _ => 0%float;
  get_ek := fun _ => 0%float;
  get_fn := fun _ => 1;
  get_wk := fun _ => tt;
  wk_commk := fun _ => tt;
  get_smearing := fun _ => tt;
  get_X := fun e => fst (point e);
  get_HX := fun e => snd (point e);
  get_gkvec_ekin := fun _ => tt;
  occupancy := fun _ => 1%float;
  smearing_fn := fun _ _ => 2;
  mkPreconditionerTeter := fun _ => tt;
  mkOverlap := fun _ => tt;
  mkUSPreconditioner := fun _ => tt;
  tapply_op := fun _ x => x;
  make_diag := fun ek => ek;
  inner_ := fun _ _ _ => 0%float;
  zeros_like := fun _ => 0%float;
  linspace := evenly_spaced;
  g_eta_of := fun _ _ _ _ _ _ => 0%float;
  delta_eta_of := fun _ _ _ _ => 0%float;
  lagrange_multipliers := fun _ _ _ _ => 0%float;
  lagrange_multipliers_us := fun _ _ _ _ => 0%float;
  gradX := fun x _ _ _ _ => x;
  precondGradX := fun _ hx _ _ => hx;
  precondGradX_us := fun _ hx _ _ => hx;
  compute_slope := fun g z ge ze _ => ((g * z)%float, (ge * ze)%float);
  compute_slope_single := fun g d ge de _ => (g * d + ge * de)%float;
  rotateX := fun z _ => z;
  rotateEta := fun z _ => z;
  conjugatex := fun d zp _ gamma => (d + gamma * zp)%float;
  conjugatex_us := fun d zp _ _ gamma => (d + gamma * zp)%float;
  conjugateeta := fun d zp gamma => (d + gamma * zp)%float;
  geodesic := fun e _ _ _ _ _ => ((0%float, tt), move e);
  geodesic_us := fun e _ _ _ _ _ _ => ((0%float, tt), move e);
  ls_call := one_trial;
  format_g5 := fun _ => "?"
|}.

(** The energy model at a point with gradient [g] and steepest direction [d],
    and the points still to come. *)
Definition start (g d : float) (sc : list (option (float * float))) : model :=
  {| point := (g, d); ok := true; script := sc; flags_seen := [] |}.

(** What the refetch finds at a point with gradient [g] and steepest
    direction [d]. *)
Definition found (g d : float) : fresh collaborators :=
  Build_fresh (C:=collaborators) 1 g 0%float d 0%float.

(** [nlcg] and [nlcg_us] on the scripted model, with restart period 5 and
    tolerance 2^-20. *)
Definition run (e : model) (maxiter : Z) : exit * model * list event :=
  nlcg (C:=collaborators) HostSpace HostSpace e FERMI_DIRAC 1 maxiter
       0x1p-20 1 0x1p-1 5.

Definition run_us (e : model) (maxiter : Z) : exit * model * list event :=
  nlcg_us (C:=collaborators) HostSpace HostSpace e tt tt FERMI_DIRAC 1 maxiter
          0x1p-20 1 0x1p-1 5.

(** The locals at loop entry for the same arguments. *)
Definition entry (e : model) : frame collaborators * state collaborators :=
  let r := nlcg_init (C:=collaborators) HostSpace HostSpace e FERMI_DIRAC 1
                     0x1p-20 1 0x1p-1 5 in
  (fst (fst r), snd r).

End Toy.

(** ** The gradient check: [nlcg_check_gradient] (lines 483-568)

    The check prints what it finds; its result here is what it prints about
    the slope: the slope along the steepest direction, the free energy at
    t = 0 and one difference quotient for each step.  The norms it prints on
    the way are left out. *)

Section GradientCheck.

Context {C : Collaborators}.

Record gradient_report : Type := {
  checked_slope : float;                       (* "slope (all): " *)
  checked_F0 : float;                          (* "F0: " *)
  checked_quotients : list (float * float)     (* dt, "slope (fd) = " *)
}.

(** [{1e-5, 1e-6, 1e-7}] *)
Definition check_steps : list float :=
  [0x1.4f8b588e368f1p-17; 0x1.0c6f7a0b5ed8dp-20; 0x1.ad7f29abcaf48p-24]%float.

(** [geodesic(free_energy, X_new, eta, delta_x, delta_eta, t)] (lines 555
    and 561): the energy model the call leaves, and the call on the trace. *)
Definition traced_geodesic (G : energy C -> float -> energy C) (t : float)
    (fe : energy C) (tr : list event) : energy C * list event :=
  (G fe t, (tr ++ [Geodesic t])%list).

(** Lines 559-567: for each step the energy model is moved to the point at
    [dt] and the quotient (F1 - F0) / dt is printed. *)
Fixpoint check_scan (G : energy C -> float -> energy C) (F0 : float)
    (dts : list float) (free_energy : energy C) (tr : list event)
    : list (float * float) * energy C * list event :=
  match dts with
  | [] => ([], free_energy, tr)
  | dt :: rest =>
      let moved := traced_geodesic G dt free_energy tr in
      let free_energy := fst moved in
      let F1 := get_F C free_energy in
      let dFdt := ((F1 - F0) / dt)%float in
      let '(q, e, tr') := check_scan G F0 rest free_energy (snd moved) in
      ((dt, dFdt) :: q, e, tr')
  end.

(** [nlcg_check_gradient<memspace>(energy_base)]; the second template
    argument of [FreeEnergy] is left to its default, taken to be
    [memspace]. *)
Definition nlcg_check_gradient (memspace : space) (energy_base : energy C)
    : gradient_report * energy C * list event :=
  let T := 0x1.2cp+8%float in
  let kappa := 1%float in
  let free_energy := FreeEnergy C memspace memspace T energy_base FERMI_DIRAC in
  let computed := traced_compute free_energy [] in
  let free_energy := fst computed in
  let X := get_X C free_energy in
  let ek := get_ek C free_energy in
  let wk := get_wk C free_energy in
  let commk := wk_commk C wk in
  let smearing := get_smearing C free_energy in
  let fn := smearing_fn C smearing ek in
  let computed := traced_compute_X_fn X fn free_energy (snd computed) in
  let free_energy := fst computed in
  let X := get_X C free_energy in
  let Hx := get_HX C free_energy in
  let Prec := mkPreconditionerTeter C (get_gkvec_ekin C free_energy) in
  let grad_eta := {| ge_T := T; ge_kappa := kappa |} in
  let Hij := inner_ C X Hx wk in
  let Xll := lagrange_multipliers C X X Hx Prec in
  let g_X := gradX C X Hx fn Xll wk in
  let delta_x := precondGradX C X Hx Prec Xll in
  let X_new := copy (get_X C free_energy) in
  let eta := make_diag C ek in
  let delta_eta := delta_eta_of C grad_eta Hij ek wk in
  let g_eta := g_eta_of C grad_eta Hij wk ek fn (occupancy C free_energy) in
  let slope_x_eta := compute_slope C g_X delta_x g_eta delta_eta commk in
  let slope := (fst slope_x_eta + snd slope_x_eta)%float in
  let G := fun ef t => snd (geodesic C ef X_new eta delta_x delta_eta t) in
  let moved := traced_geodesic G 0%float free_energy (snd computed) in
  let free_energy := fst moved in
  let F0 := get_F C free_energy in
  let '(q, free_energy, tr) :=
    check_scan G F0 check_steps free_energy (snd moved) in
  ({| checked_slope := slope; checked_F0 := F0; checked_quotients := q |},
   free_energy, tr).

End GradientCheck.

(** ** Notions for the properties of whole runs *)

Section RunNotions.

Context {C : Collaborators}.

(** The events of the set-up: Kokkos and the [compute] calls. *)
Definition is_setup (e : event) : bool :=
  match e with
  | KokkosInitialize | KokkosFinalize | Compute => true
  | _ => false
  end.

(** What [report i] leaves of the locals [s]. *)
Definition reported (i : Z) (s : state C) : state C :=
  set_info (summary_of i s) (emit (printed_of i s) s).

(** The locals after the line search of iteration [i] has left the energy
    model [fe'] and the flag [flag']. *)
Definition searched (i : Z) (fe' : energy C) (flag' : bool) (s : state C)
    : state C :=
  set_force_restart flag' (set_free_energy fe' (emit (LineSearch i) s)).

(** The locals after the refetch of iteration [i] with band energies [ek]. *)
Definition refetched (i : Z) (ek : band_energies C) (s : state C) : state C :=
  emit (Gradients i)
       (set_fields (get_HX C (free_energy s)) (get_X C (free_energy s))
                   (make_diag C ek) s).

(** The rest of the [try] block after the refetch (lines 181-225 and
    416-460): update of the direction, slope check, report. *)
Definition after_refetch
    (conj_x : wfun C -> wfun C -> wfun C -> float -> wfun C)
    (fm : frame C) (i : Z) (u : rotation C) (f : fresh C) : stmt (C:=C) unit :=
  bind (conjugate_with conj_x fm i u f)
       (fun _ => bind (descent_check fm i f) (fun _ => report i)).

(** The frame with the restart period negated. *)
Definition negate_restart (fm : frame C) : frame C :=
  {| tol := tol fm; restart := - restart fm; ls := ls fm; wk := wk fm;
     commk := commk fm; grad_eta := grad_eta fm |}.

(** The steepest pair at the point the locals hold, as the refetch of
    [nlcg] computes it from the band energies [ek]. *)
Definition steepest_x (Prec : PreconditionerTeter C) (s : state C) : wfun C :=
  precondGradX C (X s) (Hx s) Prec
               (lagrange_multipliers C (X s) (X s) (Hx s) Prec).

Definition steepest_eta (fm : frame C) (ek : band_energies C) (s : state C)
    : subsp C :=
  delta_eta_of C (grad_eta fm) (inner_ C (X s) (Hx s) (wk fm)) ek (wk fm).

(** The same for [nlcg_us]. *)
Definition steepest_x_us (S_ : Overlap C) (P : USPreconditioner C)
    (s : state C) : wfun C :=
  let SX := tapply_op C S_ (X s) in
  precondGradX_us C SX (Hx s) P (lagrange_multipliers_us C (X s) SX (Hx s) P).

End RunNotions.

(** * Properties *)

(** ** Runs of the scripted model *)

(** Two accepted points and maxiter = 2.  Iteration 1 recombines with
    gamma = 2 to a direction of slope 2 and falls back to the steepest
    direction; iteration 2 recombines with gamma = 1/8. *)
Example run_two_iterations :
  Toy.run (Toy.start 1 (-1) [Some (-2, 1); Some (0x1p-1, -0x1p-1)]%float) 2 =
    (Return (mk_info 0x1p-2 0 (-0x1.8p-3) 2),
     {| Toy.point := (0x1p-1, -0x1p-1)%float; Toy.ok := true;
        Toy.script := []; Toy.flags_seen := [false; false] |},
     [Compute; Compute;
      LogIteration 1; LineSearch 1; Gradients 1; LogGamma 2; Log log_force;
      Printed 1 4 (-2) 0 0 4;
      LogIteration 2; LineSearch 2; Gradients 2; LogGamma 0x1p-3;
      Printed 2 0x1p-2 (-0x1.8p-3) 0 0 0x1p-2]).
Proof. vm_compute. reflexivity. Qed.

(** Iteration 5 is a periodic restart: no gamma line, "CG restart". *)
Example run_periodic_restart :
  let p := Some (-0x1p-1, 0x1p-1)%float in
  let q := Some (0x1p-1, -0x1p-1)%float in
  filter (fun e => match e with
                   | Log _ | LogIteration _ => true
                   | _ => false
                   end)
         (snd (Toy.run (Toy.start 1 (-1) [p; q; p; q; p]) 5)) =
    [LogIteration 1; LogIteration 2; LogIteration 3; LogIteration 4;
     LogIteration 5; Log log_restart].
Proof. vm_compute. reflexivity. Qed.

(** [nlcg_us] when the second line search gives up: the handler scans the
    ten points of linspace(0, 0.5, 10) and returns the summary of
    iteration 1. *)
Example run_us_gives_up :
  let r := Toy.run_us (Toy.start 1 (-1) [Some (-0x1p-1, 0x1p-1); None]%float) 10 in
  fst (fst r) = Return (mk_info 0x1p-2 0 (-0x1p-3) 1) /\
  map (fun e => match e with Geodesic _ => 1 | _ => 0 end) (snd r) =
    [0; 0; 0; 0; 0; 0; 0; 0; 0; 0; 1; 1; 1; 1; 1; 1; 1; 1; 1; 1; 0].
Proof. split; vm_compute; reflexivity. Qed.

(** ** Statements and loops *)

Ltac unfold_stmt :=
  cbv [bind ret leave update read return_info report print_info converged].

Section LoopFacts.

Context {C : Collaborators}.
Implicit Types (body : Z -> stmt (C:=C) unit) (s : state C).

Lemma bind_next {A B : Type} (m : stmt (C:=C) A) (k : A -> stmt B) s a s' :
  m s = (Next a, s') -> bind m k s = k a s'.
Proof. intros H. unfold bind. now rewrite H. Qed.

Lemma bind_exit {A B : Type} (m : stmt (C:=C) A) (k : A -> stmt B) s e s' :
  m s = (Exit e, s') -> bind m k s = (Exit e, s').
Proof. intros H. unfold bind. now rewrite H. Qed.

Lemma loop_exit_now body n i s e s' :
  body i s = (Exit e, s') -> loop body (Datatypes.S n) i s = (Exit e, s').
Proof. intros H. cbn [loop]. now apply bind_exit. Qed.

(** [n] iterations that fall through, then [m] more. *)
Lemma loop_add body n : forall m i s s',
  loop body n i s = (Next tt, s') ->
  loop body (n + m) i s = loop body m (i + Z.of_nat n) s'.
Proof.
  induction n as [|n IH]; intros m i s s' H.
  - cbn in H. injection H as <-. cbn [Nat.add Z.of_nat]. now rewrite Z.add_0_r.
  - cbn [loop Nat.add] in *. unfold bind in *.
    destruct (body i s) as [[[]|e] s1]; [|discriminate].
    rewrite (IH m (i + 1) s1 s' H). f_equal. lia.
Qed.

(** An iteration that leaves ends the loop and skips the final [return]. *)
Lemma for_loop_exit body maxiter s0 i s e s' :
  reaches body maxiter s0 i s ->
  body i s = (Exit e, s') ->
  for_loop body maxiter s0 = (Exit e, s').
Proof.
  intros (Hi & Hm & Hrun) Hbody. unfold for_loop.
  replace (maxiter =? INT_MAX) with false by (symmetry; apply Z.eqb_neq; lia).
  apply bind_exit.
  replace (Z.to_nat maxiter)
    with (Z.to_nat (i - 1) + Datatypes.S (Z.to_nat (maxiter - i)))%nat by lia.
  rewrite (loop_add _ _ _ _ _ _ Hrun).
  apply loop_exit_now.
  replace (1 + Z.of_nat (Z.to_nat (i - 1))) with i by lia. exact Hbody.
Qed.

(** When every iteration falls through, the loop ends in [return info;]. *)
Lemma for_loop_exhausted body maxiter s0 s :
  maxiter < INT_MAX ->
  loop body (Z.to_nat maxiter) 1 s0 = (Next tt, s) ->
  for_loop body maxiter s0 = (Exit (Return (info s)), s).
Proof.
  intros Hm Hrun. unfold for_loop.
  replace (maxiter =? INT_MAX) with false by (symmetry; apply Z.eqb_neq; lia).
  rewrite (bind_next _ _ _ _ _ Hrun). reflexivity.
Qed.

Lemma reaches_first body maxiter s0 :
  1 <= maxiter < INT_MAX -> reaches body maxiter s0 1 s0.
Proof. intros H. repeat split; try lia. Qed.

Lemma reaches_next body maxiter s0 i s s' :
  reaches body maxiter s0 i s -> i < maxiter ->
  body i s = (Next tt, s') ->
  reaches body maxiter s0 (i + 1) s'.
Proof.
  intros (Hi & Hm & Hrun) Hlt Hbody. repeat split; try lia.
  replace (Z.to_nat (i + 1 - 1)) with (Z.to_nat (i - 1) + 1)%nat by lia.
  rewrite (loop_add _ _ _ _ _ _ Hrun). cbn [loop].
  replace (1 + Z.of_nat (Z.to_nat (i - 1))) with i by lia.
  now rewrite (bind_next _ _ _ _ _ Hbody).
Qed.

End LoopFacts.

(** ** The conjugation step *)

Section ConjugateFacts.

Context {C : Collaborators}.
Variable conj_x : wfun C -> wfun C -> wfun C -> float -> wfun C.
Implicit Types (fm : frame C) (u : rotation C) (f : fresh C) (s : state C).

(** A positive conjugation scalar leaves with the locals untouched. *)
Lemma conjugate_with_throws fm i u f s :
  gt0 (fr_new_of fm f) = true ->
  conjugate_with conj_x fm i u f s =
    (Exit (Throw (runtime_error
                    (msg_increasing ++ format_g5 C (fr_new_of fm f)))), s).
Proof.
  intros H. unfold conjugate_with. unfold_stmt.
  fold (fr_new_of fm f). now rewrite H.
Qed.

(** The direction after the update. *)
Lemma conjugate_with_updates fm i u f s :
  restart fm <> 0 ->
  gt0 (fr_new_of fm f) = false ->
  let periodic := Z.rem i (restart fm) =? 0 in
  let gamma := (fr_new_of fm f / fr s)%float in
  exists s',
    conjugate_with conj_x fm i u f s = (Next tt, s') /\
    fr s' = fr_new_of fm f /\
    free_energy s' = free_energy s /\ X s' = X s /\ Hx s' = Hx s /\
    eta s' = eta s /\ force_restart s' = force_restart s /\
    info s' = info s /\ slope s' = slope s /\
    slope_x_eta s' = slope_x_eta s /\
    if periodic || force_restart s
    then Z_x s' = delta_x f /\ Z_eta s' = delta_eta f /\
         trace s' = (trace s ++ gamma_line periodic (force_restart s) gamma
                             ++ [Log log_restart])%list
    else Z_x s' = conj_x (delta_x f) (rotateX C (Z_x s) u) (X s) gamma /\
         Z_eta s' = conjugateeta C (delta_eta f) (rotateEta C (Z_eta s) u)
                                 gamma /\
         trace s' = (trace s ++ gamma_line periodic (force_restart s) gamma)%list.
Proof.
  intros Hr Hfr periodic gamma. unfold conjugate_with. unfold_stmt.
  fold (fr_new_of fm f). rewrite Hfr.
  unfold log_gamma, restart_due, rem_is_0.
  apply Z.eqb_neq in Hr. rewrite Hr. fold periodic.
  unfold gamma_line. destruct s as [fe hx x e zx ze sxe sl fr0 flag inf tr].
  destruct periodic, flag; cbn;
    eexists; (split; [reflexivity|]); cbn; rewrite <- ?app_assoc;
    repeat split; reflexivity.
Qed.

End ConjugateFacts.

(** ** One iteration *)

Section IterationFacts.

Context {C : Collaborators}.
Implicit Types (fm : frame C) (f : fresh C) (s : state C)
  (tb h : stmt (C:=C) unit).

(** The locals after the convergence branch at step [i]. *)
Lemma converged_run i s :
  converged i s =
    (Exit (Return (summary_of i s)),
     emit (Log log_success) (set_info (summary_of i s) (emit (printed_of i s) s))).
Proof. reflexivity. Qed.

Lemma report_run i s :
  report i s =
    (Next tt, set_info (summary_of i s) (emit (printed_of i s) s)).
Proof. reflexivity. Qed.

Lemma iteration_with_converged tb h fm i s :
  abs_lt (slope s) (tol fm) = true ->
  iteration_with tb h fm i s = converged i (emit (LogIteration i) s).
Proof.
  intros H. unfold iteration_with, bind, update, read. cbn [slope emit].
  now rewrite H.
Qed.

Lemma iteration_with_searching tb h fm i s :
  abs_lt (slope s) (tol fm) = false ->
  iteration_with tb h fm i s =
    try_catch_DescentError tb h (emit (LogIteration i) s).
Proof.
  intros H. unfold iteration_with, bind, update, read. cbn [slope emit].
  now rewrite H.
Qed.

(** The handler is for [DescentError] only. *)
Lemma try_catch_runtime_error tb h s what s' :
  tb s = (Exit (Throw (runtime_error what)), s') ->
  try_catch_DescentError tb h s = (Exit (Throw (runtime_error what)), s').
Proof. intros H. unfold try_catch_DescentError. now rewrite H. Qed.

Lemma try_catch_caught tb h s s' :
  tb s = (Exit (Throw DescentError), s') ->
  try_catch_DescentError tb h s = h s'.
Proof. intros H. unfold try_catch_DescentError. now rewrite H. Qed.

(** The line search writes the energy model, the flag and the trace only. *)
Lemma search_along_keeps G fm i s r s' :
  search_along G fm i s = (r, s') ->
  Z_x s' = Z_x s /\ Z_eta s' = Z_eta s /\ fr s' = fr s /\ info s' = info s /\
  X s' = X s /\ Hx s' = Hx s /\ eta s' = eta s /\ slope s' = slope s /\
  slope_x_eta s' = slope_x_eta s /\
  trace s' = (trace s ++ [LineSearch i])%list.
Proof.
  unfold search_along.
  destruct (ls_call C (ls fm) (G s) (free_energy s) (slope s) (force_restart s))
    as [[[eku|e] fe'] flag']; intros H; injection H as <- <-;
    repeat split; reflexivity.
Qed.

(** The refetch writes X, HX, eta and the trace only. *)
Lemma refresh_keeps fm Prec i ek s r s' :
  refresh fm Prec i ek s = (r, s') ->
  Z_x s' = Z_x s /\ Z_eta s' = Z_eta s /\ fr s' = fr s /\ info s' = info s /\
  force_restart s' = force_restart s /\ free_energy s' = free_energy s /\
  trace s' = (trace s ++ [Gradients i])%list.
Proof. unfold refresh. intros H; injection H as <- <-. repeat split. Qed.

Lemma refresh_us_keeps fm S_ P i ek s r s' :
  refresh_us fm S_ P i ek s = (r, s') ->
  Z_x s' = Z_x s /\ Z_eta s' = Z_eta s /\ fr s' = fr s /\ info s' = info s /\
  force_restart s' = force_restart s /\ free_energy s' = free_energy s /\
  trace s' = (trace s ++ [Gradients i])%list.
Proof. unfold refresh_us. intros H; injection H as <- <-. repeat split. Qed.

End IterationFacts.

(** ** C1: a positive conjugation scalar *)

Section AbortOnIncreasingSlope.

Context {C : Collaborators}.

Lemma nlcg_increasing_slope (fm : frame C) Prec i s ek u s1 f s2 :
  abs_lt (slope s) (tol fm) = false ->
  search fm i (emit (LogIteration i) s) = (Next (ek, u), s1) ->
  refresh fm Prec i ek s1 = (Next f, s2) ->
  gt0 (fr_new_of fm f) = true ->
  iteration fm Prec i s =
    (Exit (Throw (runtime_error
                    (msg_increasing ++ format_g5 C (fr_new_of fm f)))), s2) /\
  Z_x s2 = Z_x s /\ Z_eta s2 = Z_eta s /\ fr s2 = fr s.
Proof.
  intros Hc Hs Hr Hfr. split.
  - unfold iteration. rewrite (iteration_with_searching _ _ _ _ _ Hc).
    apply try_catch_runtime_error. unfold try_body.
    rewrite (bind_next _ _ _ _ _ Hs). cbn [fst snd].
    rewrite (bind_next _ _ _ _ _ Hr).
    apply bind_exit. now apply conjugate_with_throws.
  - apply search_along_keeps in Hs. apply refresh_keeps in Hr.
    cbn [Z_x Z_eta fr emit] in Hs.
    destruct Hs as (? & ? & ? & _), Hr as (? & ? & ? & _).
    repeat split; congruence.
Qed.

Lemma nlcg_us_increasing_slope (fm : frame C) S_ P i s ek u s1 f SX s2 :
  abs_lt (slope s) (tol fm) = false ->
  search_us S_ fm i (emit (LogIteration i) s) = (Next (ek, u), s1) ->
  refresh_us fm S_ P i ek s1 = (Next (f, SX), s2) ->
  gt0 (fr_new_of fm f) = true ->
  iteration_us fm S_ P i s =
    (Exit (Throw (runtime_error
                    (msg_increasing ++ format_g5 C (fr_new_of fm f)))), s2) /\
  Z_x s2 = Z_x s /\ Z_eta s2 = Z_eta s /\ fr s2 = fr s.
Proof.
  intros Hc Hs Hr Hfr. split.
  - unfold iteration_us. rewrite (iteration_with_searching _ _ _ _ _ Hc).
    apply try_catch_runtime_error. unfold try_body_us.
    rewrite (bind_next _ _ _ _ _ Hs). cbn [fst snd].
    rewrite (bind_next _ _ _ _ _ Hr). cbn [fst snd].
    apply bind_exit. now apply conjugate_with_throws.
  - apply search_along_keeps in Hs. apply refresh_us_keeps in Hr.
    cbn [Z_x Z_eta fr emit] in Hs.
    destruct Hs as (? & ? & ? & _), Hr as (? & ? & ? & _).
    repeat split; congruence.
Qed.

End AbortOnIncreasingSlope.

(** C1.  In the main loop of [nlcg] and of [nlcg_us]: when the run has got
    to iteration [i], the line search has returned and the scalar [fr_new]
    of the refetched gradient and steepest direction is strictly positive,
    the iteration and with it the whole run end in the [runtime_error]
    "Error: increasing slope" (the handler of the [try] block does not catch
    it), and at that point [Z_x], [Z_eta] and [fr] are the ones the
    iteration started with. *)
Theorem C1_increasing_slope_aborts_before_update :
  forall (C : Collaborators) (fm : frame C) (maxiter i : Z) (s0 s : state C),
    abs_lt (slope s) (tol fm) = false ->
    (forall Prec ek u s1 f s2,
        reaches (iteration fm Prec) maxiter s0 i s ->
        search fm i (emit (LogIteration i) s) = (Next (ek, u), s1) ->
        refresh fm Prec i ek s1 = (Next f, s2) ->
        gt0 (fr_new_of fm f) = true ->
        let e := runtime_error (msg_increasing ++ format_g5 C (fr_new_of fm f)) in
        iteration fm Prec i s = (Exit (Throw e), s2) /\
        outcome (for_loop (iteration fm Prec) maxiter s0) =
          (Throw e, free_energy s2, trace s2) /\
        Z_x s2 = Z_x s /\ Z_eta s2 = Z_eta s /\ fr s2 = fr s) /\
    (forall S_ P ek u s1 f SX s2,
        reaches (iteration_us fm S_ P) maxiter s0 i s ->
        search_us S_ fm i (emit (LogIteration i) s) = (Next (ek, u), s1) ->
        refresh_us fm S_ P i ek s1 = (Next (f, SX), s2) ->
        gt0 (fr_new_of fm f) = true ->
        let e := runtime_error (msg_increasing ++ format_g5 C (fr_new_of fm f)) in
        iteration_us fm S_ P i s = (Exit (Throw e), s2) /\
        outcome (for_loop (iteration_us fm S_ P) maxiter s0) =
          (Throw e, free_energy s2, trace s2) /\
        Z_x s2 = Z_x s /\ Z_eta s2 = Z_eta s /\ fr s2 = fr s).
Proof.
  intros C fm maxiter i s0 s Hc. split.
  - intros Prec ek u s1 f s2 Hreach Hs Hr Hfr e.
    destruct (nlcg_increasing_slope fm Prec i s ek u s1 f s2 Hc Hs Hr Hfr)
      as (Hit & Hkeep).
    split; [exact Hit|]. split; [|exact Hkeep].
    unfold outcome. now rewrite (for_loop_exit _ _ _ _ _ _ _ Hreach Hit).
  - intros S_ P ek u s1 f SX s2 Hreach Hs Hr Hfr e.
    destruct (nlcg_us_increasing_slope fm S_ P i s ek u s1 f SX s2 Hc Hs Hr Hfr)
      as (Hit & Hkeep).
    split; [exact Hit|]. split; [|exact Hkeep].
    unfold outcome. now rewrite (for_loop_exit _ _ _ _ _ _ _ Hreach Hit).
Qed.

(** On the scripted model: the first accepted point has gradient 1 and
    steepest direction 1, so [fr_new] = 1 > 0. *)
Lemma C1_witness :
  let e := Toy.start 1 (-1) [Some (1, 1)%float] in
  let fm := fst (Toy.entry e) in
  let s0 := snd (Toy.entry e) in
  abs_lt (slope s0) (tol fm) = false /\
  exists s2,
    outcome (for_loop (iteration fm tt) 10 s0) =
      (Throw (runtime_error "Error: increasing slope !!!, <.,.> = ?"),
       free_energy s2, trace s2) /\
    Z_x s2 = Z_x s0 /\ Z_eta s2 = Z_eta s0 /\ fr s2 = fr s0.
Proof.
  intros e fm s0.
  assert (Hc : abs_lt (slope s0) (tol fm) = false) by (vm_compute; reflexivity).
  split; [exact Hc|].
  destruct (C1_increasing_slope_aborts_before_update
              Toy.collaborators fm 10 1 s0 s0 Hc) as [H _].
  eexists.
  eapply (fun ek u s1 f s2 Hr Hs Hf Hg =>
            proj2 (H tt ek u s1 f s2 Hr Hs Hf Hg)).
  - apply reaches_first. unfold INT_MAX. lia.
  - vm_compute. reflexivity.
  - vm_compute. reflexivity.
  - vm_compute. reflexivity.
Defined.

(** ** C2: a slope that does not descend after the update *)

(** On the scripted model: iteration 1 (period 5, flag down) recombines to a
    direction with slope 2, takes the branch ">> slope > 0, force restart."
    and falls through with the flag still down; the line search of
    iteration 2 is called with the flag down, as the one of iteration 1. *)
Lemma C2_counterexample :
  let e := Toy.start 1 (-1) [Some (-2, 1); Some (0x1p-1, -0x1p-1)]%float in
  let fm := fst (Toy.entry e) in
  let s0 := snd (Toy.entry e) in
  exists s1,
    iteration fm tt 1 s0 = (Next tt, s1) /\
    trace s1 = [Compute; Compute; LogIteration 1; LineSearch 1; Gradients 1;
                LogGamma 2; Log log_force; Printed 1 4 (-2) 0 0 4] /\
    (Z_x s1, slope s1) = (1%float, (-2)%float) /\
    force_restart s1 = false /\
    Toy.flags_seen (free_energy (snd (iteration fm tt 2 s1))) = [false; false].
Proof.
  intros e fm s0. eexists. split; [vm_compute; reflexivity|].
  repeat split; vm_compute; reflexivity.
Qed.

Section SlopeCheck.

Context {C : Collaborators}.
Implicit Types (fm : frame C) (f : fresh C) (s : state C).

(** What the check does with a slope that is >= 0. *)
Lemma descent_check_nondescending fm i f s :
  restart fm <> 0 ->
  let sxe := slope_along fm f (Z_x s) (Z_eta s) in
  let s1 := set_slope sxe (fst sxe + snd sxe)%float s in
  ge0 (fst sxe + snd sxe)%float = true ->
  if (Z.rem i (restart fm) =? 0) || force_restart s
  then
    descent_check fm i f s = (Exit (Throw (runtime_error msg_no_descent)), s1)
  else
    let sxe' := slope_along fm f (delta_x f) (delta_eta f) in
    descent_check fm i f s =
      (Next tt,
       set_slope sxe' (fst sxe' + snd sxe')%float
                 (set_Z (delta_x f) (delta_eta f) (emit (Log log_force) s1))).
Proof.
  intros Hr sxe s1 Hge.
  unfold descent_check, update_slope, restart_due, rem_is_0.
  unfold_stmt. fold (slope_along fm f (Z_x s) (Z_eta s)). fold sxe.
  cbn [slope set_slope]. rewrite Hge.
  apply Z.eqb_neq in Hr. rewrite Hr. cbn [force_restart set_slope].
  destruct (Z.rem i (restart fm) =? 0), (force_restart s); reflexivity.
Qed.

(** The check never throws what the handler of the [try] block catches. *)
Lemma descent_check_not_caught fm i f s s' :
  descent_check fm i f s <> (Exit (Throw DescentError), s').
Proof.
  unfold descent_check, update_slope, restart_due. unfold_stmt.
  cbn [slope set_slope].
  destruct (ge0 _); [|discriminate].
  destruct (rem_is_0 i (restart fm)) as [b|]; [|discriminate].
  destruct (b || _); discriminate.
Qed.

(** Once the line search, the refetch and the update have fallen through,
    the iteration ends as the check followed by the report does. *)
Lemma try_catch_check_report (h : stmt (C:=C) unit) (tb : stmt (C:=C) unit)
    fm i f s s3 :
  tb s = bind (descent_check fm i f) (fun _ => report i) s3 ->
  try_catch_DescentError tb h s =
    bind (descent_check fm i f) (fun _ => report i) s3.
Proof.
  intros H. unfold try_catch_DescentError. rewrite H. unfold bind.
  pose proof (descent_check_not_caught fm i f s3) as Hnc.
  destruct (descent_check fm i f s3) as [[[]|[r|[w|]|]] s4];
    try reflexivity.
  exfalso. now apply (Hnc s4).
Qed.

Lemma nlcg_iteration_after_update fm Prec i s ek u s1 f s2 s3 :
  abs_lt (slope s) (tol fm) = false ->
  search fm i (emit (LogIteration i) s) = (Next (ek, u), s1) ->
  refresh fm Prec i ek s1 = (Next f, s2) ->
  conjugate fm i u f s2 = (Next tt, s3) ->
  iteration fm Prec i s = bind (descent_check fm i f) (fun _ => report i) s3.
Proof.
  intros Hc Hs Hr Hu. unfold iteration.
  rewrite (iteration_with_searching _ _ _ _ _ Hc).
  apply try_catch_check_report. unfold try_body.
  rewrite (bind_next _ _ _ _ _ Hs). cbn [fst snd].
  rewrite (bind_next _ _ _ _ _ Hr).
  now rewrite (bind_next _ _ _ _ _ Hu).
Qed.

Lemma nlcg_us_iteration_after_update fm S_ P i s ek u s1 f SX s2 s3 :
  abs_lt (slope s) (tol fm) = false ->
  search_us S_ fm i (emit (LogIteration i) s) = (Next (ek, u), s1) ->
  refresh_us fm S_ P i ek s1 = (Next (f, SX), s2) ->
  conjugate_us SX fm i u f s2 = (Next tt, s3) ->
  iteration_us fm S_ P i s =
    bind (descent_check fm i f) (fun _ => report i) s3.
Proof.
  intros Hc Hs Hr Hu. unfold iteration_us.
  rewrite (iteration_with_searching _ _ _ _ _ Hc).
  apply try_catch_check_report. unfold try_body_us.
  rewrite (bind_next _ _ _ _ _ Hs). cbn [fst snd].
  rewrite (bind_next _ _ _ _ _ Hr). cbn [fst snd].
  now rewrite (bind_next _ _ _ _ _ Hu).
Qed.

(** The end of an iteration whose update left a slope >= 0 in the locals
    [s3]: abort, or forced restart with the flag down. *)
Lemma iteration_ends_nondescending (body : Z -> stmt (C:=C) unit)
    fm maxiter i f s0 s s3 :
  reaches body maxiter s0 i s ->
  body i s = bind (descent_check fm i f) (fun _ => report i) s3 ->
  restart fm <> 0 ->
  let sxe := slope_along fm f (Z_x s3) (Z_eta s3) in
  let s4 := set_slope sxe (fst sxe + snd sxe)%float s3 in
  ge0 (fst sxe + snd sxe)%float = true ->
  if (Z.rem i (restart fm) =? 0) || force_restart s3
  then
    outcome (for_loop body maxiter s0) =
      (Throw (runtime_error msg_no_descent), free_energy s4, trace s4)
  else
    let sxe' := slope_along fm f (delta_x f) (delta_eta f) in
    exists s',
      body i s = (Next tt, s') /\
      (Z_x s', Z_eta s') = (delta_x f, delta_eta f) /\
      slope_x_eta s' = sxe' /\
      slope s' = (fst sxe' + snd sxe')%float /\
      info s' = summary_of i s' /\
      force_restart s' = false.
Proof.
  intros Hreach Hbody Hr sxe s4 Hge.
  pose proof (descent_check_nondescending fm i f s3 Hr Hge) as H.
  destruct ((Z.rem i (restart fm) =? 0) || force_restart s3) eqn:Hdue.
  - rewrite (bind_exit _ _ _ _ _ H) in Hbody.
    now rewrite (for_loop_exit _ _ _ _ _ _ _ Hreach Hbody).
  - cbv zeta in H. rewrite (bind_next _ _ _ _ _ H), report_run in Hbody.
    eexists. split; [exact Hbody|].
    apply orb_false_elim in Hdue. destruct Hdue as (_ & Hflag).
    cbn. rewrite Hflag. repeat split.
Qed.

End SlopeCheck.

(** C2 (amended).  In both drivers, at an iteration [i] the run has got to,
    whose line search, refetch and update of the direction have fallen
    through: when the slope recomputed along the updated direction is >= 0,
    then if [i % restart == 0] or the forced-restart flag is set, the run
    ends in the [runtime_error] "no descent direction could be found,
    abort!"; otherwise the driver logs ">> slope > 0, force restart.", sets
    (Z_x, Z_eta) to the fresh steepest pair, recomputes the slope from it and
    goes on to the report of the iteration, and the forced-restart flag is
    left as it was, that is, down.  The first part states the same for the
    check itself (lines 206-218 and 441-453) in any locals. *)
Theorem C2_nondescending_slope_after_update :
  forall (C : Collaborators) (fm : frame C) (i : Z) (f : fresh C) (s3 : state C),
    restart fm <> 0 ->
    let sxe := slope_along fm f (Z_x s3) (Z_eta s3) in
    let s4 := set_slope sxe (fst sxe + snd sxe)%float s3 in
    let sxe' := slope_along fm f (delta_x f) (delta_eta f) in
    ge0 (fst sxe + snd sxe)%float = true ->
    (if (Z.rem i (restart fm) =? 0) || force_restart s3
     then
       descent_check fm i f s3 =
         (Exit (Throw (runtime_error msg_no_descent)), s4)
     else
       exists s',
         descent_check fm i f s3 = (Next tt, s') /\
         (Z_x s', Z_eta s') = (delta_x f, delta_eta f) /\
         slope_x_eta s' = sxe' /\
         slope s' = (fst sxe' + snd sxe')%float /\
         trace s' = (trace s3 ++ [Log log_force])%list /\
         force_restart s' = false) /\
    (forall maxiter s0 s Prec ek u s1 s2,
        reaches (iteration fm Prec) maxiter s0 i s ->
        abs_lt (slope s) (tol fm) = false ->
        search fm i (emit (LogIteration i) s) = (Next (ek, u), s1) ->
        refresh fm Prec i ek s1 = (Next f, s2) ->
        conjugate fm i u f s2 = (Next tt, s3) ->
        if (Z.rem i (restart fm) =? 0) || force_restart s3
        then
          outcome (for_loop (iteration fm Prec) maxiter s0) =
            (Throw (runtime_error msg_no_descent), free_energy s4, trace s4)
        else
          exists s',
            iteration fm Prec i s = (Next tt, s') /\
            (Z_x s', Z_eta s') = (delta_x f, delta_eta f) /\
            slope_x_eta s' = sxe' /\
            slope s' = (fst sxe' + snd sxe')%float /\
            info s' = summary_of i s' /\
            force_restart s' = false) /\
    (forall maxiter s0 s S_ P ek u s1 SX s2,
        reaches (iteration_us fm S_ P) maxiter s0 i s ->
        abs_lt (slope s) (tol fm) = false ->
        search_us S_ fm i (emit (LogIteration i) s) = (Next (ek, u), s1) ->
        refresh_us fm S_ P i ek s1 = (Next (f, SX), s2) ->
        conjugate_us SX fm i u f s2 = (Next tt, s3) ->
        if (Z.rem i (restart fm) =? 0) || force_restart s3
        then
          outcome (for_loop (iteration_us fm S_ P) maxiter s0) =
            (Throw (runtime_error msg_no_descent), free_energy s4, trace s4)
        else
          exists s',
            iteration_us fm S_ P i s = (Next tt, s') /\
            (Z_x s', Z_eta s') = (delta_x f, delta_eta f) /\
            slope_x_eta s' = sxe' /\
            slope s' = (fst sxe' + snd sxe')%float /\
            info s' = summary_of i s' /\
            force_restart s' = false).
Proof.
  intros C fm i f s3 Hr sxe s4 sxe' Hge. split; [|split].
  - pose proof (descent_check_nondescending fm i f s3 Hr Hge) as H.
    destruct ((Z.rem i (restart fm) =? 0) || force_restart s3) eqn:Hdue;
      [exact H|].
    cbv zeta in H. eexists. split; [exact H|].
    apply orb_false_elim in Hdue. destruct Hdue as (_ & Hflag).
    cbn. rewrite Hflag. repeat split.
  - intros maxiter s0 s Prec ek u s1 s2 Hreach Hc Hs Hf Hu.
    apply (iteration_ends_nondescending (iteration fm Prec) fm maxiter i f
             s0 s s3 Hreach); [|exact Hr|exact Hge].
    exact (nlcg_iteration_after_update fm Prec i s ek u s1 f s2 s3 Hc Hs Hf Hu).
  - intros maxiter s0 s S_ P ek u s1 SX s2 Hreach Hc Hs Hf Hu.
    apply (iteration_ends_nondescending (iteration_us fm S_ P) fm maxiter i f
             s0 s s3 Hreach); [|exact Hr|exact Hge].
    exact (nlcg_us_iteration_after_update fm S_ P i s ek u s1 f SX s2 s3
             Hc Hs Hf Hu).
Qed.

(** On the scripted model, in the locals the update of iteration 1 leaves
    when the first accepted point has gradient -2 and steepest direction 1:
    the check falls back to the steepest direction and leaves the flag
    down. *)
Lemma C2_witness :
  let e := Toy.start 1 (-1) [Some (-2, 1)%float] in
  let fm := fst (Toy.entry e) in
  let s3 := set_fr (C:=Toy.collaborators) (-2)%float
              (set_Z (C:=Toy.collaborators) (-1)%float 0%float
                     (snd (Toy.entry e))) in
  let f := Toy.found (-2) 1 in
  restart fm <> 0 /\
  slope_along fm f (Z_x s3) (Z_eta s3) = (2%float, 0%float) /\
  exists s',
    descent_check fm 1 f s3 = (Next tt, s') /\
    (Z_x s', Z_eta s') = (1%float, 0%float) /\
    slope s' = (-2)%float /\
    force_restart s' = false.
Proof.
  intros e fm s3 f.
  assert (Hr : restart fm <> 0) by (vm_compute; discriminate).
  split; [exact Hr|]. split; [vm_compute; reflexivity|].
  assert (Hge : ge0 (fst (slope_along fm f (Z_x s3) (Z_eta s3)) +
                     snd (slope_along fm f (Z_x s3) (Z_eta s3)))%float = true)
    by (vm_compute; reflexivity).
  destruct (C2_nondescending_slope_after_update
              Toy.collaborators fm 1 f s3 Hr Hge) as (H & _).
  change ((Z.rem 1 (restart fm) =? 0) || force_restart s3) with false in H.
  cbv iota in H. destruct H as (s' & Hrun & Hz & _ & Hsl & _ & Hflag).
  exists s'. split; [exact Hrun|]. split; [exact Hz|]. split; [|exact Hflag].
  rewrite Hsl. vm_compute. reflexivity.
Defined.

(** ** C3: the direction pair of an iteration *)

(** On the scripted model: iteration 1 of period 5, with the flag down
    before and after, gets past the test of [fr_new] and divides without an
    exception; the recombination gives the pair (-1, 0), whose slope is 2,
    and the iteration ends with exact copies of the fresh steepest pair
    (1, 0): a hard restart in an iteration that is no restart iteration. *)
Lemma C3_counterexample :
  let e := Toy.start 1 (-1) [Some (-2, 1)%float] in
  let fm := fst (Toy.entry e) in
  let s0 := snd (Toy.entry e) in
  let s1 := snd (search fm 1 (emit (LogIteration 1) s0)) in
  let s2 := snd (refresh fm tt 1 0%float s1) in
  let f := Toy.found (-2) 1 in
  let gamma := (fr_new_of fm f / fr s2)%float in
  let recombined :=
    (conjugatex Toy.collaborators (delta_x f)
                (rotateX Toy.collaborators (Z_x s2) tt) (X s2) gamma,
     conjugateeta Toy.collaborators (delta_eta f)
                  (rotateEta Toy.collaborators (Z_eta s2) tt) gamma) in
  search fm 1 (emit (LogIteration 1) s0) = (Next (0%float, tt), s1) /\
  refresh fm tt 1 0%float s1 = (Next f, s2) /\
  (Z.rem 1 (restart fm) =? 0) || force_restart s2 = false /\
  gt0 (fr_new_of fm f) = false /\
  quiet_div (fr_new_of fm f) (fr s2) = true /\
  recombined = ((-1)%float, 0%float) /\
  exists s',
    iteration fm tt 1 s0 = (Next tt, s') /\
    (Z_x s', Z_eta s') = (delta_x f, delta_eta f) /\
    (Z_x s', Z_eta s') = (1%float, 0%float) /\
    (Z_x s' =? fst recombined)%float = false /\
    force_restart s' = false.
Proof.
  intros e fm s0 s1 s2 f gamma recombined.
  repeat (split; [vm_compute; reflexivity|]).
  eexists. split; [vm_compute; reflexivity|].
  repeat split; vm_compute; reflexivity.
Qed.

Section PairOfAnIteration.

Context {C : Collaborators}.
Implicit Types (fm : frame C) (f : fresh C) (s : state C).

(** What the part of the [try] block after the refetch leaves of the
    direction: the updated pair, or the steepest pair when the updated one
    does not descend. *)
Lemma after_refetch_pair conj_x fm i u f s2 :
  restart fm <> 0 ->
  gt0 (fr_new_of fm f) = false ->
  let due := (Z.rem i (restart fm) =? 0) || force_restart s2 in
  let gamma := (fr_new_of fm f / fr s2)%float in
  let steepest := (delta_x f, delta_eta f) in
  let recombined :=
    (conj_x (delta_x f) (rotateX C (Z_x s2) u) (X s2) gamma,
     conjugateeta C (delta_eta f) (rotateEta C (Z_eta s2) u) gamma) in
  let updated := if due then steepest else recombined in
  let ascends (z : wfun C * subsp C) :=
    let sxe := slope_along fm f (fst z) (snd z) in
    ge0 (fst sxe + snd sxe)%float in
  let kept := if ascends updated then steepest else updated in
  exists r s',
    after_refetch conj_x fm i u f s2 = (r, s') /\
    fr s' = fr_new_of fm f /\
    (Z_x s', Z_eta s') = kept /\
    force_restart s' = force_restart s2 /\
    r = if due && ascends steepest
        then Exit (Throw (runtime_error msg_no_descent))
        else Next tt.
Proof.
  intros Hr Hfr due gamma steepest recombined updated ascends kept.
  destruct (conjugate_with_updates conj_x fm i u f s2 Hr Hfr)
    as (s3 & Hrun & Hfr3 & _ & _ & _ & _ & Hflag & _ & _ & _ & Hz).
  fold gamma in Hz.
  unfold after_refetch. rewrite (bind_next _ _ _ _ _ Hrun).
  pose proof (descent_check_nondescending fm i f s3 Hr) as Hup.
  rewrite Hflag in Hup.
  assert (Hdown :
    ge0 (fst (slope_along fm f (Z_x s3) (Z_eta s3)) +
         snd (slope_along fm f (Z_x s3) (Z_eta s3)))%float = false ->
    exists s4, descent_check fm i f s3 = (Next tt, s4) /\ fr s4 = fr s3 /\
               Z_x s4 = Z_x s3 /\ Z_eta s4 = Z_eta s3 /\
               force_restart s4 = force_restart s3).
  { intros Hge. unfold descent_check, update_slope. unfold_stmt.
    fold (slope_along fm f (Z_x s3) (Z_eta s3)).
    cbn [slope set_slope]. rewrite Hge. eexists. split; [reflexivity|].
    repeat split. }
  subst kept updated due ascends steepest recombined. cbv beta zeta in *.
  destruct ((Z.rem i (restart fm) =? 0) || force_restart s2) eqn:Hdue;
    destruct Hz as (Hzx & Hze & _); rewrite Hzx, Hze in Hup, Hdown;
    cbv beta iota zeta; cbn [fst snd andb] in *.
  - (* restart *)
    destruct (ge0 (fst (slope_along fm f (delta_x f) (delta_eta f)) +
                   snd (slope_along fm f (delta_x f) (delta_eta f)))%float)
      eqn:Hge.
    + rewrite (bind_exit _ _ _ _ _ (Hup eq_refl)).
      do 2 eexists. split; [reflexivity|].
      cbn [fr Z_x Z_eta force_restart set_slope].
      rewrite Hzx, Hze. repeat split; assumption.
    + destruct (Hdown eq_refl) as (s4 & H4 & Hf4 & Hx4 & He4 & Hfl4).
      rewrite (bind_next _ _ _ _ _ H4), report_run.
      do 2 eexists. split; [reflexivity|]. cbn.
      rewrite Hf4, Hx4, He4, Hfl4. repeat split; assumption.
  - (* recombination *)
    destruct (ge0 _) eqn:Hge.
    + specialize (Hup eq_refl). cbv zeta in Hup.
      rewrite (bind_next _ _ _ _ _ Hup), report_run.
      do 2 eexists. split; [reflexivity|]. cbn.
      repeat split; assumption.
    + destruct (Hdown eq_refl) as (s4 & H4 & Hf4 & Hx4 & He4 & Hfl4).
      rewrite (bind_next _ _ _ _ _ H4), report_run.
      do 2 eexists. split; [reflexivity|]. cbn.
      rewrite Hf4, Hx4, He4, Hfl4. repeat split; assumption.
Qed.

(** The iteration ends as the part of the [try] block after the refetch
    does, unless that part throws what the handler catches. *)
Lemma nlcg_iteration_after_refetch fm Prec i s ek u s1 f s2 r s' :
  abs_lt (slope s) (tol fm) = false ->
  search fm i (emit (LogIteration i) s) = (Next (ek, u), s1) ->
  refresh fm Prec i ek s1 = (Next f, s2) ->
  after_refetch (conjugatex C) fm i u f s2 = (r, s') ->
  r <> Exit (Throw DescentError) ->
  iteration fm Prec i s = (r, s').
Proof.
  intros Hc Hs Hf Ha Hne. unfold iteration.
  rewrite (iteration_with_searching _ _ _ _ _ Hc).
  unfold try_catch_DescentError, try_body.
  rewrite (bind_next _ _ _ _ _ Hs). cbn [fst snd].
  rewrite (bind_next _ _ _ _ _ Hf).
  change (conjugate fm i u f ;; descent_check fm i f ;; report i)%stmt
    with (after_refetch (conjugatex C) fm i u f).
  rewrite Ha. destruct r as [[]|[x|[w|]|]]; try reflexivity. now elim Hne.
Qed.

Lemma nlcg_us_iteration_after_refetch fm S_ P i s ek u s1 f SX s2 r s' :
  abs_lt (slope s) (tol fm) = false ->
  search_us S_ fm i (emit (LogIteration i) s) = (Next (ek, u), s1) ->
  refresh_us fm S_ P i ek s1 = (Next (f, SX), s2) ->
  after_refetch (fun d z x g => conjugatex_us C d z x SX g) fm i u f s2 =
    (r, s') ->
  r <> Exit (Throw DescentError) ->
  iteration_us fm S_ P i s = (r, s').
Proof.
  intros Hc Hs Hf Ha Hne. unfold iteration_us.
  rewrite (iteration_with_searching _ _ _ _ _ Hc).
  unfold try_catch_DescentError, try_body_us.
  rewrite (bind_next _ _ _ _ _ Hs). cbn [fst snd].
  rewrite (bind_next _ _ _ _ _ Hf). cbn [fst snd].
  change (conjugate_us SX fm i u f ;; descent_check fm i f ;; report i)%stmt
    with (after_refetch (fun d z x g => conjugatex_us C d z x SX g) fm i u f).
  rewrite Ha. destruct r as [[]|[x|[w|]|]]; try reflexivity. now elim Hne.
Qed.

End PairOfAnIteration.

(** C3 (amended).  In both drivers, at an iteration [i] whose line search
    and refetch have fallen through into the locals [s2], with [fr_new] not
    > 0, a restart period other than 0 and a division [fr_new / fr_old] that
    raises no armed floating-point exception: the update of lines 189-204
    (424-439) sets [fr] to [fr_new] and sets the pair (Z_x, Z_eta) to exact
    copies of the fresh steepest pair exactly when [i % restart == 0] or the
    forced-restart flag is set, and to the recombination of the fresh pair
    with the transported previous pair under gamma = fr_new / fr_old
    otherwise.  The pair the iteration ends with is the updated pair unless
    the slope along it is >= 0; then it is the steepest pair, also in an
    iteration that is no restart iteration (lines 212-214, 447-449), with
    the flag left as it was.  The iteration falls through, except that a
    restart iteration whose steepest pair has a slope >= 0 throws "no
    descent direction could be found, abort!". *)
Theorem C3_direction_pair_of_an_iteration :
  forall (C : Collaborators) (fm : frame C) (i : Z) (u : rotation C)
         (f : fresh C) (s2 : state C),
    restart fm <> 0 ->
    gt0 (fr_new_of fm f) = false ->
    quiet_div (fr_new_of fm f) (fr s2) = true ->
    let due := (Z.rem i (restart fm) =? 0) || force_restart s2 in
    let gamma := (fr_new_of fm f / fr s2)%float in
    let steepest := (delta_x f, delta_eta f) in
    let recombined (conj_x : wfun C -> wfun C -> wfun C -> float -> wfun C) :=
      (conj_x (delta_x f) (rotateX C (Z_x s2) u) (X s2) gamma,
       conjugateeta C (delta_eta f) (rotateEta C (Z_eta s2) u) gamma) in
    let updated conj_x := if due then steepest else recombined conj_x in
    let ascends (z : wfun C * subsp C) :=
      let sxe := slope_along fm f (fst z) (snd z) in
      ge0 (fst sxe + snd sxe)%float in
    let kept conj_x :=
      if ascends (updated conj_x) then steepest else updated conj_x in
    let ends := if due && ascends steepest
                then Exit (Throw (runtime_error msg_no_descent))
                else Next tt in
    (forall SX,
        let conj_us := fun d z x g => conjugatex_us C d z x SX g in
        exists s3 s3',
          conjugate fm i u f s2 = (Next tt, s3) /\
          conjugate_us SX fm i u f s2 = (Next tt, s3') /\
          fr s3 = fr_new_of fm f /\ fr s3' = fr_new_of fm f /\
          (Z_x s3, Z_eta s3) = updated (conjugatex C) /\
          (Z_x s3', Z_eta s3') = updated conj_us) /\
    (forall s Prec ek s1,
        abs_lt (slope s) (tol fm) = false ->
        ordered (slope s) (tol fm) = true ->
        search fm i (emit (LogIteration i) s) = (Next (ek, u), s1) ->
        refresh fm Prec i ek s1 = (Next f, s2) ->
        let z := updated (conjugatex C) in
        let z' := kept (conjugatex C) in
        quiet_slope fm f (fst z) (snd z) = true ->
        quiet_slope fm f (fst z') (snd z') = true ->
        exists s',
          iteration fm Prec i s = (ends, s') /\
          fr s' = fr_new_of fm f /\
          (Z_x s', Z_eta s') = z' /\
          force_restart s' = force_restart s2) /\
    (forall s S_ P ek s1 SX,
        abs_lt (slope s) (tol fm) = false ->
        ordered (slope s) (tol fm) = true ->
        search_us S_ fm i (emit (LogIteration i) s) = (Next (ek, u), s1) ->
        refresh_us fm S_ P i ek s1 = (Next (f, SX), s2) ->
        let conj_us := fun d z x g => conjugatex_us C d z x SX g in
        let z := updated conj_us in
        let z' := kept conj_us in
        quiet_slope fm f (fst z) (snd z) = true ->
        quiet_slope fm f (fst z') (snd z') = true ->
        exists s',
          iteration_us fm S_ P i s = (ends, s') /\
          fr s' = fr_new_of fm f /\
          (Z_x s', Z_eta s') = z' /\
          force_restart s' = force_restart s2).
Proof.
  intros C fm i u f s2 Hr Hfr _ due gamma steepest recombined updated ascends
         kept ends.
  split; [|split].
  - intros SX conj_us.
    destruct (conjugate_with_updates (conjugatex C) fm i u f s2 Hr Hfr)
      as (s3 & Hrun & Hfr3 & _ & _ & _ & _ & _ & _ & _ & _ & Hz).
    destruct (conjugate_with_updates conj_us fm i u f s2 Hr Hfr)
      as (s3' & Hrun' & Hfr3' & _ & _ & _ & _ & _ & _ & _ & _ & Hz').
    exists s3, s3'. repeat (split; [assumption|]).
    subst updated recombined steepest due gamma. cbv beta.
    destruct ((Z.rem i (restart fm) =? 0) || force_restart s2);
      destruct Hz as (-> & -> & _), Hz' as (-> & -> & _); split; reflexivity.
  - intros s Prec ek s1 Hc _ Hs Hf z z' _ _.
    destruct (after_refetch_pair (conjugatex C) fm i u f s2 Hr Hfr)
      as (r & s' & Ha & Hfr' & Hz & Hflag & ->).
    exists s'. split; [|repeat split; assumption].
    apply (nlcg_iteration_after_refetch fm Prec i s ek u s1 f s2 _ s' Hc Hs Hf Ha).
    destruct (_ && _); discriminate.
  - intros s S_ P ek s1 SX Hc _ Hs Hf conj_us z z' _ _.
    destruct (after_refetch_pair conj_us fm i u f s2 Hr Hfr)
      as (r & s' & Ha & Hfr' & Hz & Hflag & ->).
    exists s'. split; [|repeat split; assumption].
    apply (nlcg_us_iteration_after_refetch fm S_ P i s ek u s1 f SX s2 _ s'
             Hc Hs Hf Ha).
    destruct (_ && _); discriminate.
Qed.

(** On the scripted model, at iteration 1 of period 5 with the flag down:
    the direction is recombined with gamma = 1/4 and kept. *)
Lemma C3_witness :
  let e := Toy.start 1 (-1) [Some (-0x1p-1, 0x1p-1)%float] in
  let fm := fst (Toy.entry e) in
  let s0 := snd (Toy.entry e) in
  let s1 := snd (search fm 1 (emit (LogIteration 1) s0)) in
  let s2 := snd (refresh fm tt 1 0%float s1) in
  let f := Toy.found (-0x1p-1) 0x1p-1 in
  (restart fm <> 0 /\ gt0 (fr_new_of fm f) = false /\
   quiet_div (fr_new_of fm f) (fr s2) = true) /\
  exists s',
    iteration fm tt 1 s0 = (Next tt, s') /\
    fr s' = (-0x1p-2)%float /\
    (Z_x s', Z_eta s') = (0x1p-2%float, 0%float) /\
    force_restart s' = false.
Proof.
  intros e fm s0 s1 s2 f.
  assert (Hr : restart fm <> 0) by (vm_compute; discriminate).
  assert (Hf : gt0 (fr_new_of fm f) = false) by (vm_compute; reflexivity).
  assert (Hq : quiet_div (fr_new_of fm f) (fr s2) = true)
    by (vm_compute; reflexivity).
  split; [repeat split; assumption|].
  destruct (C3_direction_pair_of_an_iteration
              Toy.collaborators fm 1 tt f s2 Hr Hf Hq) as (_ & H & _).
  destruct (H s0 tt 0%float s1) as (s' & Hit & Hfr & Hz & Hflag);
    try (vm_compute; reflexivity).
  exists s'. rewrite Hit, Hfr, Hz, Hflag.
  repeat split; vm_compute; reflexivity.
Defined.

(** ** C4: convergence *)

Section Convergence.

Context {C : Collaborators}.

(** What the convergence branch appends to the trace. *)
Lemma converged_at_top (tb h : stmt (C:=C) unit) (fm : frame C) i s :
  abs_lt (slope s) (tol fm) = true ->
  exists s',
    iteration_with tb h fm i s = (Exit (Return (summary_of i s)), s') /\
    free_energy s' = free_energy s /\
    trace s' = (trace s ++ [LogIteration i; printed_of i s; Log log_success])%list.
Proof.
  intros H. rewrite (iteration_with_converged _ _ _ _ _ H), converged_run.
  eexists. split; [reflexivity|]. split; [reflexivity|].
  cbn. now rewrite <- !app_assoc.
Qed.

End Convergence.

(** C4.  In both drivers: when the run has got to the top of iteration [i]
    and |slope| < tol there, the iteration returns at once and so does the
    run, with the summary built from the current point (free energy, entropy,
    tolerance = the sum of the two slope components, iter = i); the energy
    model is left as it was at the top of the iteration and the trace grows
    by the line "Iteration i", the progress record and "NLCG SUCCESS" only:
    no line search, no refetch of gradients, no later iteration. *)
Theorem C4_converged_returns_at_once :
  forall (C : Collaborators) (fm : frame C) (maxiter i : Z) (s0 s : state C),
    abs_lt (slope s) (tol fm) = true ->
    let result :=
      (Return (mk_info (get_F C (free_energy s)) (get_entropy C (free_energy s))
                       (fst (slope_x_eta s) + snd (slope_x_eta s))%float i),
       free_energy s,
       (trace s ++ [LogIteration i; printed_of i s; Log log_success])%list) in
    (forall Prec,
        reaches (iteration fm Prec) maxiter s0 i s ->
        outcome (iteration fm Prec i s) = result /\
        outcome (for_loop (iteration fm Prec) maxiter s0) = result) /\
    (forall S_ P,
        reaches (iteration_us fm S_ P) maxiter s0 i s ->
        outcome (iteration_us fm S_ P i s) = result /\
        outcome (for_loop (iteration_us fm S_ P) maxiter s0) = result).
Proof.
  intros C fm maxiter i s0 s Hc result. split.
  - intros Prec Hreach.
    destruct (converged_at_top (try_body fm Prec i) on_DescentError fm i s Hc)
      as (s' & Hit & Hfe & Htr).
    fold (iteration fm Prec i) in Hit.
    rewrite (for_loop_exit _ _ _ _ _ _ _ Hreach Hit), Hit.
    unfold outcome, result. cbn [fst snd]. now rewrite Hfe, Htr.
  - intros S_ P Hreach.
    destruct (converged_at_top (try_body_us fm S_ P i) (on_DescentError_us S_)
                               fm i s Hc)
      as (s' & Hit & Hfe & Htr).
    fold (iteration_us fm S_ P i) in Hit.
    rewrite (for_loop_exit _ _ _ _ _ _ _ Hreach Hit), Hit.
    unfold outcome, result. cbn [fst snd]. now rewrite Hfe, Htr.
Qed.

(** On the scripted model: the point found by iteration 1 has a slope of about
    -2^-60,
    and the run returns at the top of iteration 2. *)
Lemma C4_witness :
  let e := Toy.start 1 (-1) [Some (0x1p-30, -0x1p-30); Some (1, -1)]%float in
  let fm := fst (Toy.entry e) in
  let s0 := snd (Toy.entry e) in
  exists s,
    abs_lt (slope s) (tol fm) = true /\
    reaches (iteration fm tt) 10 s0 2 s /\
    outcome (for_loop (iteration fm tt) 10 s0) =
      (Return (mk_info 0x1p-60 0 (-0x1.00000004p-60) 2), free_energy s,
       [Compute; Compute; LogIteration 1; LineSearch 1; Gradients 1;
        LogGamma 0x1p-60; Printed 1 0x1p-60 (-0x1.00000004p-60) 0 0 0x1p-60;
        LogIteration 2; Printed 2 0x1p-60 (-0x1.00000004p-60) 0 0 0x1p-60;
        Log log_success]).
Proof.
  intros e fm s0.
  exists (snd (iteration fm tt 1 s0)).
  assert (Hc : abs_lt (slope (snd (iteration fm tt 1 s0))) (tol fm) = true)
    by (vm_compute; reflexivity).
  assert (Hreach : reaches (iteration fm tt) 10 s0 2 (snd (iteration fm tt 1 s0))).
  { apply (reaches_next _ _ _ 1 s0).
    - apply reaches_first. unfold INT_MAX. lia.
    - lia.
    - vm_compute. reflexivity. }
  split; [exact Hc|]. split; [exact Hreach|].
  destruct (C4_converged_returns_at_once Toy.collaborators fm 10 2 s0 _ Hc)
    as [H _].
  destruct (H tt Hreach) as [_ Hrun]. rewrite Hrun.
  vm_compute. reflexivity.
Defined.

(** ** C5, C8: a line search that gives up *)

Section DescentFailure.

Context {C : Collaborators}.
Implicit Types (fm : frame C) (s : state C).

(** Whatever runs before it, a sequence that ends in [report i] and falls
    through leaves the summary of step [i] in [info]. *)
Lemma report_last i s s' :
  report i s = (Next tt, s') ->
  info s' = summary_of i s' /\
  exists tr, trace s' = (tr ++ [printed_of i s'])%list.
Proof.
  rewrite report_run. intros H. injection H as <-. split; [reflexivity|].
  eexists. reflexivity.
Qed.

Lemma try_body_next fm Prec i s s' :
  try_body fm Prec i s = (Next tt, s') ->
  info s' = summary_of i s' /\
  exists tr, trace s' = (tr ++ [printed_of i s'])%list.
Proof.
  unfold try_body, bind.
  destruct (search fm i s) as [[eku|e] s1]; [|discriminate].
  destruct (refresh fm Prec i (fst eku) s1) as [[f|e] s2]; [|discriminate].
  destruct (conjugate fm i (snd eku) f s2) as [[[]|e] s3]; [|discriminate].
  destruct (descent_check fm i f s3) as [[[]|e] s4]; [|discriminate].
  apply report_last.
Qed.

Lemma try_body_us_next fm S_ P i s s' :
  try_body_us fm S_ P i s = (Next tt, s') ->
  info s' = summary_of i s' /\
  exists tr, trace s' = (tr ++ [printed_of i s'])%list.
Proof.
  unfold try_body_us, bind.
  destruct (search_us S_ fm i s) as [[eku|e] s1]; [|discriminate].
  destruct (refresh_us fm S_ P i (fst eku) s1) as [[fSX|e] s2]; [|discriminate].
  destruct (conjugate_us (snd fSX) fm i (snd eku) (fst fSX) s2)
    as [[[]|e] s3]; [|discriminate].
  destruct (descent_check fm i (fst fSX) s3) as [[[]|e] s4]; [|discriminate].
  apply report_last.
Qed.

(** The scan of the handler of [nlcg_us] moves the energy model and writes
    the trace; it always falls through. *)
Lemma scan_run S_ ts : forall s,
  exists s',
    scan S_ ts s = (Next tt, s') /\ info s' = info s /\
    trace s' = (trace s ++ map Geodesic ts)%list.
Proof.
  induction ts as [|t ts IH]; intros s.
  - exists s. cbn. now rewrite app_nil_r.
  - cbn [scan]. unfold bind, Ft, update.
    destruct (IH (set_free_energy
                    (snd (geodesic_us C (free_energy s) (X s) (eta s) (Z_x s)
                                      (zeros_like C (Z_eta s)) S_ t))
                    (emit (Geodesic t) s))) as (s' & Hrun & Hinfo & Htr).
    exists s'. split; [exact Hrun|]. split; [exact Hinfo|].
    rewrite Htr. cbn. now rewrite <- app_assoc.
Qed.

Lemma on_DescentError_run s :
  on_DescentError s = (Exit (Return (info s)), emit (Log log_warning) s).
Proof. reflexivity. Qed.

Lemma on_DescentError_us_run S_ s :
  exists s',
    on_DescentError_us S_ s = (Exit (Return (info s)), s') /\
    trace s' = (trace s ++ Log log_bt_failed
                  :: map Geodesic (linspace C 0 0x1p-1 10)
                  ++ [Log log_warning])%list.
Proof.
  unfold on_DescentError_us, bind, update.
  destruct (scan_run S_ (linspace C 0 0x1p-1 10) (emit (Log log_bt_failed) s))
    as (s1 & Hrun & Hinfo & Htr).
  rewrite Hrun. eexists. unfold return_info, bind, read, leave. cbn [info emit].
  rewrite Hinfo. split; [reflexivity|].
  cbn [trace emit] in *. rewrite Htr. now rewrite <- !app_assoc.
Qed.

(** An iteration that falls through has gone through its [try] block. *)
Lemma iteration_next fm Prec i s s' :
  iteration fm Prec i s = (Next tt, s') ->
  info s' = summary_of i s' /\
  exists tr, trace s' = (tr ++ [printed_of i s'])%list.
Proof.
  unfold iteration. destruct (abs_lt (slope s) (tol fm)) eqn:Hc.
  - rewrite (iteration_with_converged _ _ _ _ _ Hc), converged_run. discriminate.
  - rewrite (iteration_with_searching _ _ _ _ _ Hc). unfold try_catch_DescentError.
    destruct (try_body fm Prec i (emit (LogIteration i) s)) as [[[]|[r|[w|]|]] s1] eqn:Hb;
      try discriminate.
    intros H. injection H as <-. now apply try_body_next in Hb.
Qed.

Lemma iteration_us_next fm S_ P i s s' :
  iteration_us fm S_ P i s = (Next tt, s') ->
  info s' = summary_of i s' /\
  exists tr, trace s' = (tr ++ [printed_of i s'])%list.
Proof.
  unfold iteration_us. destruct (abs_lt (slope s) (tol fm)) eqn:Hc.
  - rewrite (iteration_with_converged _ _ _ _ _ Hc), converged_run. discriminate.
  - rewrite (iteration_with_searching _ _ _ _ _ Hc). unfold try_catch_DescentError.
    destruct (try_body_us fm S_ P i (emit (LogIteration i) s))
      as [[[]|[r|[w|]|]] s1] eqn:Hb; try discriminate.
    + intros H. injection H as <-. now apply try_body_us_next in Hb.
    + destruct (on_DescentError_us_run S_ s1) as (s2 & -> & _). discriminate.
Qed.

(** A [DescentError] of the line search is caught and the run returns
    [info] as it stands. *)
Lemma nlcg_descent_failure fm Prec i s s1 :
  abs_lt (slope s) (tol fm) = false ->
  search fm i (emit (LogIteration i) s) = (Exit (Throw DescentError), s1) ->
  iteration fm Prec i s = (Exit (Return (info s)), emit (Log log_warning) s1).
Proof.
  intros Hc Hs. unfold iteration.
  rewrite (iteration_with_searching _ _ _ _ _ Hc).
  rewrite (try_catch_caught _ _ _ s1).
  - rewrite on_DescentError_run. apply search_along_keeps in Hs.
    destruct Hs as (_ & _ & _ & -> & _). reflexivity.
  - unfold try_body. now apply bind_exit.
Qed.

Lemma nlcg_us_descent_failure fm S_ P i s s1 :
  abs_lt (slope s) (tol fm) = false ->
  search_us S_ fm i (emit (LogIteration i) s) = (Exit (Throw DescentError), s1) ->
  exists s',
    iteration_us fm S_ P i s = (Exit (Return (info s)), s') /\
    trace s' = (trace s1 ++ Log log_bt_failed
                  :: map Geodesic (linspace C 0 0x1p-1 10)
                  ++ [Log log_warning])%list.
Proof.
  intros Hc Hs. unfold iteration_us.
  rewrite (iteration_with_searching _ _ _ _ _ Hc).
  rewrite (try_catch_caught _ _ _ s1).
  - destruct (on_DescentError_us_run S_ s1) as (s' & Hrun & Htr).
    exists s'. rewrite Hrun. apply search_along_keeps in Hs.
    destruct Hs as (_ & _ & _ & -> & _). auto.
  - unfold try_body_us. now apply bind_exit.
Qed.

End DescentFailure.

(** C5.  In both drivers: when iteration [j] has fallen through (so that
    [info] is the summary it emitted, with iter = j) and the line search of
    iteration [j+1] throws [DescentError], the handler catches it and the run
    returns that summary as an ordinary return value; nothing is thrown to
    the caller.  ([nlcg] logs the warning; [nlcg_us] first scans the energy
    along Z_x.) *)
Theorem C5_descent_failure_returns_last_summary :
  forall (C : Collaborators) (fm : frame C) (maxiter j : Z)
         (s0 sp s s1 : state C),
    j + 1 <= maxiter ->
    abs_lt (slope s) (tol fm) = false ->
    (forall Prec,
        reaches (iteration fm Prec) maxiter s0 j sp ->
        iteration fm Prec j sp = (Next tt, s) ->
        search fm (j + 1) (emit (LogIteration (j + 1)) s) =
          (Exit (Throw DescentError), s1) ->
        info s = summary_of j s /\
        (exists tr, trace s = (tr ++ [printed_of j s])%list) /\
        outcome (for_loop (iteration fm Prec) maxiter s0) =
          (Return (info s), free_energy s1,
           (trace s1 ++ [Log log_warning])%list)) /\
    (forall S_ P,
        reaches (iteration_us fm S_ P) maxiter s0 j sp ->
        iteration_us fm S_ P j sp = (Next tt, s) ->
        search_us S_ fm (j + 1) (emit (LogIteration (j + 1)) s) =
          (Exit (Throw DescentError), s1) ->
        info s = summary_of j s /\
        (exists tr, trace s = (tr ++ [printed_of j s])%list) /\
        exists fe',
          outcome (for_loop (iteration_us fm S_ P) maxiter s0) =
            (Return (info s), fe',
             (trace s1 ++ Log log_bt_failed
                :: map Geodesic (linspace C 0 0x1p-1 10)
                ++ [Log log_warning])%list)).
Proof.
  intros C fm maxiter j s0 sp s s1 Hj Hc. split.
  - intros Prec Hreach Hprev Hs.
    destruct (iteration_next _ _ _ _ _ Hprev) as (Hinfo & Htr).
    split; [exact Hinfo|]. split; [exact Htr|].
    assert (Hreach' : reaches (iteration fm Prec) maxiter s0 (j + 1) s)
      by (apply (reaches_next _ _ _ j sp); [assumption|lia|assumption]).
    pose proof (nlcg_descent_failure fm Prec (j + 1) s s1 Hc Hs) as Hit.
    now rewrite (for_loop_exit _ _ _ _ _ _ _ Hreach' Hit).
  - intros S_ P Hreach Hprev Hs.
    destruct (iteration_us_next _ _ _ _ _ _ Hprev) as (Hinfo & Htr).
    split; [exact Hinfo|]. split; [exact Htr|].
    assert (Hreach' : reaches (iteration_us fm S_ P) maxiter s0 (j + 1) s)
      by (apply (reaches_next _ _ _ j sp); [assumption|lia|assumption]).
    destruct (nlcg_us_descent_failure fm S_ P (j + 1) s s1 Hc Hs)
      as (s' & Hit & Htr').
    exists (free_energy s').
    rewrite (for_loop_exit _ _ _ _ _ _ _ Hreach' Hit).
    unfold outcome. cbn [fst snd]. now rewrite Htr'.
Qed.

(** On the scripted model: two accepted points, then a line search that
    gives up at iteration 3; the run returns the summary of iteration 2. *)
Lemma C5_witness :
  let e := Toy.start 1 (-1)
             [Some (-0x1p-1, 0x1p-1); Some (0x1p-2, -0x1p-2); None]%float in
  let fm := fst (Toy.entry e) in
  let s0 := snd (Toy.entry e) in
  exists sp s s1,
    abs_lt (slope s) (tol fm) = false /\
    reaches (iteration fm tt) 10 s0 2 sp /\
    iteration fm tt 2 sp = (Next tt, s) /\
    search fm 3 (emit (LogIteration 3) s) = (Exit (Throw DescentError), s1) /\
    fst (fst (outcome (for_loop (iteration fm tt) 10 s0))) =
      Return (mk_info 0x1p-4 0 (-0x1.8p-5) 2).
Proof.
  intros e fm s0.
  set (sp := snd (iteration fm tt 1 s0)).
  set (s := snd (iteration fm tt 2 sp)).
  set (s1 := snd (search fm 3 (emit (LogIteration 3) s))).
  exists sp, s, s1.
  assert (Hc : abs_lt (slope s) (tol fm) = false) by (vm_compute; reflexivity).
  assert (Hreach : reaches (iteration fm tt) 10 s0 2 sp).
  { apply (reaches_next _ _ _ 1 s0).
    - apply reaches_first. unfold INT_MAX. lia.
    - lia.
    - vm_compute. reflexivity. }
  assert (Hprev : iteration fm tt 2 sp = (Next tt, s))
    by (vm_compute; reflexivity).
  assert (Hs : search fm (2 + 1) (emit (LogIteration (2 + 1)) s) =
               (Exit (Throw DescentError), s1)) by (vm_compute; reflexivity).
  repeat (split; [assumption|]).
  assert (Hle : 2 + 1 <= 10) by lia.
  destruct (C5_descent_failure_returns_last_summary
              Toy.collaborators fm 10 2 s0 sp s s1 Hle Hc) as [H _].
  destruct (H tt Hreach Hprev Hs) as (_ & _ & Hrun).
  rewrite Hrun. vm_compute. reflexivity.
Defined.

(** C8.  In both drivers: when the line search of the very first iteration
    throws [DescentError], the run returns the [nlcg_info] declared at
    function entry ([nlcg_info info;], lines 58 and 287), which no statement
    has assigned to; it is not a summary of the initial point. *)
Theorem C8_first_iteration_failure_returns_default_info :
  forall (C : Collaborators) (memspace xspace : space) (energy_base : energy C)
         (smear : smearing_type) (T : float) (maxiter : Z)
         (tol kappa tau : float) (restart : Z),
    1 <= maxiter < INT_MAX ->
    (forall fm Prec s0 s1,
        nlcg_init memspace xspace energy_base smear T tol kappa tau restart =
          (fm, Prec, s0) ->
        ge0 (slope s0) = false ->
        abs_lt (slope s0) tol = false ->
        search fm 1 (emit (LogIteration 1) s0) =
          (Exit (Throw DescentError), s1) ->
        nlcg memspace xspace energy_base smear T maxiter tol kappa tau restart =
          (Return (default_info C), free_energy s1,
           (trace s1 ++ [Log log_warning])%list)) /\
    (forall us_precond_base overlap_base fm S_ P s0 s1,
        nlcg_us_init memspace xspace energy_base us_precond_base overlap_base
                     smear T tol kappa tau restart = (fm, S_, P, s0) ->
        ge0 (slope s0) = false ->
        abs_lt (slope s0) tol = false ->
        search_us S_ fm 1 (emit (LogIteration 1) s0) =
          (Exit (Throw DescentError), s1) ->
        fst (fst (nlcg_us memspace xspace energy_base us_precond_base
                          overlap_base smear T maxiter tol kappa tau restart)) =
          Return (default_info C)).
Proof.
  intros C memspace xspace energy_base smear T maxiter tol0 kappa tau0 restart0
         Hm.
  split.
  - intros fm Prec s0 s1 Hinit Hge Hc Hs. unfold nlcg. rewrite Hinit, Hge.
    assert (Hfm : tol fm = tol0 /\ info s0 = default_info C)
      by (unfold nlcg_init in Hinit; injection Hinit as <- _ <-; now split).
    destruct Hfm as (Htol & Hinfo). rewrite <- Htol in Hc.
    pose proof (nlcg_descent_failure fm Prec 1 s0 s1 Hc Hs) as Hit.
    rewrite (for_loop_exit _ _ _ _ _ _ _ (reaches_first _ _ _ Hm) Hit).
    unfold outcome. cbn [fst snd]. now rewrite Hinfo.
  - intros upb ob fm S_ P s0 s1 Hinit Hge Hc Hs. unfold nlcg_us.
    rewrite Hinit, Hge.
    assert (Hfm : tol fm = tol0 /\ info s0 = default_info C)
      by (unfold nlcg_us_init in Hinit; injection Hinit as <- _ _ <-; now split).
    destruct Hfm as (Htol & Hinfo). rewrite <- Htol in Hc.
    destruct (nlcg_us_descent_failure fm S_ P 1 s0 s1 Hc Hs) as (s' & Hit & _).
    rewrite (for_loop_exit _ _ _ _ _ _ _ (reaches_first _ _ _ Hm) Hit).
    unfold outcome. cbn [fst snd]. now rewrite Hinfo.
Qed.

(** On the scripted model: the first move is not accepted. *)
Lemma C8_witness :
  let e := Toy.start 1 (-1) [None] in
  fst (fst (Toy.run e 10)) = Return (mk_info 0 0 0 0) /\
  snd (Toy.run e 10) =
    [Compute; Compute; LogIteration 1; LineSearch 1; Log log_warning].
Proof.
  intros e.
  assert (Hm : 1 <= 10 < INT_MAX) by (unfold INT_MAX; lia).
  destruct (C8_first_iteration_failure_returns_default_info
              Toy.collaborators HostSpace HostSpace e FERMI_DIRAC 1 10
              0x1p-20 1 0x1p-1 5 Hm) as [H _].
  unfold Toy.run.
  set (fm := fst (Toy.entry e)). set (s0 := snd (Toy.entry e)).
  set (s1 := snd (search fm 1 (emit (LogIteration 1) s0))).
  rewrite (H fm tt s0 s1);
    [ split; vm_compute; reflexivity | vm_compute; reflexivity .. ].
Defined.

(** ** C6: the test before the loop *)

(** C6.  In both drivers: the locals at loop entry have the steepest
    direction as conjugate direction and the slope computed from it; when
    that slope is >= 0 the call ends in the [runtime_error] "ascending slope
    detected. Abort!" with a trace that holds the two [compute] calls of the
    set-up and nothing else: no iteration has been entered. *)
Theorem C6_ascending_start_aborts_before_loop :
  forall (C : Collaborators) (memspace xspace : space) (energy_base : energy C)
         (smear : smearing_type) (T : float) (maxiter : Z)
         (tol kappa tau : float) (restart : Z),
    (forall fm Prec s0,
        nlcg_init memspace xspace energy_base smear T tol kappa tau restart =
          (fm, Prec, s0) ->
        ge0 (slope s0) = true ->
        let Xll := lagrange_multipliers C (X s0) (X s0) (Hx s0) Prec in
        Z_x s0 = precondGradX C (X s0) (Hx s0) Prec Xll /\
        slope s0 = (fst (slope_x_eta s0) + snd (slope_x_eta s0))%float /\
        nlcg memspace xspace energy_base smear T maxiter tol kappa tau restart =
          (Throw (runtime_error msg_ascending), free_energy s0,
           [Compute; Compute])) /\
    (forall us_precond_base overlap_base fm S_ P s0,
        nlcg_us_init memspace xspace energy_base us_precond_base overlap_base
                     smear T tol kappa tau restart = (fm, S_, P, s0) ->
        ge0 (slope s0) = true ->
        let SX := tapply_op C S_ (X s0) in
        let Xll := lagrange_multipliers_us C (X s0) SX (Hx s0) P in
        Z_x s0 = precondGradX_us C SX (Hx s0) P Xll /\
        slope s0 = (fst (slope_x_eta s0) + snd (slope_x_eta s0))%float /\
        nlcg_us memspace xspace energy_base us_precond_base overlap_base smear
                T maxiter tol kappa tau restart =
          (Throw (runtime_error msg_ascending), free_energy s0,
           [Compute; Compute])).
Proof.
  intros C memspace xspace energy_base smear T maxiter tol0 kappa tau0 restart0.
  split.
  - intros fm Prec s0 Hinit Hge. unfold nlcg. rewrite Hinit, Hge.
    unfold nlcg_init in Hinit. injection Hinit as <- <- <-.
    repeat split.
  - intros upb ob fm S_ P s0 Hinit Hge. unfold nlcg_us. rewrite Hinit, Hge.
    unfold nlcg_us_init in Hinit. injection Hinit as <- <- <- <-.
    repeat split.
Qed.

(** On the scripted model: a starting point whose steepest direction
    ascends. *)
Lemma C6_witness :
  let e := Toy.start 1 1 [Some (1, -1)%float] in
  ge0 (slope (snd (Toy.entry e))) = true /\
  Toy.run e 10 = (Throw (runtime_error msg_ascending), e, [Compute; Compute]).
Proof.
  intros e.
  assert (Hge : ge0 (slope (snd (Toy.entry e))) = true)
    by (vm_compute; reflexivity).
  split; [exact Hge|].
  destruct (C6_ascending_start_aborts_before_loop
              Toy.collaborators HostSpace HostSpace e FERMI_DIRAC 1 10
              0x1p-20 1 0x1p-1 5) as [H _].
  destruct (H (fst (Toy.entry e)) tt (snd (Toy.entry e))) as (_ & _ & Hrun).
  - vm_compute. reflexivity.
  - exact Hge.
  - exact Hrun.
Defined.

(** ** C9: entry points for a device that is not compiled in *)

(** C9.  Without [__NLCGLIB__CUDA], each of the six entry points that place
    data or execution on the device ends in the [runtime_error] "recompile
    nlcglib with CUDA." with the energy model as it was passed in and an
    empty trace: Kokkos is not initialized, the energy model is not asked to
    compute, no driver is entered. *)
Theorem C9_device_entry_points_without_cuda :
  forall (C : Collaborators) (energy_base : energy C)
         (us_precond_base : UltrasoftPrecondBase C)
         (overlap_base : OverlapBase C) (smearing : smearing_type)
         (temp tol kappa tau : float) (maxiter restart : Z),
    let failure := (Throw (runtime_error msg_cuda), energy_base, []) in
    nlcg_mvp2_device false energy_base smearing temp tol kappa tau maxiter
                     restart = failure /\
    nlcg_mvp2_device_cpu false energy_base smearing temp tol kappa tau maxiter
                         restart = failure /\
    nlcg_mvp2_cpu_device false energy_base smearing temp tol kappa tau maxiter
                         restart = failure /\
    nlcg_us_device false energy_base us_precond_base overlap_base smearing
                   temp tol kappa tau maxiter restart = failure /\
    nlcg_us_device_cpu false energy_base us_precond_base overlap_base smearing
                       temp tol kappa tau maxiter restart = failure /\
    nlcg_us_cpu_device false energy_base us_precond_base overlap_base smearing
                       temp tol kappa tau maxiter restart = failure.
Proof. intros. repeat split. Qed.

(** ** C10: the occupations behind the gradients *)

(** On the scripted model, where the energy model reports the occupation 1
    and the smearing of any band energies is 2: the refetch of [nlcg_us]
    takes the occupation 1 of the energy model, as the refetch of [nlcg]
    does, and not the smearing of the band energies the line search
    returned. *)
Lemma C10_counterexample :
  let e := Toy.start 1 (-1) [Some (-0x1p-1, 0x1p-1)%float] in
  let fm := fst (Toy.entry e) in
  let s := snd (Toy.entry e) in
  let ek := 0%float in
  exists f f' SX s2 s2',
    refresh fm tt 1 ek s = (Next f, s2) /\
    refresh_us fm tt tt 1 ek s = (Next (f', SX), s2') /\
    fni f' = 1 /\ fni f = 1 /\
    smearing_fn Toy.collaborators
                (get_smearing Toy.collaborators (free_energy s)) ek = 2 /\
    fni f' = fni f /\
    fni f' <> smearing_fn Toy.collaborators
                (get_smearing Toy.collaborators (free_energy s)) ek.
Proof.
  intros e fm s ek. do 5 eexists.
  split; [vm_compute; reflexivity|].
  split; [vm_compute; reflexivity|].
  repeat split. cbn. discriminate.
Qed.

(** C10 (amended).  After an accepted line-search step both drivers obtain
    the occupation field behind [g_eta] and [gradX] in the same way: it is
    [free_energy.get_fn()], read from the energy model at the accepted point
    (lines 169 and 402); neither applies the smearing to the band energies
    the line search returned. *)
Theorem C10_both_variants_read_occupations_from_energy_model :
  forall (C : Collaborators) (fm : frame C) (Prec : PreconditionerTeter C)
         (S_ : Overlap C) (P : USPreconditioner C) (i : Z)
         (ek : band_energies C) (s : state C),
    let fe := free_energy s in
    let X' := get_X C fe in
    let Hx' := get_HX C fe in
    let Hij := inner_ C X' Hx' (wk fm) in
    exists f f' SX s2 s2',
      refresh fm Prec i ek s = (Next f, s2) /\
      refresh_us fm S_ P i ek s = (Next (f', SX), s2') /\
      fni f = get_fn C fe /\
      fni f' = get_fn C fe /\
      g_eta f =
        g_eta_of C (grad_eta fm) Hij (wk fm) ek (get_fn C fe) (occupancy C fe) /\
      g_eta f' = g_eta f /\
      g_X f =
        gradX C X' Hx' (get_fn C fe)
              (lagrange_multipliers C X' X' Hx' Prec) (wk fm) /\
      SX = tapply_op C S_ X' /\
      g_X f' =
        gradX C SX Hx' (get_fn C fe)
              (lagrange_multipliers_us C X' SX Hx' P) (wk fm).
Proof.
  intros C fm Prec S_ P i ek s fe X' Hx' Hij.
  do 5 eexists. split; [reflexivity|]. split; [reflexivity|].
  repeat split.
Qed.

(** ** C7: the bound on the number of iterations *)

Section IterationCount.

Context {C : Collaborators}.
Implicit Types (fm : frame C) (s : state C).

Lemma iterations_of_app (l1 l2 : list event) :
  iterations_of (l1 ++ l2) = (iterations_of l1 ++ iterations_of l2)%list.
Proof.
  induction l1 as [|e l1 IH]; [reflexivity|].
  destruct e; cbn; now rewrite ?IH.
Qed.

Lemma quiet_ret {A : Type} (a : A) : quiet (C:=C) (ret a).
Proof.
  intros s r s' H. injection H as <- <-. exists []. now rewrite app_nil_r.
Qed.

Lemma quiet_leave {A : Type} (e : exit) : quiet (C:=C) (A:=A) (leave e).
Proof.
  intros s r s' H. injection H as <- <-. exists []. now rewrite app_nil_r.
Qed.

Lemma quiet_read {A : Type} (g : state C -> A) : quiet (C:=C) (read g).
Proof.
  intros s r s' H. injection H as <- <-. exists []. now rewrite app_nil_r.
Qed.

Lemma quiet_bind {A B : Type} (m : stmt (C:=C) A) (k : A -> stmt B) :
  quiet m -> (forall a, quiet (C:=C) (k a)) -> quiet (C:=C) (bind m k).
Proof.
  intros Hm Hk s r s' H. unfold bind in H.
  destruct (m s) as [[a|e] s1] eqn:E.
  - destruct (Hm _ _ _ E) as (l1 & Ht1 & Hq1).
    destruct (Hk a _ _ _ H) as (l2 & Ht2 & Hq2).
    exists (l1 ++ l2)%list. rewrite Ht2, Ht1, <- app_assoc. split; [reflexivity|].
    now rewrite iterations_of_app, Hq1, Hq2.
  - injection H as <- <-. exact (Hm _ _ _ E).
Qed.

(** An update that appends [l] to the trace. *)
Lemma quiet_update (g : state C -> state C) :
  (forall s, exists l, trace (g s) = (trace s ++ l)%list /\ iterations_of l = []) ->
  quiet (C:=C) (update g).
Proof. intros Hg s r s' H. injection H as <- <-. apply Hg. Qed.

Lemma quiet_try_catch {A : Type} (tb h : stmt (C:=C) A) :
  quiet tb -> quiet h -> quiet (C:=C) (try_catch_DescentError tb h).
Proof.
  intros Htb Hh s r s' H. unfold try_catch_DescentError in H.
  destruct (tb s) as [[a|[x|[w|]|]] s1] eqn:E;
    try (injection H as <- <-; exact (Htb _ _ _ E)).
  destruct (Htb _ _ _ E) as (l1 & Ht1 & Hq1).
  destruct (Hh _ _ _ H) as (l2 & Ht2 & Hq2).
  exists (l1 ++ l2)%list. rewrite Ht2, Ht1, <- app_assoc. split; [reflexivity|].
  now rewrite iterations_of_app, Hq1, Hq2.
Qed.

Ltac keeps_trace := intros ?; exists []; now rewrite app_nil_r.
Ltac appends e := intros ?; exists [e]; now split.

Lemma quiet_report i : quiet (C:=C) (report i).
Proof.
  intros s r s' H. rewrite report_run in H. injection H as <- <-.
  exists [printed_of i s]. now split.
Qed.

Lemma quiet_return_info {A : Type} : quiet (C:=C) (A:=A) return_info.
Proof. apply quiet_bind; [apply quiet_read|intros; apply quiet_leave]. Qed.

Lemma quiet_converged i : quiet (C:=C) (converged i).
Proof.
  intros s r s' H. rewrite converged_run in H. injection H as <- <-.
  exists [printed_of i s; Log log_success]. cbn. rewrite <- app_assoc. now split.
Qed.

Lemma quiet_search_along G fm i : quiet (C:=C) (search_along G fm i).
Proof.
  intros s r s' H. apply search_along_keeps in H.
  exists [LineSearch i]. split; [apply H|reflexivity].
Qed.

Lemma quiet_restart_due fm i : quiet (C:=C) (restart_due fm i).
Proof.
  intros s r s' H. unfold restart_due in H.
  destruct (rem_is_0 i (restart fm)); injection H as <- <-;
    exists []; now rewrite app_nil_r.
Qed.

Lemma quiet_log_gamma fm i gamma : quiet (C:=C) (log_gamma fm i gamma).
Proof.
  intros s r s' H. unfold log_gamma in H.
  destruct (rem_is_0 i (restart fm)) as [b|].
  - destruct (negb (b && negb (force_restart s))); injection H as <- <-.
    + exists [LogGamma gamma]. now split.
    + exists []. now rewrite app_nil_r.
  - injection H as <- <-. exists []. now rewrite app_nil_r.
Qed.

Lemma quiet_conjugate_with conj_x fm i u f :
  quiet (C:=C) (conjugate_with conj_x fm i u f).
Proof.
  unfold conjugate_with.
  apply quiet_bind; [apply quiet_read|intros zx].
  apply quiet_bind; [apply quiet_read|intros ze].
  destruct (gt0 _); [apply quiet_leave|].
  apply quiet_bind; [apply quiet_read|intros fr0].
  apply quiet_bind; [apply quiet_update; keeps_trace|intros _].
  apply quiet_bind; [apply quiet_log_gamma|intros _].
  apply quiet_bind; [apply quiet_restart_due|intros [|]].
  - apply quiet_bind; [apply quiet_update; appends (Log log_restart)|intros _].
    apply quiet_update; keeps_trace.
  - apply quiet_bind; [apply quiet_read|intros x0].
    apply quiet_update; keeps_trace.
Qed.

Lemma quiet_update_slope fm f : quiet (C:=C) (update_slope fm f).
Proof. apply quiet_update; keeps_trace. Qed.

Lemma quiet_descent_check fm i f : quiet (C:=C) (descent_check fm i f).
Proof.
  unfold descent_check.
  apply quiet_bind; [apply quiet_update_slope|intros _].
  apply quiet_bind; [apply quiet_read|intros sl].
  destruct (ge0 sl); [|apply quiet_ret].
  apply quiet_bind; [apply quiet_restart_due|intros [|]].
  - apply quiet_leave.
  - apply quiet_bind; [apply quiet_update; appends (Log log_force)|intros _].
    apply quiet_bind; [apply quiet_update; keeps_trace|intros _].
    apply quiet_update_slope.
Qed.

Lemma quiet_try_body fm Prec i : quiet (C:=C) (try_body fm Prec i).
Proof.
  unfold try_body.
  apply quiet_bind; [apply quiet_search_along|intros eku].
  apply quiet_bind.
  { intros s r s' H. apply refresh_keeps in H.
    exists [Gradients i]. split; [apply H|reflexivity]. }
  intros f.
  apply quiet_bind; [apply quiet_conjugate_with|intros _].
  apply quiet_bind; [apply quiet_descent_check|intros _].
  apply quiet_report.
Qed.

Lemma quiet_try_body_us fm S_ P i : quiet (C:=C) (try_body_us fm S_ P i).
Proof.
  unfold try_body_us.
  apply quiet_bind; [apply quiet_search_along|intros eku].
  apply quiet_bind.
  { intros s r s' H. apply refresh_us_keeps in H.
    exists [Gradients i]. split; [apply H|reflexivity]. }
  intros f.
  apply quiet_bind; [apply quiet_conjugate_with|intros _].
  apply quiet_bind; [apply quiet_descent_check|intros _].
  apply quiet_report.
Qed.

Lemma quiet_on_DescentError : quiet (C:=C) on_DescentError.
Proof.
  apply quiet_bind; [apply quiet_update; appends (Log log_warning)|intros _].
  apply quiet_return_info.
Qed.

Lemma iterations_of_geodesics (ts : list float) :
  iterations_of (map Geodesic ts) = [].
Proof. induction ts; [reflexivity|assumption]. Qed.

Lemma quiet_on_DescentError_us S_ : quiet (C:=C) (on_DescentError_us S_).
Proof.
  unfold on_DescentError_us.
  apply quiet_bind; [apply quiet_update; appends (Log log_bt_failed)|intros _].
  apply quiet_bind.
  { intros s r s' H. destruct (scan_run S_ (linspace C 0 0x1p-1 10) s)
      as (s1 & Hrun & _ & Htr).
    rewrite Hrun in H. injection H as _ <-.
    eexists. split; [exact Htr|apply iterations_of_geodesics]. }
  intros _.
  apply quiet_bind; [apply quiet_update; appends (Log log_warning)|intros _].
  apply quiet_return_info.
Qed.

(** An iteration writes its "Iteration" line and no other. *)
Lemma iteration_with_logs_once (tb h : stmt (C:=C) unit) fm i s r s' :
  quiet tb -> quiet h ->
  iteration_with tb h fm i s = (r, s') ->
  iterations_of (trace s') = (iterations_of (trace s) ++ [i])%list.
Proof.
  intros Htb Hh H.
  assert (Hq : quiet (C:=C) (sl <- read slope ;;
                      if abs_lt sl (tol fm) then converged i
                      else try_catch_DescentError tb h)%stmt).
  { apply quiet_bind; [apply quiet_read|intros sl].
    destruct (abs_lt sl (tol fm));
      [apply quiet_converged|now apply quiet_try_catch]. }
  unfold iteration_with in H. unfold bind at 1 in H. unfold update in H.
  destruct (Hq _ _ _ H) as (l & Ht & Hl).
  rewrite Ht. cbn [trace emit].
  now rewrite !iterations_of_app, Hl, app_nil_r.
Qed.

(** The iterations a loop of [n] rounds from index [i] records are
    i, i+1, ..., i+k-1 for some k <= n, and k = n when it falls through. *)
Lemma loop_iterations (body : Z -> stmt (C:=C) unit) :
  (forall i s r s', body i s = (r, s') ->
     iterations_of (trace s') = (iterations_of (trace s) ++ [i])%list) ->
  forall n i s r s',
    loop body n i s = (r, s') ->
    exists k, (k <= n)%nat /\
      iterations_of (trace s') =
        (iterations_of (trace s) ++ map (fun j => i + Z.of_nat j) (seq 0 k))%list /\
      (r = Next tt -> k = n).
Proof.
  intros Hbody. induction n as [|n IH]; intros i s r s' H.
  - injection H as <- <-. exists 0%nat. cbn. rewrite app_nil_r. auto.
  - cbn [loop] in H. unfold bind in H.
    destruct (body i s) as [[[]|e] s1] eqn:E.
    + destruct (IH _ _ _ _ H) as (k & Hk & Ht & Hfull).
      exists (Datatypes.S k). split; [lia|]. split.
      * rewrite Ht, (Hbody _ _ _ _ E), <- app_assoc. f_equal.
        cbn [seq map app]. rewrite Z.add_0_r. f_equal.
        rewrite <- seq_shift, map_map. apply map_ext. intros j. lia.
      * intros Hr. now rewrite (Hfull Hr).
    + injection H as <- <-. exists 1%nat. split; [lia|]. split.
      * rewrite (Hbody _ _ _ _ E). cbn. now rewrite Z.add_0_r.
      * discriminate.
Qed.

(** The same for the loop with its final [return]: the iterations recorded
    are 1, ..., k for some k <= maxiter. *)
Lemma for_loop_iterations (body : Z -> stmt (C:=C) unit) maxiter s0 :
  (forall i s r s', body i s = (r, s') ->
     iterations_of (trace s') = (iterations_of (trace s) ++ [i])%list) ->
  exists k, (k <= Z.to_nat maxiter)%nat /\
    iterations_of (trace (snd (for_loop body maxiter s0))) =
      (iterations_of (trace s0) ++ map Z.of_nat (seq 1 k))%list.
Proof.
  intros Hbody. unfold for_loop.
  destruct (maxiter =? INT_MAX).
  - exists 0%nat. split; [lia|]. cbn. now rewrite app_nil_r.
  - unfold bind.
    destruct (loop body (Z.to_nat maxiter) 1 s0) as [[[]|e] s1] eqn:E;
      destruct (loop_iterations body Hbody _ _ _ _ _ E) as (k & Hk & Ht & _);
      exists k; (split; [exact Hk|]); cbn [snd return_info bind read leave];
      rewrite Ht; f_equal; rewrite <- seq_shift, map_map;
      apply map_ext; intros j; lia.
Qed.

(** The last of [maxiter] >= 1 iterations that all fall through leaves its
    summary in [info]. *)
Lemma loop_last_summary (body : Z -> stmt (C:=C) unit) maxiter s0 s :
  (forall i s s', body i s = (Next tt, s') -> info s' = summary_of i s') ->
  1 <= maxiter ->
  loop body (Z.to_nat maxiter) 1 s0 = (Next tt, s) ->
  info s = summary_of maxiter s.
Proof.
  intros Hbody Hm H.
  replace (Z.to_nat maxiter) with (Z.to_nat (maxiter - 1) + 1)%nat in H by lia.
  destruct (loop body (Z.to_nat (maxiter - 1)) 1 s0) as [[[]|e] s1] eqn:E.
  - rewrite (loop_add _ _ _ _ _ _ E) in H. cbn [loop] in H. unfold bind in H.
    replace (1 + Z.of_nat (Z.to_nat (maxiter - 1))) with maxiter in H by lia.
    destruct (body maxiter s1) as [[[]|e] s2] eqn:E2; [|discriminate].
    injection H as <-. exact (Hbody _ _ _ E2).
  - exfalso. revert H E. generalize (Z.to_nat (maxiter - 1)). generalize 1.
    intros i n. revert i s0. induction n as [|n IH]; intros i s0 H E.
    + discriminate.
    + cbn [Nat.add loop] in *. unfold bind in *.
      destruct (body i s0) as [[[]|e'] s2]; [|discriminate].
      now apply (IH _ _ H E).
Qed.

End IterationCount.

(** C7.  In both drivers, for the loop entered with any locals [s0]: the
    iterations the run records are 1, 2, ..., k for some k <= maxiter; and
    when 1 <= maxiter and all of the iterations 1, ..., maxiter fall through
    (none converges, none leaves), the run ends in [return info;] with the
    summary the iteration [maxiter] emitted, as an ordinary return value. *)
Theorem C7_at_most_maxiter_iterations :
  forall (C : Collaborators) (fm : frame C) (maxiter : Z) (s0 : state C),
    (forall Prec,
        (exists k, (k <= Z.to_nat maxiter)%nat /\
           iterations_of
             (trace (snd (for_loop (iteration fm Prec) maxiter s0))) =
             (iterations_of (trace s0) ++ map Z.of_nat (seq 1 k))%list) /\
        (forall s,
            1 <= maxiter < INT_MAX ->
            loop (iteration fm Prec) (Z.to_nat maxiter) 1 s0 = (Next tt, s) ->
            outcome (for_loop (iteration fm Prec) maxiter s0) =
              (Return (info s), free_energy s, trace s) /\
            info s = summary_of maxiter s /\
            iterations_of (trace s) =
              (iterations_of (trace s0)
                 ++ map Z.of_nat (seq 1 (Z.to_nat maxiter)))%list)) /\
    (forall S_ P,
        (exists k, (k <= Z.to_nat maxiter)%nat /\
           iterations_of
             (trace (snd (for_loop (iteration_us fm S_ P) maxiter s0))) =
             (iterations_of (trace s0) ++ map Z.of_nat (seq 1 k))%list) /\
        (forall s,
            1 <= maxiter < INT_MAX ->
            loop (iteration_us fm S_ P) (Z.to_nat maxiter) 1 s0 = (Next tt, s) ->
            outcome (for_loop (iteration_us fm S_ P) maxiter s0) =
              (Return (info s), free_energy s, trace s) /\
            info s = summary_of maxiter s /\
            iterations_of (trace s) =
              (iterations_of (trace s0)
                 ++ map Z.of_nat (seq 1 (Z.to_nat maxiter)))%list)).
Proof.
  intros C fm maxiter s0.
  assert (Hn : forall Prec i s r s', iteration fm Prec i s = (r, s') ->
            iterations_of (trace s') = (iterations_of (trace s) ++ [i])%list).
  { intros Prec i s r s'. apply iteration_with_logs_once;
      [apply quiet_try_body|apply quiet_on_DescentError]. }
  assert (Hu : forall S_ P i s r s', iteration_us fm S_ P i s = (r, s') ->
            iterations_of (trace s') = (iterations_of (trace s) ++ [i])%list).
  { intros S_ P i s r s'. apply iteration_with_logs_once;
      [apply quiet_try_body_us|apply quiet_on_DescentError_us]. }
  split.
  - intros Prec. split; [apply for_loop_iterations, Hn|].
    intros s Hm Hrun. split; [|split].
    + rewrite (for_loop_exhausted _ _ _ _ (proj2 Hm) Hrun). reflexivity.
    + apply (loop_last_summary (iteration fm Prec) maxiter s0);
        [|lia|exact Hrun].
      intros i s1 s2 H. now apply iteration_next in H.
    + destruct (loop_iterations _ (Hn Prec) _ _ _ _ _ Hrun) as (k & _ & Ht & Hk).
      rewrite Ht, (Hk eq_refl). f_equal.
      rewrite <- seq_shift, map_map. apply map_ext. intros j. lia.
  - intros S_ P. split; [apply for_loop_iterations, Hu|].
    intros s Hm Hrun. split; [|split].
    + rewrite (for_loop_exhausted _ _ _ _ (proj2 Hm) Hrun). reflexivity.
    + apply (loop_last_summary (iteration_us fm S_ P) maxiter s0);
        [|lia|exact Hrun].
      intros i s1 s2 H. now apply iteration_us_next in H.
    + destruct (loop_iterations _ (Hu S_ P) _ _ _ _ _ Hrun)
        as (k & _ & Ht & Hk).
      rewrite Ht, (Hk eq_refl). f_equal.
      rewrite <- seq_shift, map_map. apply map_ext. intros j. lia.
Qed.

(** On the scripted model with maxiter = 2: both iterations fall through and
    the run returns the summary of iteration 2. *)
Lemma C7_witness :
  let e := Toy.start 1 (-1) [Some (-2, 1); Some (0x1p-1, -0x1p-1);
                             Some (0x1p-2, -0x1p-2)]%float in
  let fm := fst (Toy.entry e) in
  let s0 := snd (Toy.entry e) in
  exists s,
    loop (iteration fm tt) (Z.to_nat 2) 1 s0 = (Next tt, s) /\
    fst (fst (outcome (for_loop (iteration fm tt) 2 s0))) =
      Return (mk_info 0x1p-2 0 (-0x1.8p-3) 2) /\
    iterations_of (trace s) = [1; 2].
Proof.
  intros e fm s0.
  set (s := snd (loop (iteration fm tt) (Z.to_nat 2) 1 s0)).
  assert (Hrun : loop (iteration fm tt) (Z.to_nat 2) 1 s0 = (Next tt, s))
    by (vm_compute; reflexivity).
  assert (Hm : 1 <= 2 < INT_MAX) by (unfold INT_MAX; lia).
  exists s. split; [exact Hrun|].
  destruct (C7_at_most_maxiter_iterations Toy.collaborators fm 2 s0) as [H _].
  destruct (H tt) as (_ & Hex).
  destruct (Hex s Hm Hrun) as (Hout & _ & Hit).
  split.
  - rewrite Hout. vm_compute. reflexivity.
  - rewrite Hit. vm_compute. reflexivity.
Defined.

(** * Further properties of the drivers *)

(** ** The cases of one iteration *)

Section IterationCases.

Context {C : Collaborators}.
Implicit Types (fm : frame C) (f : fresh C) (s : state C).

Lemma conjugate_with_undefined conj_x fm i u f s :
  gt0 (fr_new_of fm f) = false ->
  restart fm = 0 ->
  conjugate_with conj_x fm i u f s =
    (Exit Undefined, set_fr (fr_new_of fm f) s).
Proof.
  intros Hfr Hr. unfold conjugate_with. unfold_stmt.
  fold (fr_new_of fm f). rewrite Hfr.
  unfold log_gamma, rem_is_0. now rewrite Hr.
Qed.

(** How the part of the [try] block after the refetch ends. *)
Lemma after_refetch_cases conj_x fm i u f s2 r s' :
  after_refetch conj_x fm i u f s2 = (r, s') ->
  (gt0 (fr_new_of fm f) = true /\
   r = Exit (Throw (runtime_error
                      (msg_increasing ++ format_g5 C (fr_new_of fm f)))) /\
   s' = s2) \/
  (gt0 (fr_new_of fm f) = false /\ restart fm = 0 /\
   r = Exit Undefined /\ s' = set_fr (fr_new_of fm f) s2) \/
  (gt0 (fr_new_of fm f) = false /\ restart fm <> 0 /\
   exists s3,
     conjugate_with conj_x fm i u f s2 = (Next tt, s3) /\
     let due := (Z.rem i (restart fm) =? 0) || force_restart s3 in
     let sxe := slope_along fm f (Z_x s3) (Z_eta s3) in
     let s4 := set_slope sxe (fst sxe + snd sxe)%float s3 in
     let sxe' := slope_along fm f (delta_x f) (delta_eta f) in
     (ge0 (fst sxe + snd sxe)%float = false /\
      r = Next tt /\ s' = reported i s4) \/
     (ge0 (fst sxe + snd sxe)%float = true /\ due = true /\
      r = Exit (Throw (runtime_error msg_no_descent)) /\ s' = s4) \/
     (ge0 (fst sxe + snd sxe)%float = true /\ due = false /\
      r = Next tt /\
      s' = reported i
             (set_slope sxe' (fst sxe' + snd sxe')%float
                (set_Z (delta_x f) (delta_eta f) (emit (Log log_force) s4))))).
Proof.
  unfold after_refetch. intros H.
  destruct (gt0 (fr_new_of fm f)) eqn:Hfr.
  - left. rewrite (bind_exit _ _ _ _ _ (conjugate_with_throws conj_x fm i u f s2 Hfr)) in H.
    injection H as <- <-. auto.
  - right. destruct (Z.eq_dec (restart fm) 0) as [Hr|Hr].
    + left.
      rewrite (bind_exit _ _ _ _ _ (conjugate_with_undefined conj_x fm i u f s2 Hfr Hr)) in H.
      injection H as <- <-. auto.
    + right. split; [reflexivity|]. split; [exact Hr|].
      destruct (conjugate_with_updates conj_x fm i u f s2 Hr Hfr)
        as (s3 & Hrun & _).
      exists s3. split; [exact Hrun|].
      rewrite (bind_next _ _ _ _ _ Hrun) in H. cbv zeta.
      destruct (ge0 (fst (slope_along fm f (Z_x s3) (Z_eta s3)) +
                     snd (slope_along fm f (Z_x s3) (Z_eta s3)))%float) eqn:Hge.
      * right. pose proof (descent_check_nondescending fm i f s3 Hr Hge) as Hd.
        destruct ((Z.rem i (restart fm) =? 0) || force_restart s3).
        -- left. rewrite (bind_exit _ _ _ _ _ Hd) in H.
           injection H as <- <-. auto.
        -- right. cbv zeta in Hd. rewrite (bind_next _ _ _ _ _ Hd) in H.
           rewrite report_run in H. injection H as <- <-. auto.
      * left. assert (Hd : descent_check fm i f s3 =
                  (Next tt, set_slope (slope_along fm f (Z_x s3) (Z_eta s3))
                     (fst (slope_along fm f (Z_x s3) (Z_eta s3)) +
                      snd (slope_along fm f (Z_x s3) (Z_eta s3)))%float s3)).
        { unfold descent_check, update_slope. unfold_stmt.
          fold (slope_along fm f (Z_x s3) (Z_eta s3)).
          cbn [slope set_slope]. now rewrite Hge. }
        rewrite (bind_next _ _ _ _ _ Hd), report_run in H.
        injection H as <- <-. auto.
Qed.

(** How a line search ends. *)
Lemma search_along_cases G fm i s r s' :
  search_along G fm i s = (r, s') ->
  exists res fe' flag',
    ls_call C (ls fm) (G s) (free_energy s) (slope s) (force_restart s) =
      (res, fe', flag') /\
    s' = searched i fe' flag' s /\
    r = match res with
        | inl ek_ul => Next ek_ul
        | inr e => Exit (Throw e)
        end.
Proof.
  unfold search_along.
  destruct (ls_call C (ls fm) (G s) (free_energy s) (slope s) (force_restart s))
    as [[res fe'] flag'].
  intros H. exists res, fe', flag'. split; [reflexivity|].
  destruct res; injection H as <- <-; auto.
Qed.

(** How the [try] block of [nlcg] ends. *)
Lemma try_body_cases fm Prec i s r s' :
  try_body fm Prec i s = (r, s') ->
  exists res fe' flag',
    ls_call C (ls fm) (G_nlcg s) (free_energy s) (slope s) (force_restart s) =
      (res, fe', flag') /\
    match res with
    | inr e => r = Exit (Throw e) /\ s' = searched i fe' flag' s
    | inl ek_ul =>
        let s2 := refetched i (fst ek_ul) (searched i fe' flag' s) in
        exists f,
          fni f = get_fn C fe' /\
          delta_x f = steepest_x Prec s2 /\
          delta_eta f = steepest_eta fm (fst ek_ul) s2 /\
          after_refetch (conjugatex C) fm i (snd ek_ul) f s2 = (r, s')
    end.
Proof.
  unfold try_body, search. intros H. unfold bind at 1 in H.
  destruct (search_along G_nlcg fm i s) as [[ek_ul|e] s1] eqn:Hs;
    destruct (search_along_cases _ _ _ _ _ _ Hs)
      as (res & fe' & flag' & Hcall & -> & Hr);
    exists res, fe', flag'; (split; [exact Hcall|]);
    destruct res as [x|x]; try discriminate; injection Hr as <-.
  - unfold bind at 1 in H. unfold refresh in H at 1. cbv zeta.
    match type of H with
    | context [conjugate _ _ _ ?f0] => exists f0
    end.
    repeat (split; [reflexivity|]). exact H.
  - injection H as <- <-. auto.
Qed.

(** How the [try] block of [nlcg_us] ends. *)
Lemma try_body_us_cases fm S_ P i s r s' :
  try_body_us fm S_ P i s = (r, s') ->
  exists res fe' flag',
    ls_call C (ls fm) (G_us S_ s) (free_energy s) (slope s) (force_restart s) =
      (res, fe', flag') /\
    match res with
    | inr e => r = Exit (Throw e) /\ s' = searched i fe' flag' s
    | inl ek_ul =>
        let s2 := refetched i (fst ek_ul) (searched i fe' flag' s) in
        let SX := tapply_op C S_ (X s2) in
        exists f,
          fni f = get_fn C fe' /\
          delta_x f = steepest_x_us S_ P s2 /\
          delta_eta f = steepest_eta fm (fst ek_ul) s2 /\
          after_refetch (fun d z x g => conjugatex_us C d z x SX g)
                        fm i (snd ek_ul) f s2 = (r, s')
    end.
Proof.
  unfold try_body_us, search_us. intros H. unfold bind at 1 in H.
  destruct (search_along (G_us S_) fm i s) as [[ek_ul|e] s1] eqn:Hs;
    destruct (search_along_cases _ _ _ _ _ _ Hs)
      as (res & fe' & flag' & Hcall & -> & Hr);
    exists res, fe', flag'; (split; [exact Hcall|]);
    destruct res as [x|x]; try discriminate; injection Hr as <-.
  - unfold bind at 1 in H. unfold refresh_us in H at 1. cbv zeta.
    match type of H with
    | context [conjugate_us _ _ _ _ ?f0] => exists f0
    end.
    repeat (split; [reflexivity|]). exact H.
  - injection H as <- <-. auto.
Qed.

End IterationCases.

(** ** The cases of a run *)

Section RunCases.

Context {C : Collaborators}.
Implicit Types (fm : frame C) (s : state C) (body : Z -> stmt (C:=C) unit).

(** An iteration converges, or ends as its [try] block does, or as the
    handler does when the [try] block throws [DescentError]. *)
Lemma iteration_with_cases (tb h : stmt (C:=C) unit) fm i s r s' :
  iteration_with tb h fm i s = (r, s') ->
  (abs_lt (slope s) (tol fm) = true /\
   r = Exit (Return (summary_of i s)) /\
   s' = emit (Log log_success) (reported i (emit (LogIteration i) s))) \/
  (abs_lt (slope s) (tol fm) = false /\
   exists rb sb,
     tb (emit (LogIteration i) s) = (rb, sb) /\
     ((rb = Exit (Throw DescentError) /\ h sb = (r, s')) \/
      (rb <> Exit (Throw DescentError) /\ r = rb /\ s' = sb))).
Proof.
  destruct (abs_lt (slope s) (tol fm)) eqn:Hc; intros H.
  - left. rewrite (iteration_with_converged _ _ _ _ _ Hc), converged_run in H.
    injection H as <- <-. auto.
  - right. split; [reflexivity|].
    rewrite (iteration_with_searching _ _ _ _ _ Hc) in H.
    unfold try_catch_DescentError in H.
    destruct (tb (emit (LogIteration i) s)) as [rb sb].
    exists rb, sb. split; [reflexivity|].
    destruct rb as [[]|[x|[w|]|]];
      try (right; injection H as <- <-; split; [discriminate|auto]).
    left. auto.
Qed.

(** A loop whose iterations keep [Inv] either falls through with [Inv] or
    leaves from an iteration that was entered with [Inv]. *)
Lemma loop_cases (Inv : Z -> state C -> Prop) body :
  (forall i s s', Inv i s -> body i s = (Next tt, s') -> Inv (i + 1) s') ->
  forall n i s r s',
    Inv i s -> loop body n i s = (r, s') ->
    (r = Next tt /\ Inv (i + Z.of_nat n) s') \/
    (exists j sj e,
        i <= j < i + Z.of_nat n /\ Inv j sj /\
        body j sj = (Exit e, s') /\ r = Exit e).
Proof.
  intros Hstep. induction n as [|n IH]; intros i s r s' Hinv H.
  - injection H as <- <-. left. split; [reflexivity|].
    now rewrite Z.add_0_r.
  - cbn [loop] in H. unfold bind in H.
    destruct (body i s) as [[[]|e] s1] eqn:E.
    + destruct (IH _ _ _ _ (Hstep _ _ _ Hinv E) H)
        as [(-> & Hinv')|(j & sj & e & Hj & Hinvj & Hb & ->)].
      * left. split; [reflexivity|].
        replace (i + Z.of_nat (Datatypes.S n)) with (i + 1 + Z.of_nat n) by lia.
        exact Hinv'.
      * right. exists j, sj, e. repeat split; try assumption; lia.
    + injection H as <- <-. right. exists i, s, e.
      repeat split; try assumption; lia.
Qed.

(** The same for the loop with its final [return]. *)
Lemma for_loop_cases (Inv : Z -> state C -> Prop) body :
  (forall i s s', Inv i s -> body i s = (Next tt, s') -> Inv (i + 1) s') ->
  forall maxiter s0 r s',
    Inv 1 s0 -> for_loop body maxiter s0 = (r, s') ->
    (maxiter = INT_MAX /\ r = Exit Undefined /\ s' = s0) \/
    (exists j sj e,
        1 <= j <= maxiter /\ Inv j sj /\
        body j sj = (Exit e, s') /\ r = Exit e) \/
    (maxiter <> INT_MAX /\ Inv (1 + Z.of_nat (Z.to_nat maxiter)) s' /\
     loop body (Z.to_nat maxiter) 1 s0 = (Next tt, s') /\
     r = Exit (Return (info s'))).
Proof.
  intros Hstep maxiter s0 r s' Hinv H. unfold for_loop in H.
  destruct (maxiter =? INT_MAX) eqn:Hm.
  - left. apply Z.eqb_eq in Hm. injection H as <- <-. auto.
  - right. apply Z.eqb_neq in Hm. unfold bind in H.
    destruct (loop body (Z.to_nat maxiter) 1 s0) as [[[]|e] s1] eqn:E.
    + right. injection H as <- <-.
      destruct (loop_cases Inv body Hstep _ _ _ _ _ Hinv E)
        as [(_ & Hinv')|(j & sj & e & _ & _ & _ & Hr)]; [auto|discriminate].
    + left. injection H as <- <-.
      destruct (loop_cases Inv body Hstep _ _ _ _ _ Hinv E)
        as [(Hr & _)|(j & sj & e' & Hj & Hinvj & Hb & Hr)]; [discriminate|].
      injection Hr as <-. exists j, sj, e. repeat split; try assumption; lia.
Qed.

(** The handlers return [info]. *)
Lemma on_DescentError_cases s r s' :
  on_DescentError s = (r, s') ->
  r = Exit (Return (info s)) /\
  s' = emit (Log log_warning) s.
Proof. rewrite on_DescentError_run. intros H. injection H as <- <-. auto. Qed.

Lemma on_DescentError_us_cases S_ s r s' :
  on_DescentError_us S_ s = (r, s') ->
  r = Exit (Return (info s)) /\
  trace s' = (trace s ++ Log log_bt_failed
                :: map Geodesic (linspace C 0 0x1p-1 10)
                ++ [Log log_warning])%list.
Proof.
  destruct (on_DescentError_us_run S_ s) as (s1 & -> & Htr).
  intros H. injection H as <- <-. auto.
Qed.

End RunCases.

(** ** A restart period of zero *)

Section ZeroPeriod.

Context {C : Collaborators}.
Implicit Types (fm : frame C) (s : state C).

Lemma after_refetch_stuck conj_x fm i u f s2 s' :
  restart fm = 0 ->
  after_refetch conj_x fm i u f s2 <> (Next tt, s').
Proof.
  intros Hr H. apply after_refetch_cases in H.
  destruct H as [(_ & Hx & _)|[(_ & _ & Hx & _)|(_ & H0 & _)]];
    [discriminate|discriminate|contradiction].
Qed.

Lemma iteration_stuck fm Prec i s s' :
  restart fm = 0 -> iteration fm Prec i s <> (Next tt, s').
Proof.
  intros Hr H. apply iteration_with_cases in H.
  destruct H as [(_ & Hx & _)|(_ & rb & sb & Hb & [(_ & Hh)|(_ & <- & <-)])].
  - discriminate.
  - apply on_DescentError_cases in Hh. destruct Hh as (Hx & _). discriminate.
  - apply try_body_cases in Hb.
    destruct Hb as ([ek_ul|e0] & fe' & flag' & _ & H).
    + cbv zeta in H. destruct H as (f & _ & _ & _ & H).
      now apply after_refetch_stuck in H.
    + destruct H as (Hx & _). discriminate.
Qed.

Lemma iteration_us_stuck fm S_ P i s s' :
  restart fm = 0 -> iteration_us fm S_ P i s <> (Next tt, s').
Proof.
  intros Hr H. apply iteration_with_cases in H.
  destruct H as [(_ & Hx & _)|(_ & rb & sb & Hb & [(_ & Hh)|(_ & <- & <-)])].
  - discriminate.
  - apply on_DescentError_us_cases in Hh. destruct Hh as (Hx & _). discriminate.
  - apply try_body_us_cases in Hb.
    destruct Hb as ([ek_ul|e0] & fe' & flag' & _ & H).
    + cbv zeta in H. destruct H as (f & _ & _ & _ & H).
      now apply after_refetch_stuck in H.
    + destruct H as (Hx & _). discriminate.
Qed.

(** A loop whose body never falls through runs its body at most once. *)
Lemma for_loop_stuck (body : Z -> stmt (C:=C) unit) maxiter s0 :
  (forall i s s1, body i s <> (Next tt, s1)) ->
  for_loop body maxiter s0 = (Exit Undefined, s0) \/
  for_loop body maxiter s0 = (Exit (Return (info s0)), s0) \/
  exists e s', body 1 s0 = (Exit e, s') /\
               for_loop body maxiter s0 = (Exit e, s').
Proof.
  intros Hbody. unfold for_loop.
  destruct (maxiter =? INT_MAX); [now left|right].
  destruct (Z.to_nat maxiter) as [|n]; [now left|right].
  cbn [loop]. unfold bind at 1 2.
  destruct (body 1 s0) as [[[]|e] s1] eqn:E.
  - exfalso. exact (Hbody _ _ _ E).
  - exists e, s1. auto.
Qed.

Lemma nlcg_init_frame memspace xspace (energy_base : energy C) smear
    T tol0 kappa tau0 restart0 fm Prec s0 :
  nlcg_init memspace xspace energy_base smear T tol0 kappa tau0 restart0 =
    (fm, Prec, s0) ->
  tol fm = tol0 /\ restart fm = restart0 /\
  info s0 = default_info C /\ trace s0 = [Compute; Compute] /\
  force_restart s0 = false /\
  slope s0 = (fst (slope_x_eta s0) + snd (slope_x_eta s0))%float /\
  X s0 = get_X C (free_energy s0) /\ Hx s0 = get_HX C (free_energy s0) /\
  Z_x s0 = steepest_x Prec s0.
Proof.
  unfold nlcg_init. intros H. injection H as <- <- <-. repeat split.
Qed.

Lemma nlcg_us_init_frame memspace xspace (energy_base : energy C) upb ob smear
    T tol0 kappa tau0 restart0 fm S_ P s0 :
  nlcg_us_init memspace xspace energy_base upb ob smear T tol0 kappa tau0
               restart0 = (fm, S_, P, s0) ->
  tol fm = tol0 /\ restart fm = restart0 /\
  info s0 = default_info C /\ trace s0 = [Compute; Compute] /\
  force_restart s0 = false /\
  slope s0 = (fst (slope_x_eta s0) + snd (slope_x_eta s0))%float /\
  X s0 = get_X C (free_energy s0) /\ Hx s0 = get_HX C (free_energy s0) /\
  Z_x s0 = steepest_x_us S_ P s0.
Proof.
  unfold nlcg_us_init. intros H. injection H as <- <- <- <-. repeat split.
Qed.

End ZeroPeriod.

(** X3.  With restart = 0 no iteration of [nlcg] or [nlcg_us] runs to its
    end: an iteration converges, or its line search throws, or the
    conjugation scalar is positive, or it gets to [i % restart] with a zero
    divisor (line 191, resp. 426).  So a run enters at most one iteration. *)
Theorem X3_zero_restart_period :
  forall (C : Collaborators) (memspace xspace : space) (energy_base : energy C)
         (smear : smearing_type) (T : float) (maxiter : Z)
         (tol kappa tau : float),
    (forall fm Prec s0 i s s',
        nlcg_init memspace xspace energy_base smear T tol kappa tau 0 =
          (fm, Prec, s0) ->
        iteration fm Prec i s <> (Next tt, s')) /\
    (length (iterations_of
               (snd (nlcg memspace xspace energy_base smear T maxiter tol kappa
                          tau 0))) <= 1)%nat /\
    (forall us_precond_base overlap_base,
        (forall fm S_ P s0 i s s',
            nlcg_us_init memspace xspace energy_base us_precond_base
                         overlap_base smear T tol kappa tau 0 = (fm, S_, P, s0) ->
            iteration_us fm S_ P i s <> (Next tt, s')) /\
        (length (iterations_of
                   (snd (nlcg_us memspace xspace energy_base us_precond_base
                                 overlap_base smear T maxiter tol kappa tau 0)))
         <= 1)%nat).
Proof.
  intros C memspace xspace energy_base smear T maxiter tol0 kappa tau0.
  split; [|split].
  - intros fm Prec s0 i s s' Hinit. apply nlcg_init_frame in Hinit.
    apply iteration_stuck. tauto.
  - unfold nlcg.
    destruct (nlcg_init memspace xspace energy_base smear T tol0 kappa tau0 0)
      as [[fm Prec] s0] eqn:Hinit.
    apply nlcg_init_frame in Hinit. destruct Hinit as (_ & Hrf & _ & Htr & _).
    destruct (ge0 (slope s0)); cbn [snd]; [rewrite Htr; cbn; lia|].
    unfold outcome. cbn [snd].
    destruct (for_loop_stuck (iteration fm Prec) maxiter s0
                (fun i s s1 => iteration_stuck fm Prec i s s1 Hrf))
      as [->|[->|(e & s' & Hb & ->)]]; cbn [snd]; try (rewrite Htr; cbn; lia).
    rewrite (iteration_with_logs_once _ _ _ _ _ _ _
               (quiet_try_body fm Prec 1) quiet_on_DescentError Hb).
    rewrite Htr. cbn. lia.
  - intros upb ob. split.
    + intros fm S_ P s0 i s s' Hinit. apply nlcg_us_init_frame in Hinit.
      apply iteration_us_stuck. tauto.
    + unfold nlcg_us.
      destruct (nlcg_us_init memspace xspace energy_base upb ob smear T tol0
                             kappa tau0 0) as [[[fm S_] P] s0] eqn:Hinit.
      apply nlcg_us_init_frame in Hinit.
      destruct Hinit as (_ & Hrf & _ & Htr & _).
      destruct (ge0 (slope s0)); cbn [snd]; [rewrite Htr; cbn; lia|].
      unfold outcome. cbn [snd].
      destruct (for_loop_stuck (iteration_us fm S_ P) maxiter s0
                  (fun i s s1 => iteration_us_stuck fm S_ P i s s1 Hrf))
        as [->|[->|(e & s' & Hb & ->)]]; cbn [snd]; try (rewrite Htr; cbn; lia).
      rewrite (iteration_with_logs_once _ _ _ _ _ _ _
                 (quiet_try_body_us fm S_ P 1) (quiet_on_DescentError_us S_) Hb).
      rewrite Htr. cbn. lia.
Qed.

(** On the scripted model, with restart = 0: the first iteration, whose line
    search returns, does not fall through. *)
Lemma X3_witness :
  let r := nlcg_init (C:=Toy.collaborators) HostSpace HostSpace
             (Toy.start 1 (-1) [Some (-2, 1)%float]) FERMI_DIRAC 1 0x1p-20 1
             0x1p-1 0 in
  r = (fst (fst r), snd (fst r), snd r) /\
  fst (iteration (fst (fst r)) (snd (fst r)) 1 (snd r)) = Exit Undefined /\
  iteration (fst (fst r)) (snd (fst r)) 1 (snd r) <> (Next tt, snd r).
Proof.
  intros r.
  assert (Hinit : r = (fst (fst r), snd (fst r), snd r)) by reflexivity.
  split; [exact Hinit|]. split; [vm_compute; reflexivity|].
  exact (proj1 (X3_zero_restart_period
                  Toy.collaborators HostSpace HostSpace
                  (Toy.start 1 (-1) [Some (-2, 1)%float]) FERMI_DIRAC 1 10
                  0x1p-20 1 0x1p-1)
               (fst (fst r)) (snd (fst r)) (snd r) 1 (snd r) (snd r) Hinit).
Defined.

(** ** What an iteration that falls through leaves *)

Ltac simpl_state :=
  cbv beta iota delta
      [reported summary_of printed_of set_info set_slope set_Z set_fr
       set_force_restart set_free_energy set_fields emit searched refetched
       free_energy Hx X eta Z_x Z_eta slope_x_eta slope fr force_restart info
       trace].

Section FallThrough.

Context {C : Collaborators}.
Implicit Types (fm : frame C) (f : fresh C) (s : state C).

(** The locals after the part of the [try] block that follows the refetch,
    when it falls through. *)
Lemma after_refetch_next conj_x fm i u f s2 s' :
  after_refetch conj_x fm i u f s2 = (Next tt, s') ->
  restart fm <> 0 /\
  gt0 (fr_new_of fm f) = false /\
  fr s' = fr_new_of fm f /\
  free_energy s' = free_energy s2 /\ X s' = X s2 /\ Hx s' = Hx s2 /\
  eta s' = eta s2 /\ force_restart s' = force_restart s2 /\
  info s' = summary_of i s' /\
  slope_x_eta s' = slope_along fm f (Z_x s') (Z_eta s') /\
  slope s' = (fst (slope_x_eta s') + snd (slope_x_eta s'))%float /\
  (exists tr, trace s' = (trace s2 ++ tr ++ [printed_of i s'])%list /\
              filter is_setup tr = []) /\
  let gamma := (fr_new_of fm f / fr s2)%float in
  if (Z.rem i (restart fm) =? 0) || force_restart s2
  then (Z_x s', Z_eta s') = (delta_x f, delta_eta f) /\
       ge0 (slope s') = false
  else ((Z_x s', Z_eta s') =
          (conj_x (delta_x f) (rotateX C (Z_x s2) u) (X s2) gamma,
           conjugateeta C (delta_eta f) (rotateEta C (Z_eta s2) u) gamma) /\
        ge0 (slope s') = false) \/
       ((Z_x s', Z_eta s') = (delta_x f, delta_eta f) /\
        In (Log log_force) (trace s')).
Proof.
  intros H. apply after_refetch_cases in H.
  destruct H as [(_ & Hx & _)|[(_ & _ & Hx & _)|(Hfr & Hr & s3 & Hrun & H)]];
    try discriminate.
  split; [exact Hr|]. split; [exact Hfr|].
  destruct (conjugate_with_updates conj_x fm i u f s2 Hr Hfr)
    as (s3' & Hrun' & Hfr3 & Hfe & HX & HHx & Heta & Hflag & Hinfo & Hsl & Hsxe & Hz).
  rewrite Hrun in Hrun'. injection Hrun' as <-.
  cbv zeta in H. rewrite Hflag in H.
  destruct s3 as [fe3 hx3 x3 e3 zx3 ze3 sxe3 sl3 fr3 flag3 inf3 tr3].
  destruct s2 as [fe2 hx2 x2 e2 zx2 ze2 sxe2 sl2 fr2 flag2 inf2 tr2].
  cbn [free_energy Hx X eta Z_x Z_eta slope_x_eta slope fr force_restart info
       trace] in *.
  subst fe3 hx3 x3 e3 fr3 flag3.
  destruct H as [(Hge & _ & ->)|[(_ & _ & Hx & _)|(Hge & Hdue & _ & ->)]];
    try discriminate.
  - simpl_state. repeat (split; [reflexivity|]).
    split.
    { destruct ((Z.rem i (restart fm) =? 0) || flag2);
        destruct Hz as (_ & _ & ->);
        [ exists (gamma_line (Z.rem i (restart fm) =? 0) flag2
                    (fr_new_of fm f / fr2) ++ [Log log_restart])%list
        | exists (gamma_line (Z.rem i (restart fm) =? 0) flag2
                    (fr_new_of fm f / fr2)) ];
        (split; [now rewrite <- !app_assoc|]);
        unfold gamma_line;
        destruct (negb _); reflexivity. }
    destruct ((Z.rem i (restart fm) =? 0) || flag2).
    + destruct Hz as (-> & -> & _). auto.
    + left. destruct Hz as (-> & -> & _). auto.
  - rewrite Hdue in Hz. simpl_state. rewrite Hdue. repeat (split; [reflexivity|]).
    split.
    { destruct Hz as (_ & _ & ->).
      exists (gamma_line (Z.rem i (restart fm) =? 0) flag2
                (fr_new_of fm f / fr2) ++ [Log log_force])%list.
      split; [now rewrite <- !app_assoc|].
      unfold gamma_line. destruct (negb _); reflexivity. }
    right. split; [reflexivity|].
    rewrite !in_app_iff. left. right. now left.
Qed.

(** The same for a whole iteration of [nlcg]. *)
Lemma iteration_next_facts fm Prec i s s' :
  iteration fm Prec i s = (Next tt, s') ->
  exists ek_ul flag f u,
    ls_call C (ls fm) (G_nlcg s) (free_energy s) (slope s) (force_restart s) =
      (inl ek_ul, free_energy s', flag) /\
    abs_lt (slope s) (tol fm) = false /\
    X s' = get_X C (free_energy s') /\ Hx s' = get_HX C (free_energy s') /\
    eta s' = make_diag C (fst ek_ul) /\
    force_restart s' = flag /\
    delta_x f = steepest_x Prec s' /\
    delta_eta f = steepest_eta fm (fst ek_ul) s' /\
    (exists tr,
        trace s' = (trace s ++ LogIteration i :: LineSearch i :: Gradients i
                      :: tr ++ [printed_of i s'])%list /\
        filter is_setup tr = []) /\
    after_refetch (conjugatex C) fm i u f
                  (refetched i (fst ek_ul)
                     (searched i (free_energy s') flag (emit (LogIteration i) s)))
      = (Next tt, s').
Proof.
  intros H. apply iteration_with_cases in H.
  destruct H as [(_ & Hx & _)|(Hc & rb & sb & Hb & [(_ & Hh)|(_ & <- & <-)])].
  - discriminate.
  - apply on_DescentError_cases in Hh. destruct Hh as (Hx & _). discriminate.
  - apply try_body_cases in Hb.
    destruct Hb as ([ek_ul|e0] & fe' & flag' & Hcall & H).
    + cbv zeta in H. destruct H as (f & _ & Hdx & Hde & H).
      pose proof (after_refetch_next _ _ _ _ _ _ _ H)
        as (_ & _ & _ & Hfe & HX & HHx & Heta & Hflag & _ & _ & _ & Htr & _).
      cbn in Hfe. subst fe'.
      exists ek_ul, flag', f, (snd ek_ul).
      split; [exact Hcall|]. split; [exact Hc|].
      split; [rewrite HX; reflexivity|]. split; [rewrite HHx; reflexivity|].
      split; [rewrite Heta; reflexivity|]. split; [rewrite Hflag; reflexivity|].
      split; [rewrite Hdx; unfold steepest_x; now rewrite HX, HHx|].
      split; [rewrite Hde; unfold steepest_eta; now rewrite HX, HHx|].
      split; [|exact H].
      destruct Htr as (tr & Htr & Hq). exists tr. split; [|exact Hq].
      rewrite Htr. cbn. rewrite <- !app_assoc. reflexivity.
    + destruct H as (Hx & _). discriminate.
Qed.

(** The same for a whole iteration of [nlcg_us]. *)
Lemma iteration_us_next_facts fm S_ P i s s' :
  iteration_us fm S_ P i s = (Next tt, s') ->
  exists ek_ul flag f u,
    ls_call C (ls fm) (G_us S_ s) (free_energy s) (slope s) (force_restart s) =
      (inl ek_ul, free_energy s', flag) /\
    abs_lt (slope s) (tol fm) = false /\
    X s' = get_X C (free_energy s') /\ Hx s' = get_HX C (free_energy s') /\
    eta s' = make_diag C (fst ek_ul) /\
    force_restart s' = flag /\
    delta_x f = steepest_x_us S_ P s' /\
    delta_eta f = steepest_eta fm (fst ek_ul) s' /\
    (exists tr,
        trace s' = (trace s ++ LogIteration i :: LineSearch i :: Gradients i
                      :: tr ++ [printed_of i s'])%list /\
        filter is_setup tr = []) /\
    after_refetch
      (fun d z x g => conjugatex_us C d z x (tapply_op C S_ (X s')) g)
      fm i u f
      (refetched i (fst ek_ul)
         (searched i (free_energy s') flag (emit (LogIteration i) s)))
      = (Next tt, s').
Proof.
  intros H. apply iteration_with_cases in H.
  destruct H as [(_ & Hx & _)|(Hc & rb & sb & Hb & [(_ & Hh)|(_ & <- & <-)])].
  - discriminate.
  - apply on_DescentError_us_cases in Hh. destruct Hh as (Hx & _). discriminate.
  - apply try_body_us_cases in Hb.
    destruct Hb as ([ek_ul|e0] & fe' & flag' & Hcall & H).
    + cbv zeta in H. destruct H as (f & _ & Hdx & Hde & H).
      pose proof (after_refetch_next _ _ _ _ _ _ _ H)
        as (_ & _ & _ & Hfe & HX & HHx & Heta & Hflag & _ & _ & _ & Htr & _).
      cbn in Hfe. subst fe'.
      exists ek_ul, flag', f, (snd ek_ul).
      split; [exact Hcall|]. split; [exact Hc|].
      split; [rewrite HX; reflexivity|]. split; [rewrite HHx; reflexivity|].
      split; [rewrite Heta; reflexivity|]. split; [rewrite Hflag; reflexivity|].
      split; [rewrite Hdx; unfold steepest_x_us; now rewrite HX, HHx|].
      split; [rewrite Hde; unfold steepest_eta; now rewrite HX, HHx|].
      split; [|rewrite HX; exact H].
      destruct Htr as (tr & Htr & Hq). exists tr. split; [|exact Hq].
      rewrite Htr. cbn. rewrite <- !app_assoc. reflexivity.
    + destruct H as (Hx & _). discriminate.
Qed.

End FallThrough.

(** ** What the drivers return *)

Section Returned.

Context {C : Collaborators}.
Implicit Types (fm : frame C) (s : state C).

(** The exceptions the part of the [try] block after the refetch raises. *)
Lemma after_refetch_throws conj_x fm i u f s2 e s' :
  after_refetch conj_x fm i u f s2 = (Exit (Throw e), s') ->
  (exists x, e = runtime_error (msg_increasing ++ format_g5 C x)) \/
  e = runtime_error msg_no_descent.
Proof.
  intros H. apply after_refetch_cases in H.
  destruct H as [(_ & Hr & _)|[(_ & _ & Hr & _)|(_ & _ & s3 & _ & H)]].
  - injection Hr as ->. left. eexists. reflexivity.
  - discriminate.
  - cbv zeta in H.
    destruct H as [(_ & Hr & _)|[(_ & _ & Hr & _)|(_ & _ & Hr & _)]];
      try discriminate.
    injection Hr as ->. now right.
Qed.

Lemma after_refetch_no_return conj_x fm i u f s2 r s' :
  after_refetch conj_x fm i u f s2 <> (Exit (Return r), s').
Proof.
  intros H. apply after_refetch_cases in H.
  destruct H as [(_ & Hx & _)|[(_ & _ & Hx & _)|(_ & _ & s3 & _ & H)]];
    try discriminate.
  cbv zeta in H.
  destruct H as [(_ & Hx & _)|[(_ & _ & Hx & _)|(_ & _ & Hx & _)]];
    discriminate.
Qed.

(** The [try] block returns nothing, and when it throws [DescentError] the
    line search did, with [info] as it was. *)
Lemma try_body_leaves fm Prec i s x sb :
  try_body fm Prec i s = (Exit x, sb) ->
  (forall r, x <> Return r) /\
  (x = Throw DescentError ->
   info sb = info s /\ trace sb = (trace s ++ [LineSearch i])%list).
Proof.
  intros H. apply try_body_cases in H.
  destruct H as ([ek_ul|e0] & fe' & flag' & _ & H).
  - cbv zeta in H. destruct H as (f & _ & _ & _ & H). split.
    + intros r ->. now apply after_refetch_no_return in H.
    + intros ->. apply after_refetch_throws in H.
      destruct H as [(y & H)|H]; discriminate.
  - destruct H as (Hx & ->). injection Hx as ->. split; [discriminate|].
    intros _. split; reflexivity.
Qed.

Lemma try_body_us_leaves fm S_ P i s x sb :
  try_body_us fm S_ P i s = (Exit x, sb) ->
  (forall r, x <> Return r) /\
  (x = Throw DescentError ->
   info sb = info s /\ trace sb = (trace s ++ [LineSearch i])%list).
Proof.
  intros H. apply try_body_us_cases in H.
  destruct H as ([ek_ul|e0] & fe' & flag' & _ & H).
  - cbv zeta in H. destruct H as (f & _ & _ & _ & H). split.
    + intros r ->. now apply after_refetch_no_return in H.
    + intros ->. apply after_refetch_throws in H.
      destruct H as [(y & H)|H]; discriminate.
  - destruct H as (Hx & ->). injection Hx as ->. split; [discriminate|].
    intros _. split; reflexivity.
Qed.

(** An iteration returns on convergence, with the summary of the current
    point, or from the handler, with [info] as it was. *)
Lemma iteration_returns fm Prec i s r s' :
  iteration fm Prec i s = (Exit (Return r), s') ->
  (abs_lt (slope s) (tol fm) = true /\ r = summary_of i s /\
   exists tr, trace s' = (tr ++ [Log log_success])%list) \/
  (abs_lt (slope s) (tol fm) = false /\ r = info s /\
   exists tr, trace s' = (tr ++ [Log log_warning])%list).
Proof.
  intros H. apply iteration_with_cases in H.
  destruct H as [(Hc & Hx & ->)|(Hc & rb & sb & Hb & [(-> & Hh)|(_ & <- & <-)])].
  - left. injection Hx as ->. split; [exact Hc|]. split; [reflexivity|].
    eexists. reflexivity.
  - right. apply on_DescentError_cases in Hh. destruct Hh as (Hx & ->).
    apply try_body_leaves in Hb. destruct Hb as (_ & Hb).
    destruct (Hb eq_refl) as (Hinfo & _). injection Hx as ->.
    split; [exact Hc|]. split; [exact Hinfo|]. eexists. reflexivity.
  - apply try_body_leaves in Hb. destruct Hb as (Hb & _). now elim (Hb r).
Qed.

Lemma iteration_us_returns fm S_ P i s r s' :
  iteration_us fm S_ P i s = (Exit (Return r), s') ->
  (abs_lt (slope s) (tol fm) = true /\ r = summary_of i s /\
   exists tr, trace s' = (tr ++ [Log log_success])%list) \/
  (abs_lt (slope s) (tol fm) = false /\ r = info s /\
   exists tr, trace s' = (tr ++ [Log log_warning])%list).
Proof.
  intros H. apply iteration_with_cases in H.
  destruct H as [(Hc & Hx & ->)|(Hc & rb & sb & Hb & [(-> & Hh)|(_ & <- & <-)])].
  - left. injection Hx as ->. split; [exact Hc|]. split; [reflexivity|].
    eexists. reflexivity.
  - right. apply on_DescentError_us_cases in Hh. destruct Hh as (Hx & Htr).
    apply try_body_us_leaves in Hb. destruct Hb as (_ & Hb).
    destruct (Hb eq_refl) as (Hinfo & _). injection Hx as ->.
    split; [exact Hc|]. split; [exact Hinfo|].
    eexists. rewrite Htr. rewrite app_comm_cons, app_assoc. reflexivity.
  - apply try_body_us_leaves in Hb. destruct Hb as (Hb & _). now elim (Hb r).
Qed.

(** What the loop with its final [return] returns, for a body that returns
    as the iterations of the drivers do and leaves its summary in [info]
    when it falls through. *)
Lemma for_loop_returns (body : Z -> stmt (C:=C) unit) (tol0 : float) maxiter
    s0 r s' :
  (forall i s x s1, body i s = (Exit (Return x), s1) ->
     (abs_lt (slope s) tol0 = true /\ x = summary_of i s /\
      exists tr, trace s1 = (tr ++ [Log log_success])%list) \/
     (x = info s /\ exists tr, trace s1 = (tr ++ [Log log_warning])%list)) ->
  (forall i s s1, body i s = (Next tt, s1) ->
     info s1 = summary_of i s1 /\
     slope s1 = (fst (slope_x_eta s1) + snd (slope_x_eta s1))%float /\
     exists tr, trace s1 = (tr ++ [printed_of i s1])%list) ->
  slope s0 = (fst (slope_x_eta s0) + snd (slope_x_eta s0))%float ->
  (exists tr e, trace s0 = (tr ++ [e])%list /\ e <> Log log_success) ->
  for_loop body maxiter s0 = (Exit (Return r), s') ->
  (r = info s0 \/ 1 <= iter r <= maxiter) /\
  ((exists tr, trace s' = (tr ++ [Log log_success])%list) ->
   abs_lt (tolerance r) tol0 = true /\ 1 <= iter r <= maxiter).
Proof.
  intros Hret Hnext Hsl0 Htr0 H.
  apply (for_loop_cases
           (fun i s =>
              1 <= i /\
              (info s = info s0 \/ 1 <= iter (info s) < i) /\
              slope s = (fst (slope_x_eta s) + snd (slope_x_eta s))%float /\
              exists tr e, trace s = (tr ++ [e])%list /\ e <> Log log_success))
    in H.
  - destruct H as [(_ & Hx & _)|[(j & sj & x & Hj & Hinv & Hb & Hx)
                                |(_ & Hinv & _ & Hx)]];
      [discriminate| |].
    + injection Hx as <-. destruct Hinv as (_ & Hinfo & Hsl & _).
      destruct (Hret _ _ _ _ Hb) as [(Hc & -> & _)|(-> & tr & Htr)].
      * split; [right; cbn; lia|]. intros _. cbn [tolerance iter summary_of].
        rewrite <- Hsl. split; [exact Hc|lia].
      * split; [destruct Hinfo as [->|Hinfo]; [now left|right; lia]|].
        intros (tr' & Htr'). rewrite Htr in Htr'.
        apply app_inj_tail in Htr'. destruct Htr' as (_ & Hx). discriminate.
    + injection Hx as ->. destruct Hinv as (_ & Hinfo & _ & tr & e & Htr & He).
      split; [destruct Hinfo as [->|Hinfo]; [now left|right; lia]|].
      intros (tr' & Htr'). rewrite Htr in Htr'.
      apply app_inj_tail in Htr'. destruct Htr' as (_ & ->). now elim He.
  - intros i s s1 (Hi & _ & _ & _) Hb.
    destruct (Hnext _ _ _ Hb) as (Hinfo & Hsl & tr & Htr).
    split; [lia|]. split; [right; rewrite Hinfo; cbn; lia|].
    split; [exact Hsl|]. exists tr, (printed_of i s1).
    split; [exact Htr|discriminate].
  - split; [lia|]. split; [now left|]. split; [exact Hsl0|exact Htr0].
Qed.

Lemma iteration_falls_through fm Prec i s s1 :
  iteration fm Prec i s = (Next tt, s1) ->
  info s1 = summary_of i s1 /\
  slope s1 = (fst (slope_x_eta s1) + snd (slope_x_eta s1))%float /\
  exists tr, trace s1 = (tr ++ [printed_of i s1])%list.
Proof.
  intros H. destruct (iteration_next _ _ _ _ _ H) as (Hinfo & Htr).
  split; [exact Hinfo|]. split; [|exact Htr].
  apply iteration_next_facts in H.
  destruct H as (ek_ul & flag & f & u & _ & _ & _ & _ & _ & _ & _ & _ & _ & H).
  now apply after_refetch_next in H.
Qed.

Lemma iteration_us_falls_through fm S_ P i s s1 :
  iteration_us fm S_ P i s = (Next tt, s1) ->
  info s1 = summary_of i s1 /\
  slope s1 = (fst (slope_x_eta s1) + snd (slope_x_eta s1))%float /\
  exists tr, trace s1 = (tr ++ [printed_of i s1])%list.
Proof.
  intros H. destruct (iteration_us_next _ _ _ _ _ _ H) as (Hinfo & Htr).
  split; [exact Hinfo|]. split; [|exact Htr].
  apply iteration_us_next_facts in H.
  destruct H as (ek_ul & flag & f & u & _ & _ & _ & _ & _ & _ & _ & _ & _ & H).
  now apply after_refetch_next in H.
Qed.

End Returned.

(** X4.  A summary that [nlcg] or [nlcg_us] returns is either the
    [nlcg_info] declared at function entry, untouched, or the summary of an
    iteration: its iteration count is then between 1 and maxiter. *)
Theorem X4_returned_iteration_count :
  forall (C : Collaborators) (memspace xspace : space) (energy_base : energy C)
         (smear : smearing_type) (T : float) (maxiter : Z)
         (tol kappa tau : float) (restart : Z) (r : nlcg_info),
    (fst (fst (nlcg memspace xspace energy_base smear T maxiter tol kappa tau
                    restart)) = Return r ->
     r = default_info C \/ 1 <= iter r <= maxiter) /\
    (forall us_precond_base overlap_base,
        fst (fst (nlcg_us memspace xspace energy_base us_precond_base
                          overlap_base smear T maxiter tol kappa tau restart))
          = Return r ->
        r = default_info C \/ 1 <= iter r <= maxiter).
Proof.
  intros C memspace xspace energy_base smear T maxiter tol0 kappa tau0 restart0
         r.
  split.
  - unfold nlcg.
    destruct (nlcg_init memspace xspace energy_base smear T tol0 kappa tau0
                        restart0) as [[fm Prec] s0] eqn:Hinit.
    apply nlcg_init_frame in Hinit.
    destruct Hinit as (Htol & _ & Hinfo & Htr & _ & Hsl & _).
    destruct (ge0 (slope s0)); [discriminate|].
    unfold outcome. cbn [fst].
    destruct (for_loop (iteration fm Prec) maxiter s0) as [[[]|x] s1] eqn:E;
      cbn [fst].
    + apply (for_loop_cases (fun _ _ => True)) in E; [|auto|exact I].
      destruct E as [(_ & Hx & _)|[(j & sj & x & _ & _ & _ & Hx)
                                  |(_ & _ & _ & Hx)]]; discriminate.
    + intros ->. rewrite <- Hinfo.
      apply (for_loop_returns (iteration fm Prec) (tol fm)) in E;
        [tauto| | |exact Hsl|].
      * intros i s x s1' H. apply iteration_returns in H. tauto.
      * intros i s s1'. apply iteration_falls_through.
      * exists [Compute], Compute. rewrite Htr. split; [reflexivity|discriminate].
  - intros upb ob. unfold nlcg_us.
    destruct (nlcg_us_init memspace xspace energy_base upb ob smear T tol0 kappa
                           tau0 restart0) as [[[fm S_] P] s0] eqn:Hinit.
    apply nlcg_us_init_frame in Hinit.
    destruct Hinit as (Htol & _ & Hinfo & Htr & _ & Hsl & _).
    destruct (ge0 (slope s0)); [discriminate|].
    unfold outcome. cbn [fst].
    destruct (for_loop (iteration_us fm S_ P) maxiter s0) as [[[]|x] s1] eqn:E;
      cbn [fst].
    + apply (for_loop_cases (fun _ _ => True)) in E; [|auto|exact I].
      destruct E as [(_ & Hx & _)|[(j & sj & x & _ & _ & _ & Hx)
                                  |(_ & _ & _ & Hx)]]; discriminate.
    + intros ->. rewrite <- Hinfo.
      apply (for_loop_returns (iteration_us fm S_ P) (tol fm)) in E;
        [tauto| | |exact Hsl|].
      * intros i s x s1' H. apply iteration_us_returns in H. tauto.
      * intros i s s1'. apply iteration_us_falls_through.
      * exists [Compute], Compute. rewrite Htr. split; [reflexivity|discriminate].
Qed.

(** On the scripted model: the run of two iterations returns iter = 2. *)
Lemma X4_witness :
  let e := Toy.start 1 (-1) [Some (-2, 1); Some (0x1p-1, -0x1p-1)]%float in
  let r := mk_info 0x1p-2 0 (-0x1.8p-3) 2 in
  fst (fst (Toy.run e 2)) = Return r /\
  (r = default_info Toy.collaborators \/ 1 <= iter r <= 2).
Proof.
  intros e r.
  assert (H : fst (fst (Toy.run e 2)) = Return r) by (vm_compute; reflexivity).
  split; [exact H|].
  exact (proj1 (X4_returned_iteration_count
                  Toy.collaborators HostSpace HostSpace e FERMI_DIRAC 1 2
                  0x1p-20 1 0x1p-1 5 r) H).
Defined.

(** X5.  When a run of [nlcg] or [nlcg_us] ends with "NLCG SUCCESS" as the
    last line of its trace, the summary it returns has a tolerance that is
    below tol in absolute value, and an iteration count between 1 and
    maxiter: the tolerance reported is the slope that passed the convergence
    test. *)
Theorem X5_reported_tolerance_of_a_converged_run :
  forall (C : Collaborators) (memspace xspace : space) (energy_base : energy C)
         (smear : smearing_type) (T : float) (maxiter : Z)
         (tol kappa tau : float) (restart : Z) (r : nlcg_info)
         (en : energy C) (tr : list event),
    (nlcg memspace xspace energy_base smear T maxiter tol kappa tau restart =
       (Return r, en, (tr ++ [Log log_success])%list) ->
     abs_lt (tolerance r) tol = true /\ 1 <= iter r <= maxiter) /\
    (forall us_precond_base overlap_base,
        nlcg_us memspace xspace energy_base us_precond_base overlap_base smear
                T maxiter tol kappa tau restart =
          (Return r, en, (tr ++ [Log log_success])%list) ->
        abs_lt (tolerance r) tol = true /\ 1 <= iter r <= maxiter).
Proof.
  intros C memspace xspace energy_base smear T maxiter tol0 kappa tau0 restart0
         r en tr.
  split.
  - unfold nlcg.
    destruct (nlcg_init memspace xspace energy_base smear T tol0 kappa tau0
                        restart0) as [[fm Prec] s0] eqn:Hinit.
    apply nlcg_init_frame in Hinit.
    destruct Hinit as (Htol & _ & Hinfo & Htr & _ & Hsl & _).
    destruct (ge0 (slope s0)); [discriminate|].
    unfold outcome.
    destruct (for_loop (iteration fm Prec) maxiter s0) as [[[]|x] s1] eqn:E;
      cbn [fst snd]; intros H; injection H as Hx Hen Htr1.
    + apply (for_loop_cases (fun _ _ => True)) in E; [|auto|exact I].
      destruct E as [(_ & Hy & _)|[(j & sj & y & _ & _ & _ & Hy)
                                  |(_ & _ & _ & Hy)]]; discriminate.
    + subst x. rewrite <- Htol.
      apply (for_loop_returns (iteration fm Prec) (tol fm)) in E;
        [apply E; eauto| | |exact Hsl|].
      * intros i s x s1' H. apply iteration_returns in H. tauto.
      * intros i s s1'. apply iteration_falls_through.
      * exists [Compute], Compute. rewrite Htr. split; [reflexivity|discriminate].
  - intros upb ob. unfold nlcg_us.
    destruct (nlcg_us_init memspace xspace energy_base upb ob smear T tol0 kappa
                           tau0 restart0) as [[[fm S_] P] s0] eqn:Hinit.
    apply nlcg_us_init_frame in Hinit.
    destruct Hinit as (Htol & _ & Hinfo & Htr & _ & Hsl & _).
    destruct (ge0 (slope s0)); [discriminate|].
    unfold outcome.
    destruct (for_loop (iteration_us fm S_ P) maxiter s0) as [[[]|x] s1] eqn:E;
      cbn [fst snd]; intros H; injection H as Hx Hen Htr1.
    + apply (for_loop_cases (fun _ _ => True)) in E; [|auto|exact I].
      destruct E as [(_ & Hy & _)|[(j & sj & y & _ & _ & _ & Hy)
                                  |(_ & _ & _ & Hy)]]; discriminate.
    + subst x. rewrite <- Htol.
      apply (for_loop_returns (iteration_us fm S_ P) (tol fm)) in E;
        [apply E; eauto| | |exact Hsl|].
      * intros i s x s1' H. apply iteration_us_returns in H. tauto.
      * intros i s s1'. apply iteration_us_falls_through.
      * exists [Compute], Compute. rewrite Htr. split; [reflexivity|discriminate].
Qed.

(** On the scripted model: the run that converges at the top of
    iteration 2. *)
Lemma X5_witness :
  let e := Toy.start 1 (-1) [Some (0x1p-30, -0x1p-30); Some (1, -1)]%float in
  exists r en tr,
    Toy.run e 10 = (Return r, en, (tr ++ [Log log_success])%list) /\
    abs_lt (tolerance r) 0x1p-20 = true /\ iter r = 2.
Proof.
  intros e.
  exists (mk_info 0x1p-60 0 (-0x1.00000004p-60) 2).
  exists (snd (fst (Toy.run e 10))).
  exists (removelast (snd (Toy.run e 10))).
  assert (H : Toy.run e 10 =
              (Return (mk_info 0x1p-60 0 (-0x1.00000004p-60) 2),
               snd (fst (Toy.run e 10)),
               (removelast (snd (Toy.run e 10)) ++ [Log log_success])%list))
    by (vm_compute; reflexivity).
  split; [exact H|]. split; [|reflexivity].
  exact (proj1 (proj1 (X5_reported_tolerance_of_a_converged_run
                         Toy.collaborators HostSpace HostSpace e FERMI_DIRAC 1
                         10 0x1p-20 1 0x1p-1 5 _ _ _) H)).
Defined.

(** ** What holds at the top of every iteration *)

Section AtTheTop.

Context {C : Collaborators}.
Implicit Types (fm : frame C) (s : state C).

(** What the set-up establishes and every iteration that falls through
    keeps, holds wherever a run gets to. *)
Lemma reaches_invariant (Inv : Z -> state C -> Prop)
    (body : Z -> stmt (C:=C) unit) maxiter s0 i s :
  (forall j sj sj', Inv j sj -> body j sj = (Next tt, sj') -> Inv (j + 1) sj') ->
  Inv 1 s0 ->
  reaches body maxiter s0 i s ->
  Inv i s.
Proof.
  intros Hstep H0 (Hi & _ & Hrun).
  destruct (loop_cases Inv body Hstep _ _ _ _ _ H0 Hrun)
    as [(_ & H)|(j & sj & e & _ & _ & _ & Hx)]; [|discriminate].
  replace (1 + Z.of_nat (Z.to_nat (i - 1))) with i in H by lia. exact H.
Qed.

(** The locals an iteration of [nlcg] leaves when it falls through. *)
Lemma iteration_keeps fm Prec i s s' :
  iteration fm Prec i s = (Next tt, s') ->
  X s' = get_X C (free_energy s') /\ Hx s' = get_HX C (free_energy s') /\
  slope s' = (fst (slope_x_eta s') + snd (slope_x_eta s'))%float /\
  info s' = summary_of i s' /\
  gt0 (fr s') = false /\
  (exists flag, force_restart s' = flag /\
     snd (ls_call C (ls fm) (G_nlcg s) (free_energy s) (slope s)
                  (force_restart s)) = flag) /\
  (ge0 (slope s') = false \/
   (Z_x s' = steepest_x Prec s' /\
    exists ek, eta s' = make_diag C ek /\ Z_eta s' = steepest_eta fm ek s')) /\
  (Z.rem i (restart fm) = 0 \/ force_restart s' = true ->
   ge0 (slope s') = false /\ Z_x s' = steepest_x Prec s' /\
   exists ek, eta s' = make_diag C ek /\ Z_eta s' = steepest_eta fm ek s').
Proof.
  intros H. apply iteration_next_facts in H.
  destruct H as (ek_ul & flag & f & u & Hcall & _ & HX & HHx & Heta & Hflag
                 & Hdx & Hde & _ & H).
  apply after_refetch_next in H.
  destruct H as (_ & Hfr & Hfr' & _ & _ & _ & _ & _ & Hinfo & _ & Hsl & _ & Hz).
  repeat (split; [assumption|]).
  split; [rewrite Hfr'; exact Hfr|].
  split; [exists flag; split; [exact Hflag|now rewrite Hcall]|].
  cbv zeta in Hz.
  replace (force_restart
             (refetched i (fst ek_ul)
                (searched i (free_energy s') flag (emit (LogIteration i) s))))
    with (force_restart s') in Hz by (rewrite Hflag; reflexivity).
  destruct ((Z.rem i (restart fm) =? 0) || force_restart s') eqn:Hdue.
  - destruct Hz as (Hz & Hge). injection Hz as Hzx Hze.
    split; [left; exact Hge|]. intros _. split; [exact Hge|].
    split; [congruence|]. exists (fst ek_ul). split; [exact Heta|congruence].
  - apply orb_false_elim in Hdue. destruct Hdue as (Hrem & Hfl).
    apply Z.eqb_neq in Hrem. split.
    + destruct Hz as [(_ & Hge)|(Hz & _)]; [now left|right].
      injection Hz as Hzx Hze. split; [congruence|].
      exists (fst ek_ul). split; [exact Heta|congruence].
    + intros [Hx|Hx]; [contradiction|congruence].
Qed.

(** The same for [nlcg_us]. *)
Lemma iteration_us_keeps fm S_ P i s s' :
  iteration_us fm S_ P i s = (Next tt, s') ->
  X s' = get_X C (free_energy s') /\ Hx s' = get_HX C (free_energy s') /\
  slope s' = (fst (slope_x_eta s') + snd (slope_x_eta s'))%float /\
  info s' = summary_of i s' /\
  gt0 (fr s') = false /\
  (exists flag, force_restart s' = flag /\
     snd (ls_call C (ls fm) (G_us S_ s) (free_energy s) (slope s)
                  (force_restart s)) = flag) /\
  (ge0 (slope s') = false \/
   (Z_x s' = steepest_x_us S_ P s' /\
    exists ek, eta s' = make_diag C ek /\ Z_eta s' = steepest_eta fm ek s')) /\
  (Z.rem i (restart fm) = 0 \/ force_restart s' = true ->
   ge0 (slope s') = false /\ Z_x s' = steepest_x_us S_ P s' /\
   exists ek, eta s' = make_diag C ek /\ Z_eta s' = steepest_eta fm ek s').
Proof.
  intros H. apply iteration_us_next_facts in H.
  destruct H as (ek_ul & flag & f & u & Hcall & _ & HX & HHx & Heta & Hflag
                 & Hdx & Hde & _ & H).
  apply after_refetch_next in H.
  destruct H as (_ & Hfr & Hfr' & _ & _ & _ & _ & _ & Hinfo & _ & Hsl & _ & Hz).
  repeat (split; [assumption|]).
  split; [rewrite Hfr'; exact Hfr|].
  split; [exists flag; split; [exact Hflag|now rewrite Hcall]|].
  cbv zeta in Hz.
  replace (force_restart
             (refetched i (fst ek_ul)
                (searched i (free_energy s') flag (emit (LogIteration i) s))))
    with (force_restart s') in Hz by (rewrite Hflag; reflexivity).
  destruct ((Z.rem i (restart fm) =? 0) || force_restart s') eqn:Hdue.
  - destruct Hz as (Hz & Hge). injection Hz as Hzx Hze.
    split; [left; exact Hge|]. intros _. split; [exact Hge|].
    split; [congruence|]. exists (fst ek_ul). split; [exact Heta|congruence].
  - apply orb_false_elim in Hdue. destruct Hdue as (Hrem & Hfl).
    apply Z.eqb_neq in Hrem. split.
    + destruct Hz as [(_ & Hge)|(Hz & _)]; [now left|right].
      injection Hz as Hzx Hze. split; [congruence|].
      exists (fst ek_ul). split; [exact Heta|congruence].
    + intros [Hx|Hx]; [contradiction|congruence].
Qed.

End AtTheTop.

(** X6.  Wherever a run of [nlcg] or [nlcg_us] gets to the top of an
    iteration [i], the wavefunctions and H X the driver holds are those of
    the energy model, and the slope is the sum of the two slope components;
    from the second iteration on, [info] is the summary of iteration i-1,
    its tolerance is the slope the convergence test and the line search are
    about to use, and the scalar [fr] is not positive. *)
Theorem X6_locals_at_the_top_of_an_iteration :
  forall (C : Collaborators) (memspace xspace : space) (energy_base : energy C)
         (smear : smearing_type) (T : float) (maxiter : Z)
         (tol kappa tau : float) (restart i : Z) (s0 s : state C) (fm : frame C),
    let holds :=
      X s = get_X C (free_energy s) /\ Hx s = get_HX C (free_energy s) /\
      slope s = (fst (slope_x_eta s) + snd (slope_x_eta s))%float /\
      (2 <= i ->
       info s = summary_of (i - 1) s /\ tolerance (info s) = slope s /\
       gt0 (fr s) = false) in
    (forall Prec,
        nlcg_init memspace xspace energy_base smear T tol kappa tau restart =
          (fm, Prec, s0) ->
        reaches (iteration fm Prec) maxiter s0 i s -> holds) /\
    (forall us_precond_base overlap_base S_ P,
        nlcg_us_init memspace xspace energy_base us_precond_base overlap_base
                     smear T tol kappa tau restart = (fm, S_, P, s0) ->
        reaches (iteration_us fm S_ P) maxiter s0 i s -> holds).
Proof.
  intros C memspace xspace energy_base smear T maxiter tol0 kappa tau0 restart0
         i s0 s fm holds.
  pose (Inv := fun (j : Z) (sj : state C) =>
    X sj = get_X C (free_energy sj) /\ Hx sj = get_HX C (free_energy sj) /\
    slope sj = (fst (slope_x_eta sj) + snd (slope_x_eta sj))%float /\
    (2 <= j -> info sj = summary_of (j - 1) sj /\ gt0 (fr sj) = false)).
  assert (Hfin : Inv i s -> holds).
  { intros (HX & HHx & Hsl & Hi). split; [exact HX|]. split; [exact HHx|].
    split; [exact Hsl|]. intros H2. destruct (Hi H2) as (Hinfo & Hfr).
    split; [exact Hinfo|]. split; [|exact Hfr].
    rewrite Hinfo, Hsl. reflexivity. }
  split.
  - intros Prec Hinit Hreach. apply Hfin.
    apply nlcg_init_frame in Hinit.
    destruct Hinit as (_ & _ & _ & _ & _ & Hsl & HX & HHx & _).
    apply (reaches_invariant Inv (iteration fm Prec) maxiter s0 i s);
      [|repeat split; (assumption || lia)|exact Hreach].
    intros j sj sj' _ Hb. apply iteration_keeps in Hb.
    destruct Hb as (HX' & HHx' & Hsl' & Hinfo & Hfr & _).
    repeat (split; [assumption|]). intros _.
    replace (j + 1 - 1) with j by lia. auto.
  - intros upb ob S_ P Hinit Hreach. apply Hfin.
    apply nlcg_us_init_frame in Hinit.
    destruct Hinit as (_ & _ & _ & _ & _ & Hsl & HX & HHx & _).
    apply (reaches_invariant Inv (iteration_us fm S_ P) maxiter s0 i s);
      [|repeat split; (assumption || lia)|exact Hreach].
    intros j sj sj' _ Hb. apply iteration_us_keeps in Hb.
    destruct Hb as (HX' & HHx' & Hsl' & Hinfo & Hfr & _).
    repeat (split; [assumption|]). intros _.
    replace (j + 1 - 1) with j by lia. auto.
Qed.

(** On the scripted model, at the top of iteration 2. *)
Lemma X6_witness :
  let e := Toy.start 1 (-1) [Some (-2, 1); Some (0x1p-1, -0x1p-1)]%float in
  let r := nlcg_init (C:=Toy.collaborators) HostSpace HostSpace e FERMI_DIRAC 1
                     0x1p-20 1 0x1p-1 5 in
  let fm := fst (fst r) in
  let s := snd (iteration fm tt 1 (snd r)) in
  reaches (iteration fm tt) 10 (snd r) 2 s /\
  X s = (-2)%float /\ tolerance (info s) = slope s /\ gt0 (fr s) = false.
Proof.
  intros e r fm s.
  assert (Hinit : r = (fm, tt, snd r)) by reflexivity.
  assert (Hreach : reaches (iteration fm tt) 10 (snd r) 2 s).
  { apply (reaches_next _ _ _ 1 (snd r)).
    - apply reaches_first. unfold INT_MAX. lia.
    - lia.
    - vm_compute. reflexivity. }
  split; [exact Hreach|].
  destruct (proj1 (X6_locals_at_the_top_of_an_iteration
                     Toy.collaborators HostSpace HostSpace e FERMI_DIRAC 1 10
                     0x1p-20 1 0x1p-1 5 2 (snd r) s fm) tt Hinit Hreach)
    as (HX & _ & _ & H2).
  assert (Hle : 2 <= 2) by lia.
  destruct (H2 Hle) as (_ & Htol & Hfr).
  split; [rewrite HX; vm_compute; reflexivity|]. split; assumption.
Defined.

Section Directions.

Context {C : Collaborators}.

Lemma nlcg_init_direction memspace xspace (energy_base : energy C) smear
    T tol0 kappa tau0 restart0 fm Prec s0 :
  nlcg_init memspace xspace energy_base smear T tol0 kappa tau0 restart0 =
    (fm, Prec, s0) ->
  Z_x s0 = steepest_x Prec s0 /\
  exists ek, eta s0 = make_diag C ek /\ Z_eta s0 = steepest_eta fm ek s0.
Proof.
  unfold nlcg_init. intros H. injection H as <- <- <-.
  split; [reflexivity|]. eexists. split; reflexivity.
Qed.

Lemma nlcg_us_init_direction memspace xspace (energy_base : energy C) upb ob
    smear T tol0 kappa tau0 restart0 fm S_ P s0 :
  nlcg_us_init memspace xspace energy_base upb ob smear T tol0 kappa tau0
               restart0 = (fm, S_, P, s0) ->
  Z_x s0 = steepest_x_us S_ P s0 /\
  exists ek, eta s0 = make_diag C ek /\ Z_eta s0 = steepest_eta fm ek s0.
Proof.
  unfold nlcg_us_init. intros H. injection H as <- <- <- <-.
  split; [reflexivity|]. eexists. split; reflexivity.
Qed.

End Directions.

(** X7.  The direction a line search of [nlcg] or [nlcg_us] is called with
    either descends (its slope is not >= 0) or is the steepest pair at the
    current point; and it is the steepest pair with a slope that is not >= 0
    at the first iteration and after every iteration that was a restart
    ([(i-1) % restart == 0] or the flag up).  A recombined direction is
    kept only when its slope is not >= 0. *)
Theorem X7_direction_at_the_top_of_an_iteration :
  forall (C : Collaborators) (memspace xspace : space) (energy_base : energy C)
         (smear : smearing_type) (T : float) (maxiter : Z)
         (tol kappa tau : float) (restart i : Z) (s0 s : state C) (fm : frame C),
    ge0 (slope s0) = false ->
    (forall Prec,
        nlcg_init memspace xspace energy_base smear T tol kappa tau restart =
          (fm, Prec, s0) ->
        reaches (iteration fm Prec) maxiter s0 i s ->
        let steepest :=
          Z_x s = steepest_x Prec s /\
          exists ek, eta s = make_diag C ek /\ Z_eta s = steepest_eta fm ek s in
        (ge0 (slope s) = false \/ steepest) /\
        (i = 1 \/ Z.rem (i - 1) restart = 0 \/ force_restart s = true ->
         ge0 (slope s) = false /\ steepest)) /\
    (forall us_precond_base overlap_base S_ P,
        nlcg_us_init memspace xspace energy_base us_precond_base overlap_base
                     smear T tol kappa tau restart = (fm, S_, P, s0) ->
        reaches (iteration_us fm S_ P) maxiter s0 i s ->
        let steepest :=
          Z_x s = steepest_x_us S_ P s /\
          exists ek, eta s = make_diag C ek /\ Z_eta s = steepest_eta fm ek s in
        (ge0 (slope s) = false \/ steepest) /\
        (i = 1 \/ Z.rem (i - 1) restart = 0 \/ force_restart s = true ->
         ge0 (slope s) = false /\ steepest)).
Proof.
  intros C memspace xspace energy_base smear T maxiter tol0 kappa tau0 restart0
         i s0 s fm Hge.
  split.
  - intros Prec Hinit Hreach steepest.
    pose proof (nlcg_init_direction _ _ _ _ _ _ _ _ _ _ _ _ Hinit) as Hdir.
    apply nlcg_init_frame in Hinit.
    destruct Hinit as (_ & Hrf & _). subst restart0.
    pose (SP := fun sj : state C =>
      Z_x sj = steepest_x Prec sj /\
      exists ek, eta sj = make_diag C ek /\ Z_eta sj = steepest_eta fm ek sj).
    pose (Inv := fun (j : Z) (sj : state C) =>
      1 <= j /\
      (ge0 (slope sj) = false \/ SP sj) /\
      (j = 1 \/ Z.rem (j - 1) (restart fm) = 0 \/ force_restart sj = true ->
       ge0 (slope sj) = false /\ SP sj)).
    assert (H : Inv i s).
    { apply (reaches_invariant Inv (iteration fm Prec) maxiter s0 i s);
        [| |exact Hreach].
      - intros j sj sj' (Hj & _) Hb. apply iteration_keeps in Hb.
        destruct Hb as (_ & _ & _ & _ & _ & _ & Hor & Hdue).
        split; [lia|]. split; [exact Hor|].
        replace (j + 1 - 1) with j by lia.
        intros [Hx|Hx]; [lia|exact (Hdue Hx)].
      - split; [lia|]. split; [left; exact Hge|]. intros _. exact (conj Hge Hdir). }
    destruct H as (_ & H1 & H2). exact (conj H1 H2).
  - intros upb ob S_ P Hinit Hreach steepest.
    pose proof (nlcg_us_init_direction _ _ _ _ _ _ _ _ _ _ _ _ _ _ _ Hinit)
      as Hdir.
    apply nlcg_us_init_frame in Hinit.
    destruct Hinit as (_ & Hrf & _). subst restart0.
    pose (SP := fun sj : state C =>
      Z_x sj = steepest_x_us S_ P sj /\
      exists ek, eta sj = make_diag C ek /\ Z_eta sj = steepest_eta fm ek sj).
    pose (Inv := fun (j : Z) (sj : state C) =>
      1 <= j /\
      (ge0 (slope sj) = false \/ SP sj) /\
      (j = 1 \/ Z.rem (j - 1) (restart fm) = 0 \/ force_restart sj = true ->
       ge0 (slope sj) = false /\ SP sj)).
    assert (H : Inv i s).
    { apply (reaches_invariant Inv (iteration_us fm S_ P) maxiter s0 i s);
        [| |exact Hreach].
      - intros j sj sj' (Hj & _) Hb. apply iteration_us_keeps in Hb.
        destruct Hb as (_ & _ & _ & _ & _ & _ & Hor & Hdue).
        split; [lia|]. split; [exact Hor|].
        replace (j + 1 - 1) with j by lia.
        intros [Hx|Hx]; [lia|exact (Hdue Hx)].
      - split; [lia|]. split; [left; exact Hge|]. intros _. exact (conj Hge Hdir). }
    destruct H as (_ & H1 & H2). exact (conj H1 H2).
Qed.

(** On the scripted model, where iteration 1 falls back to the steepest
    direction (-2 is the gradient, 1 the steepest direction found): at the
    top of iteration 2 the direction is the steepest one. *)
Lemma X7_witness :
  let e := Toy.start 1 (-1) [Some (-2, 1); Some (0x1p-1, -0x1p-1)]%float in
  let r := nlcg_init (C:=Toy.collaborators) HostSpace HostSpace e FERMI_DIRAC 1
                     0x1p-20 1 0x1p-1 5 in
  let fm := fst (fst r) in
  let s := snd (iteration fm tt 1 (snd r)) in
  ge0 (slope (snd r)) = false /\
  reaches (iteration fm tt) 10 (snd r) 2 s /\
  (ge0 (slope s) = false \/ Z_x s = steepest_x (C:=Toy.collaborators) tt s) /\
  Z_x s = 1%float.
Proof.
  intros e r fm s.
  assert (Hinit : r = (fm, tt, snd r)) by reflexivity.
  assert (Hge : ge0 (slope (snd r)) = false) by (vm_compute; reflexivity).
  assert (Hreach : reaches (iteration fm tt) 10 (snd r) 2 s).
  { apply (reaches_next _ _ _ 1 (snd r)).
    - apply reaches_first. unfold INT_MAX. lia.
    - lia.
    - vm_compute. reflexivity. }
  split; [exact Hge|]. split; [exact Hreach|].
  destruct (proj1 (X7_direction_at_the_top_of_an_iteration
                     Toy.collaborators HostSpace HostSpace e FERMI_DIRAC 1 10
                     0x1p-20 1 0x1p-1 5 2 (snd r) s fm Hge) tt Hinit Hreach)
    as (H & _).
  split; [|vm_compute; reflexivity].
  destruct H as [H|(H & _)]; [now left|now right].
Defined.

(** X8.  The drivers never raise the forced-restart flag themselves: when
    the line search leaves the flag as it finds it (a search that takes it
    by value), the flag is down at the top of every iteration of [nlcg] and
    [nlcg_us], so every restart of such a run is a periodic one or the
    fallback of the slope check. *)
Theorem X8_flag_stays_down_with_a_by_value_search :
  forall (C : Collaborators) (memspace xspace : space) (energy_base : energy C)
         (smear : smearing_type) (T : float) (maxiter : Z)
         (tol kappa tau : float) (restart i : Z) (s0 s : state C) (fm : frame C),
    (forall l G en sl b, snd (ls_call C l G en sl b) = b) ->
    (forall Prec,
        nlcg_init memspace xspace energy_base smear T tol kappa tau restart =
          (fm, Prec, s0) ->
        reaches (iteration fm Prec) maxiter s0 i s ->
        force_restart s = false) /\
    (forall us_precond_base overlap_base S_ P,
        nlcg_us_init memspace xspace energy_base us_precond_base overlap_base
                     smear T tol kappa tau restart = (fm, S_, P, s0) ->
        reaches (iteration_us fm S_ P) maxiter s0 i s ->
        force_restart s = false).
Proof.
  intros C memspace xspace energy_base smear T maxiter tol0 kappa tau0 restart0
         i s0 s fm Hval.
  split.
  - intros Prec Hinit Hreach. apply nlcg_init_frame in Hinit.
    destruct Hinit as (_ & _ & _ & _ & Hfl & _).
    apply (reaches_invariant (fun _ sj => force_restart sj = false)
                             (iteration fm Prec) maxiter s0 i s);
      [|exact Hfl|exact Hreach].
    intros j sj sj' Hj Hb. apply iteration_keeps in Hb.
    destruct Hb as (_ & _ & _ & _ & _ & (flag & -> & <-) & _).
    now rewrite Hval.
  - intros upb ob S_ P Hinit Hreach. apply nlcg_us_init_frame in Hinit.
    destruct Hinit as (_ & _ & _ & _ & Hfl & _).
    apply (reaches_invariant (fun _ sj => force_restart sj = false)
                             (iteration_us fm S_ P) maxiter s0 i s);
      [|exact Hfl|exact Hreach].
    intros j sj sj' Hj Hb. apply iteration_us_keeps in Hb.
    destruct Hb as (_ & _ & _ & _ & _ & (flag & -> & <-) & _).
    now rewrite Hval.
Qed.

(** The line search of the scripted model takes the flag by value. *)
Lemma X8_witness :
  let e := Toy.start 1 (-1) [Some (-2, 1); Some (0x1p-1, -0x1p-1)]%float in
  let r := nlcg_init (C:=Toy.collaborators) HostSpace HostSpace e FERMI_DIRAC 1
                     0x1p-20 1 0x1p-1 5 in
  let fm := fst (fst r) in
  let s := snd (iteration fm tt 1 (snd r)) in
  (forall l G en sl b, snd (ls_call Toy.collaborators l G en sl b) = b) /\
  reaches (iteration fm tt) 10 (snd r) 2 s /\
  force_restart s = false.
Proof.
  intros e r fm s.
  assert (Hval : forall l G en sl b,
             snd (ls_call Toy.collaborators l G en sl b) = b).
  { intros l G en sl b. cbn. unfold Toy.one_trial.
    destruct (Toy.ok _); reflexivity. }
  assert (Hinit : r = (fm, tt, snd r)) by reflexivity.
  assert (Hreach : reaches (iteration fm tt) 10 (snd r) 2 s).
  { apply (reaches_next _ _ _ 1 (snd r)).
    - apply reaches_first. unfold INT_MAX. lia.
    - lia.
    - vm_compute. reflexivity. }
  split; [exact Hval|]. split; [exact Hreach|].
  exact (proj1 (X8_flag_stays_down_with_a_by_value_search
                  Toy.collaborators HostSpace HostSpace e FERMI_DIRAC 1 10
                  0x1p-20 1 0x1p-1 5 2 (snd r) s fm Hval) tt Hinit Hreach).
Defined.

(** ** The sign of the restart period *)

Section SignOfThePeriod.

Context {C : Collaborators}.
Implicit Types (fm : frame C) (s : state C).

Lemma rem_is_0_opp (i r : Z) : rem_is_0 i (- r) = rem_is_0 i r.
Proof.
  unfold rem_is_0. destruct (Z.eqb_spec r 0) as [->|Hr]; [reflexivity|].
  destruct (Z.eqb_spec (- r) 0) as [H0|_]; [lia|].
  now rewrite Z.rem_opp_r.
Qed.

(** Bodies that agree make the same loop. *)
Lemma loop_ext (b1 b2 : Z -> stmt (C:=C) unit) :
  (forall i s, b1 i s = b2 i s) ->
  forall n i s, loop b1 n i s = loop b2 n i s.
Proof.
  intros Hb. induction n as [|n IH]; intros i s; [reflexivity|].
  cbn [loop]. unfold bind. rewrite Hb.
  destruct (b2 i s) as [[[]|e] s1]; [apply IH|reflexivity].
Qed.

Lemma for_loop_ext (b1 b2 : Z -> stmt (C:=C) unit) maxiter s :
  (forall i s, b1 i s = b2 i s) ->
  for_loop b1 maxiter s = for_loop b2 maxiter s.
Proof.
  intros Hb. unfold for_loop, bind.
  destruct (maxiter =? INT_MAX); [reflexivity|].
  now rewrite (loop_ext b1 b2 Hb).
Qed.

Lemma after_refetch_negate conj_x fm i u f s :
  after_refetch conj_x (negate_restart fm) i u f s =
  after_refetch conj_x fm i u f s.
Proof.
  unfold after_refetch, conjugate_with, descent_check, update_slope,
    restart_due, log_gamma, fr_new_of, negate_restart.
  cbn [restart tol ls wk commk grad_eta].
  now rewrite rem_is_0_opp.
Qed.

Lemma try_body_unfold fm Prec i s :
  try_body fm Prec i s =
    match search fm i s with
    | (Next ek_ul, s1) =>
        match refresh fm Prec i (fst ek_ul) s1 with
        | (Next f, s2) => after_refetch (conjugatex C) fm i (snd ek_ul) f s2
        | (Exit e, s2) => (Exit e, s2)
        end
    | (Exit e, s1) => (Exit e, s1)
    end.
Proof. reflexivity. Qed.

Lemma try_body_us_unfold fm S_ P i s :
  try_body_us fm S_ P i s =
    match search_us S_ fm i s with
    | (Next ek_ul, s1) =>
        match refresh_us fm S_ P i (fst ek_ul) s1 with
        | (Next f_SX, s2) =>
            after_refetch
              (fun d z x g => conjugatex_us C d z x (snd f_SX) g)
              fm i (snd ek_ul) (fst f_SX) s2
        | (Exit e, s2) => (Exit e, s2)
        end
    | (Exit e, s1) => (Exit e, s1)
    end.
Proof. reflexivity. Qed.

Lemma try_body_negate fm Prec i s :
  try_body (negate_restart fm) Prec i s = try_body fm Prec i s.
Proof.
  rewrite !try_body_unfold.
  change (search (negate_restart fm) i s) with (search fm i s).
  destruct (search fm i s) as [[ek_ul|e] s1]; [|reflexivity].
  change (refresh (negate_restart fm) Prec i (fst ek_ul) s1)
    with (refresh fm Prec i (fst ek_ul) s1).
  destruct (refresh fm Prec i (fst ek_ul) s1) as [[f|e] s2]; [|reflexivity].
  apply after_refetch_negate.
Qed.

Lemma try_body_us_negate fm S_ P i s :
  try_body_us (negate_restart fm) S_ P i s = try_body_us fm S_ P i s.
Proof.
  rewrite !try_body_us_unfold.
  change (search_us S_ (negate_restart fm) i s) with (search_us S_ fm i s).
  destruct (search_us S_ fm i s) as [[ek_ul|e] s1]; [|reflexivity].
  change (refresh_us (negate_restart fm) S_ P i (fst ek_ul) s1)
    with (refresh_us fm S_ P i (fst ek_ul) s1).
  destruct (refresh_us fm S_ P i (fst ek_ul) s1) as [[f|e] s2]; [|reflexivity].
  apply after_refetch_negate.
Qed.

(** An iteration is its [try] block run under the handler, or the
    convergence branch. *)
Lemma iteration_with_unfold (tb h : stmt (C:=C) unit) fm i s :
  iteration_with tb h fm i s =
    if abs_lt (slope s) (tol fm) then converged i (emit (LogIteration i) s)
    else try_catch_DescentError tb h (emit (LogIteration i) s).
Proof.
  destruct (abs_lt (slope s) (tol fm)) eqn:Hc.
  - now apply iteration_with_converged.
  - now apply iteration_with_searching.
Qed.

Lemma iteration_negate fm Prec i s :
  iteration (negate_restart fm) Prec i s = iteration fm Prec i s.
Proof.
  unfold iteration. rewrite !iteration_with_unfold.
  change (tol (negate_restart fm)) with (tol fm).
  destruct (abs_lt (slope s) (tol fm)); [reflexivity|].
  unfold try_catch_DescentError. now rewrite try_body_negate.
Qed.

Lemma iteration_us_negate fm S_ P i s :
  iteration_us (negate_restart fm) S_ P i s = iteration_us fm S_ P i s.
Proof.
  unfold iteration_us. rewrite !iteration_with_unfold.
  change (tol (negate_restart fm)) with (tol fm).
  destruct (abs_lt (slope s) (tol fm)); [reflexivity|].
  unfold try_catch_DescentError. now rewrite try_body_us_negate.
Qed.

(** The events a run records do not depend on the sign of the period. *)
Lemma nlcg_negate memspace xspace (energy_base : energy C) smear T maxiter
    tol0 kappa tau0 restart0 :
  nlcg memspace xspace energy_base smear T maxiter tol0 kappa tau0
       (- restart0) =
  nlcg memspace xspace energy_base smear T maxiter tol0 kappa tau0 restart0.
Proof.
  unfold nlcg.
  destruct (nlcg_init memspace xspace energy_base smear T tol0 kappa tau0
                      restart0) as [[fm Prec] s0] eqn:Hinit.
  assert (Hneg : nlcg_init memspace xspace energy_base smear T tol0 kappa tau0
                           (- restart0) = (negate_restart fm, Prec, s0)).
  { unfold nlcg_init in *. injection Hinit as <- <- <-. reflexivity. }
  rewrite Hneg. destruct (ge0 (slope s0)); [reflexivity|].
  f_equal. apply for_loop_ext. intros i s. apply iteration_negate.
Qed.

Lemma nlcg_us_negate memspace xspace (energy_base : energy C) upb ob smear T
    maxiter tol0 kappa tau0 restart0 :
  nlcg_us memspace xspace energy_base upb ob smear T maxiter tol0 kappa tau0
          (- restart0) =
  nlcg_us memspace xspace energy_base upb ob smear T maxiter tol0 kappa tau0
          restart0.
Proof.
  unfold nlcg_us.
  destruct (nlcg_us_init memspace xspace energy_base upb ob smear T tol0 kappa
                         tau0 restart0) as [[[fm S_] P] s0] eqn:Hinit.
  assert (Hneg : nlcg_us_init memspace xspace energy_base upb ob smear T tol0
                              kappa tau0 (- restart0) =
                 (negate_restart fm, S_, P, s0)).
  { unfold nlcg_us_init in *. injection Hinit as <- <- <- <-. reflexivity. }
  rewrite Hneg. destruct (ge0 (slope s0)); [reflexivity|].
  f_equal. apply for_loop_ext. intros i s. apply iteration_us_negate.
Qed.

End SignOfThePeriod.

(** X9.  A negative restart period acts as its absolute value: [nlcg] and
    [nlcg_us] called with -restart end as they do with restart (the same
    summary returned or the same exception thrown), leave the same energy
    model and enter the same iterations: [i % restart == 0] does not depend
    on the sign of [restart].  (The line of the set-up that prints the
    parameters is no part of the statement.) *)
Theorem X9_sign_of_the_restart_period :
  forall (C : Collaborators) (memspace xspace : space) (energy_base : energy C)
         (smear : smearing_type) (T : float) (maxiter : Z)
         (tol kappa tau : float) (restart : Z),
    let alike (a b : exit * energy C * list event) :=
      fst a = fst b /\ iterations_of (snd a) = iterations_of (snd b) in
    alike
      (nlcg memspace xspace energy_base smear T maxiter tol kappa tau
            (- restart))
      (nlcg memspace xspace energy_base smear T maxiter tol kappa tau restart)
    /\
    (forall us_precond_base overlap_base,
        alike
          (nlcg_us memspace xspace energy_base us_precond_base overlap_base
                   smear T maxiter tol kappa tau (- restart))
          (nlcg_us memspace xspace energy_base us_precond_base overlap_base
                   smear T maxiter tol kappa tau restart)).
Proof.
  intros C memspace xspace energy_base smear T maxiter tol0 kappa tau0 restart0
         alike.
  split.
  - rewrite nlcg_negate. split; reflexivity.
  - intros upb ob. rewrite nlcg_us_negate. split; reflexivity.
Qed.

(** ** The two drivers side by side *)

Section SideBySide.

Context {C : Collaborators}.
Implicit Types (fm : frame C) (s : state C).

(** The update of the direction only asks the recombination of the X block
    about the X the locals hold. *)
Lemma after_refetch_ext c1 c2 fm i u f s :
  (forall d z g, c1 d z (X s) g = c2 d z (X s) g) ->
  after_refetch c1 fm i u f s = after_refetch c2 fm i u f s.
Proof.
  intros H. unfold after_refetch. unfold bind at 1 3.
  assert (Hc : conjugate_with c1 fm i u f s = conjugate_with c2 fm i u f s).
  { unfold conjugate_with, log_gamma, restart_due. unfold_stmt.
    destruct (gt0 _); [reflexivity|].
    destruct (rem_is_0 i (restart fm)) as [b|]; [|reflexivity].
    cbn [force_restart set_fr emit X].
    destruct (negb (b && negb (force_restart s)));
      cbn [force_restart set_fr emit X];
      destruct (b || force_restart s); try reflexivity;
      cbn [X emit set_fr]; now rewrite H. }
  now rewrite Hc.
Qed.

(** Two bodies that end alike at every index and in all locals (the same
    flow and locals, or two exits of the same kind) make loops that end
    alike. *)
Lemma loop_alike (b1 b2 : Z -> stmt (C:=C) unit) :
  (forall i s, b1 i s = b2 i s \/
               exists e s1 s2, b1 i s = (Exit e, s1) /\ b2 i s = (Exit e, s2)) ->
  forall n i s,
    loop b1 n i s = loop b2 n i s \/
    exists e s1 s2, loop b1 n i s = (Exit e, s1) /\ loop b2 n i s = (Exit e, s2).
Proof.
  intros Hb. induction n as [|n IH]; intros i s; [now left|].
  cbn [loop]. unfold bind.
  destruct (Hb i s) as [->|(e & s1 & s2 & -> & ->)].
  - destruct (b2 i s) as [[[]|e] s1]; [apply IH|now left].
  - right. exists e, s1, s2. auto.
Qed.

Lemma for_loop_alike (b1 b2 : Z -> stmt (C:=C) unit) maxiter s :
  (forall i s, b1 i s = b2 i s \/
               exists e s1 s2, b1 i s = (Exit e, s1) /\ b2 i s = (Exit e, s2)) ->
  fst (fst (outcome (for_loop b1 maxiter s))) =
  fst (fst (outcome (for_loop b2 maxiter s))).
Proof.
  intros Hb. unfold for_loop, bind.
  destruct (maxiter =? INT_MAX); [reflexivity|].
  destruct (loop_alike b1 b2 Hb (Z.to_nat maxiter) 1 s)
    as [->|(e & s1 & s2 & -> & ->)]; reflexivity.
Qed.

End SideBySide.

(** X11.  When, for the overlap and the preconditioners of a call, the
    ultrasoft kernels agree with the standard ones (Lagrange multipliers,
    gradient, preconditioned gradient and recombination of the X block taken
    at S X give what the standard kernels give at X, and the geodesic with
    the overlap is the geodesic without), [nlcg_us] ends as [nlcg] does: with
    the same summary or the same exception. *)
Theorem X11_ultrasoft_driver_with_standard_kernels :
  forall (C : Collaborators) (memspace xspace : space) (energy_base : energy C)
         (us_precond_base : UltrasoftPrecondBase C)
         (overlap_base : OverlapBase C)
         (smear : smearing_type) (T : float) (maxiter : Z)
         (tol kappa tau : float) (restart : Z),
    let S_ := mkOverlap C overlap_base in
    let P := mkUSPreconditioner C us_precond_base in
    let Prec :=
      snd (fst (nlcg_init memspace xspace energy_base smear T tol kappa tau
                          restart)) in
    (forall X Hx,
        lagrange_multipliers_us C X (tapply_op C S_ X) Hx P =
        lagrange_multipliers C X X Hx Prec) ->
    (forall X Hx fn Xll wk,
        gradX C (tapply_op C S_ X) Hx fn Xll wk = gradX C X Hx fn Xll wk) ->
    (forall X Hx Xll,
        precondGradX_us C (tapply_op C S_ X) Hx P Xll =
        precondGradX C X Hx Prec Xll) ->
    (forall d z x g,
        conjugatex_us C d z x (tapply_op C S_ x) g = conjugatex C d z x g) ->
    (forall X eta Zx Zeta,
        (fun ef t => geodesic_us C ef X eta Zx Zeta S_ t) =
        (fun ef t => geodesic C ef X eta Zx Zeta t)) ->
    fst (fst (nlcg_us memspace xspace energy_base us_precond_base overlap_base
                      smear T maxiter tol kappa tau restart)) =
    fst (fst (nlcg memspace xspace energy_base smear T maxiter tol kappa tau
                   restart)).
Proof.
  intros C memspace xspace energy_base upb ob smear T maxiter tol0 kappa tau0
         restart0 S_ P Prec Hlag Hgrad Hprec Hconj Hgeo.
  unfold nlcg_us, nlcg.
  destruct (nlcg_init memspace xspace energy_base smear T tol0 kappa tau0
                      restart0) as [[fm Prec'] s0] eqn:Hinit.
  cbn [fst snd] in Prec. subst Prec.
  assert (Hus : nlcg_us_init memspace xspace energy_base upb ob smear T tol0
                             kappa tau0 restart0 = (fm, S_, P, s0)).
  { unfold nlcg_init in Hinit. unfold nlcg_us_init. fold S_ P.
    unfold copy in *. cbv zeta in Hinit |- *.
    rewrite Hlag, Hgrad, Hprec.
    injection Hinit as <- HP <-. rewrite HP. reflexivity. }
  rewrite Hus. destruct (ge0 (slope s0)); [reflexivity|].
  change (fst (fst (outcome (for_loop (iteration_us fm S_ P) maxiter s0))) =
          fst (fst (outcome (for_loop (iteration fm Prec') maxiter s0)))).
  apply for_loop_alike. intros i s.
  assert (Htb : forall s1, try_body_us fm S_ P i s1 = try_body fm Prec' i s1).
  { intros s1. rewrite try_body_us_unfold, try_body_unfold.
    assert (Hs : search_us S_ fm i s1 = search fm i s1).
    { unfold search_us, search, search_along, G_us, G_nlcg.
      now rewrite Hgeo. }
    rewrite Hs. destruct (search fm i s1) as [[ek_ul|e] s2]; [|reflexivity].
    unfold refresh_us, refresh, copy. cbn [fst snd].
    rewrite Hlag, Hgrad, Hprec.
    apply after_refetch_ext. intros d z g. cbn [X emit set_fields].
    apply Hconj. }
  unfold iteration_us, iteration. rewrite !iteration_with_unfold.
  destruct (abs_lt (slope s) (tol fm)); [now left|].
  unfold try_catch_DescentError. rewrite Htb.
  destruct (try_body fm Prec' i (emit (LogIteration i) s))
    as [[[]|[r|[w|]|]] s1]; try (now left).
  right. destruct (on_DescentError_us_run S_ s1) as (s2 & -> & _).
  rewrite on_DescentError_run. eauto.
Qed.

(** The scripted model has such kernels: its two runs end alike. *)
Lemma X11_witness :
  let e := Toy.start 1 (-1) [Some (-0x1p-1, 0x1p-1); None]%float in
  fst (fst (Toy.run_us e 10)) = fst (fst (Toy.run e 10)) /\
  fst (fst (Toy.run e 10)) = Return (mk_info 0x1p-2 0 (-0x1p-3) 1).
Proof.
  intros e. split; [|vm_compute; reflexivity].
  apply (X11_ultrasoft_driver_with_standard_kernels
           Toy.collaborators HostSpace HostSpace e tt tt FERMI_DIRAC 1 10
           0x1p-20 1 0x1p-1 5); reflexivity.
Defined.

(** ** The gradient check *)

Section CheckedGradient.

Context {C : Collaborators}.

(** Every quotient is taken against the energy [F0]. *)
Lemma check_scan_quotients (G : energy C -> float -> energy C) (F0 : float) :
  forall dts e tr dt q,
    In (dt, q) (fst (fst (check_scan G F0 dts e tr))) ->
    exists e', q = ((get_F C (G e' dt) - F0) / dt)%float.
Proof.
  induction dts as [|d dts IH]; intros e tr dt q; [intros []|].
  cbn [check_scan]. unfold traced_geodesic. cbn [fst snd].
  specialize (IH (G e d) (tr ++ [Geodesic d])%list dt q).
  destruct (check_scan G F0 dts (G e d) (tr ++ [Geodesic d]))
    as [[qs e'] tr'].
  cbn [fst snd]. intros [H|H]; [|now apply IH].
  injection H as <- <-. now exists e.
Qed.

End CheckedGradient.

(** X13.  The slope [nlcg_check_gradient<memspace>] prints ("slope (all)")
    is the slope [nlcg<memspace, memspace>] starts from on the same energy
    model with Fermi-Dirac smearing, T = 300 and kappa = 1, and the energy
    "F0" it compares with is the energy at t = 0 of the geodesic of the
    first line search of that run; every finite-difference quotient it
    prints is (F1 - F0) / dt for an energy F1 at step dt of that
    geodesic. *)
Theorem X13_checked_slope_is_the_initial_slope :
  forall (C : Collaborators) (memspace : space) (energy_base : energy C)
         (tol tau : float) (restart : Z),
    let r := fst (fst (nlcg_check_gradient memspace energy_base)) in
    let s0 := snd (nlcg_init memspace memspace energy_base FERMI_DIRAC
                             0x1.2cp+8 tol 1 tau restart) in
    checked_slope r = slope s0 /\
    checked_F0 r = get_F C (snd (G_nlcg s0 (free_energy s0) 0)) /\
    forall dt q, In (dt, q) (checked_quotients r) ->
      exists e, q = ((get_F C (snd (G_nlcg s0 e dt)) - checked_F0 r) / dt)%float.
Proof.
  intros C memspace energy_base tol0 tau0 restart0.
  unfold nlcg_check_gradient. cbv zeta.
  match goal with
  | |- context [check_scan ?G ?F0 ?dts ?e ?tr] =>
      pose proof (check_scan_quotients G F0 dts e tr) as Hq;
      destruct (check_scan G F0 dts e tr) as [[q e'] tr']
  end.
  cbn [fst snd checked_slope checked_F0 checked_quotients] in *.
  repeat split. intros dt x Hin. exact (Hq dt x Hin).
Qed.
